(** * static/js/style.js: the client-side behaviour layer of the feed page

    A shallow embedding of the script and of the part of the browser it
    talks to.  The DOM is a heap of element records addressed by node
    identity, the way the script holds on to elements it looked up once
    at load ([input], [btn], [messagesDiv], [videos]) while it looks up
    others again at every event ([chatContainer], the post of a
    comment).  Handlers that can throw live in a small state and
    exception monad; the handlers of the video controller are plain
    state transformers. *)

From Stdlib Require Import ZArith QArith Ascii String.
From stdpp Require Import gmap strings list fin_maps pretty.
Close Scope Q_scope.
Open Scope string_scope.

(** ** JavaScript strings

    A string is a sequence of UTF-16 code units; one [ascii] of a Rocq
    string stands for one code unit below 256. *)

Definition code (c : ascii) : Z := Z.of_nat (nat_of_ascii c).

(** WhiteSpace and LineTerminator of ECMAScript among the code units
    below 256: TAB, LF, VT, FF, CR, SP and NBSP. *)
Definition is_white_space (c : ascii) : bool :=
  bool_decide (code c ∈ [9; 10; 11; 12; 13; 32; 160]%Z).

Fixpoint trimStart (s : string) : string :=
  match s with
  | EmptyString => EmptyString
  | String c s' => if is_white_space c then trimStart s' else s
  end.

Definition trimEnd (s : string) : string :=
  String.rev (trimStart (String.rev s)).

(** [String.prototype.trim] *)
Definition trim (s : string) : string := trimEnd (trimStart s).

(** ASCII whitespace of HTML, which separates the tokens of a class
    attribute: TAB, LF, FF, CR and SP. *)
Definition is_html_space (c : ascii) : bool :=
  bool_decide (code c ∈ [9; 10; 12; 13; 32]%Z).

Fixpoint tokens_from (cur : string) (s : string) : list string :=
  match s with
  | EmptyString => if bool_decide (cur = "") then [] else [cur]
  | String c s' =>
      if is_html_space c
      then (if bool_decide (cur = "") then tokens_from "" s'
            else cur :: tokens_from "" s')
      else tokens_from (cur +:+ String c "") s'
  end.

(** The token list behind [classList]. *)
Definition class_tokens (className : string) : list string :=
  tokens_from "" className.

(** ** JavaScript numbers, as far as the script uses them

    The script only parses integers, adds one and prints.  [Num z] is
    the binary64 value nearest to the integer [z]; it is [z] itself for
    [-2^53 <= z <= 2^53]. *)

Inductive JsNumber :=
| Num (z : Z)
| NaN.

Definition digit_value (radix : Z) (c : ascii) : option Z :=
  let n := code c in
  let d := if (48 <=? n)%Z && (n <=? 57)%Z then Some (n - 48)%Z
           else if (97 <=? n)%Z && (n <=? 122)%Z then Some (n - 87)%Z
           else if (65 <=? n)%Z && (n <=? 90)%Z then Some (n - 55)%Z
           else None in
  match d with
  | Some v => if (v <? radix)%Z then Some v else None
  | None => None
  end.

(** Value of the longest prefix of [s] made of digits of the radix;
    [acc] is [None] as long as no digit was read. *)
Fixpoint digits_prefix (radix : Z) (s : string) (acc : option Z) : option Z :=
  match s with
  | EmptyString => acc
  | String c s' =>
      match digit_value radix c with
      | Some d => digits_prefix radix s' (Some (radix * default 0 acc + d))%Z
      | None => acc
      end
  end.

(** [parseInt(s)] with no radix argument: leading white space, a sign,
    an optional [0x] prefix, then as many digits as there are. *)
Definition parseInt (s : string) : JsNumber :=
  let s1 := trimStart s in
  let '(neg, s2) :=
    match s1 with
    | String "-"%char r => (true, r)
    | String "+"%char r => (false, r)
    | _ => (false, s1)
    end in
  let '(radix, s3) :=
    match s2 with
    | String "0"%char (String "x"%char r) => (16%Z, r)
    | String "0"%char (String "X"%char r) => (16%Z, r)
    | _ => (10%Z, s2)
    end in
  match digits_prefix radix s3 None with
  | Some m => Num (if neg : bool then - m else m)%Z
  | None => NaN
  end.

(** [parseInt(x)] where [x] may be [undefined]: ToString gives
    ["undefined"], which has no digit. *)
Definition parseInt_opt (x : option string) : JsNumber :=
  match x with
  | Some s => parseInt s
  | None => parseInt "undefined"
  end.

(** The integers binary64 represents exactly without gaps, and those
    among them whose successor is one too. *)
Definition exact_int (z : Z) : bool :=
  (- 2 ^ 53 <=? z)%Z && (z <=? 2 ^ 53)%Z.

Definition exact_succ (z : Z) : bool :=
  (- 2 ^ 53 <=? z)%Z && (z <? 2 ^ 53)%Z.

(** ** The DOM heap *)

Abbreviation NodeId := nat.

(** What a node holds as children: elements by identity, text inline. *)
Inductive Child :=
| ChildElement (id : NodeId)
| ChildText (data : string).

Record Element := mkElement {
  tagName : string;                    (* lower case *)
  className : string;
  attributes : list (string * string); (* in source order *)
  value : option string;               (* [None]: the element has no value property *)
  childNodes : list Child;
  scrollTop : Z;
  paused : bool                        (* media elements *)
}.

Definition set_className (c : string) (e : Element) : Element :=
  mkElement (tagName e) c (attributes e) (value e) (childNodes e) (scrollTop e) (paused e).
Definition set_value (v : string) (e : Element) : Element :=
  mkElement (tagName e) (className e) (attributes e) (Some v) (childNodes e) (scrollTop e) (paused e).
Definition set_childNodes (cs : list Child) (e : Element) : Element :=
  mkElement (tagName e) (className e) (attributes e) (value e) cs (scrollTop e) (paused e).
Definition set_scrollTop (y : Z) (e : Element) : Element :=
  mkElement (tagName e) (className e) (attributes e) (value e) (childNodes e) y (paused e).
Definition set_paused (p : bool) (e : Element) : Element :=
  mkElement (tagName e) (className e) (attributes e) (value e) (childNodes e) (scrollTop e) p.

(** [document.createElement(tag)]: no class, no attribute, no child;
    a media element starts paused. *)
Definition new_element (tag : string) : Element :=
  mkElement tag "" [] None [] 0 true.

(** The value of the first attribute of that name. *)
Fixpoint attribute (name : string) (attrs : list (string * string)) : option string :=
  match attrs with
  | [] => None
  | (n, v) :: rest => if bool_decide (n = name) then Some v else attribute name rest
  end.

Definition child_element (c : Child) : option NodeId :=
  match c with
  | ChildElement id => Some id
  | _ => None
  end.

Definition child_elements (e : Element) : list NodeId :=
  omap child_element (childNodes e).

(** Elements of the subtree of [id] in tree order, each with the chain
    of its ancestors inside the subtree, nearest first.  The fuel
    bounds the nesting depth. *)
Fixpoint walk (fuel : nat) (h : gmap nat Element) (ancestors : list NodeId)
    (id : NodeId) : list (NodeId * list NodeId) :=
  match fuel with
  | O => []
  | S fuel' =>
      match h !! id with
      | None => []
      | Some e =>
          (id, ancestors)
            :: flat_map (walk fuel' h (id :: ancestors)) (child_elements e)
      end
  end.

(** A tree of [n] nodes is at most [n] deep, so this fuel is enough
    ([subtree_complete] below). *)
Definition subtree (h : gmap nat Element) (id : NodeId) : list (NodeId * list NodeId) :=
  walk (S (size h)) h [] id.

(** Proper descendants: what [el.querySelector] searches. *)
Definition descendants (h : gmap nat Element) (id : NodeId) : list (NodeId * list NodeId) :=
  tail (subtree h id).

(** ** The path of an event

    An event dispatched at a target goes up through its ancestors, and
    the listeners of every node it meets run. *)

(** [el.parentNode], where it is an element. *)
Definition parentNode (h : gmap nat Element) (t : NodeId) : option NodeId :=
  fst <$> List.find (λ kv, bool_decide (t ∈ child_elements kv.2)) (map_to_list h).

(** The ancestors of [t], nearest first.  In a tree no node is met
    twice; [seen] keeps it so in a heap that is no tree. *)
Fixpoint climb (fuel : nat) (h : gmap nat Element) (seen : list NodeId)
    (t : NodeId) : list NodeId :=
  match fuel with
  | O => []
  | S fuel' =>
      match parentNode h t with
      | Some p => if bool_decide (p ∈ seen) then []
                  else p :: climb fuel' h (p :: seen) p
      | None => []
      end
  end.

Definition event_path (h : gmap nat Element) (t : NodeId) : list NodeId :=
  t :: climb (size h) h [t] t.

(** The element a variable of the script holds, if any, is on a path. *)
Definition on_path (x : option NodeId) (l : list NodeId) : bool :=
  match x with
  | Some n => bool_decide (n ∈ l)
  | None => false
  end.

(** ** Disabled controls: what [el.click()] looks at *)

Definition has_attribute (name : string) (e : Element) : bool :=
  bool_decide (is_Some (attribute name (attributes e))).

Definition has_tag (h : gmap nat Element) (tag : string) (id : NodeId) : bool :=
  bool_decide (tagName <$> h !! id = Some tag).

(** The first [legend] child of a [fieldset]: what is inside it stays
    enabled when the fieldset is disabled. *)
Definition first_legend (h : gmap nat Element) (fieldset : Element) : option NodeId :=
  head (filter (λ c, has_tag h "legend" c = true) (child_elements fieldset)).

(** Some ancestor of the chain is a [fieldset] with the [disabled]
    attribute, entered by another way than its first legend; [below]
    is the node of the chain just under the head of [chain]. *)
Fixpoint in_disabled_fieldset (h : gmap nat Element) (below : NodeId)
    (chain : list NodeId) : bool :=
  match chain with
  | [] => false
  | a :: rest =>
      match h !! a with
      | Some e =>
          (bool_decide (tagName e = "fieldset") && has_attribute "disabled" e
           && negb (bool_decide (first_legend h e = Some below)))
          || in_disabled_fieldset h a rest
      | None => in_disabled_fieldset h a rest
      end
  end.

(** The element is a form control that is disabled: a [button],
    [input], [select], [textarea] or [fieldset] with the [disabled]
    attribute or inside a disabled fieldset, an [optgroup] with the
    attribute, an [option] with it or in such an [optgroup]. *)
Definition is_disabled (h : gmap nat Element) (t : NodeId) : bool :=
  match h !! t with
  | Some e =>
      if bool_decide (tagName e ∈ ["button"; "input"; "select"; "textarea"; "fieldset"])
      then has_attribute "disabled" e
           || in_disabled_fieldset h t (tail (event_path h t))
      else if bool_decide (tagName e = "optgroup") then has_attribute "disabled" e
      else if bool_decide (tagName e = "option")
      then has_attribute "disabled" e
           || match parentNode h t ≫= (λ g, h !! g) with
              | Some g => bool_decide (tagName g = "optgroup") && has_attribute "disabled" g
              | None => false
              end
      else false
  | None => false
  end.

(** ** Markup: what the HTML parser makes of a string

    [el.innerHTML = s] hands [s] to the parser of the browser and puts
    the nodes it builds under [el].  A parsed element has a tag, a
    class, attributes, for a form control a value, and children. *)

#[local] Unset Elimination Schemes.
Inductive Markup :=
| MarkupText (data : string)
| MarkupElement (tag cls : string) (attrs : list (string * string))
                (val : option string) (kids : list Markup).
#[local] Set Elimination Schemes.

(** The nodes of a parsed tree enter the heap, each element under a
    new identity; a media element among them starts paused. *)
Fixpoint build (m : Markup) (h : gmap nat Element) : Child * gmap nat Element :=
  match m with
  | MarkupText t => (ChildText t, h)
  | MarkupElement tag cls attrs val kids =>
      let id := fresh (dom h) in
      let r :=
        (fix build_kids (ms : list Markup) (h : gmap nat Element)
           : list Child * gmap nat Element :=
           match ms with
           | [] => ([], h)
           | m' :: ms' =>
               let r1 := build m' h in
               let r2 := build_kids ms' r1.2 in
               (r1.1 :: r2.1, r2.2)
           end) kids (<[id := mkElement tag cls attrs val [] 0 true]> h) in
      (ChildElement id, alter (set_childNodes r.1) id r.2)
  end.

Fixpoint build_all (ms : list Markup) (h : gmap nat Element)
    : list Child * gmap nat Element :=
  match ms with
  | [] => ([], h)
  | m :: ms' =>
      let r1 := build m h in
      let r2 := build_all ms' r1.2 in
      (r1.1 :: r2.1, r2.2)
  end.

(** *** Markup the parser reads in one way only

    Text without [<], [&], NUL and CR is taken as it is; between runs
    of such text, an element [<tag>text</tag>] of one of a few ordinary
    tags holds its text.  This is all the script's own template needs
    for payloads that are plain text; for any other string the parser
    of the browser is asked ([parse_html] of the runtime below). *)

Definition is_plain (c : ascii) : bool :=
  negb (bool_decide (code c ∈ [0; 13; 38; 60]%Z)).

Fixpoint all_plain (s : string) : bool :=
  match s with
  | EmptyString => true
  | String c s' => is_plain c && all_plain s'
  end.

(** The longest plain prefix of a string, and what follows it. *)
Fixpoint plain_prefix (s : string) : string * string :=
  match s with
  | EmptyString => ("", "")
  | String c s' =>
      if is_plain c then (String c (plain_prefix s').1, (plain_prefix s').2)
      else ("", s)
  end.

Fixpoint strip_prefix (pre s : string) : option string :=
  match pre, s with
  | EmptyString, _ => Some s
  | String a pre', String b s' =>
      if bool_decide (a = b) then strip_prefix pre' s' else None
  | String _ _, EmptyString => None
  end.

Definition flat_tags : list string := ["strong"; "em"; "b"; "i"; "span"].

Fixpoint open_tag (tags : list string) (s : string) : option (string * string) :=
  match tags with
  | [] => None
  | tag :: tags' =>
      match strip_prefix ("<" +:+ tag +:+ ">") s with
      | Some rest => Some (tag, rest)
      | None => open_tag tags' s
      end
  end.

Definition markup_text (t : string) : list Markup :=
  if bool_decide (t = "") then [] else [MarkupText t].

Fixpoint parse_flat (fuel : nat) (s : string) : option (list Markup) :=
  match fuel with
  | O => None
  | S fuel' =>
      let here := markup_text (plain_prefix s).1 in
      let rest := (plain_prefix s).2 in
      if bool_decide (rest = "") then Some here
      else
        match open_tag flat_tags rest with
        | None => None
        | Some (tag, inside) =>
            match strip_prefix ("</" +:+ tag +:+ ">") (plain_prefix inside).2 with
            | None => None
            | Some after =>
                match parse_flat fuel' after with
                | Some more =>
                    Some (here ++ MarkupElement tag "" [] None
                                    (markup_text (plain_prefix inside).1) :: more)%list
                | None => None
                end
            end
        end
  end.

(** ** Selectors: the fragment of CSS the script uses *)

Inductive Simple :=
| ClassSel (c : string)                 (* .c *)
| TagSel (t : string)                   (* t *)
| AttrSel (name val : string).          (* [name="val"] *)

Definition matches_simple (e : Element) (s : Simple) : bool :=
  match s with
  | ClassSel c => bool_decide (c ∈ class_tokens (className e))
  | TagSel t => bool_decide (tagName e = t)
  | AttrSel n v => bool_decide (attribute n (attributes e) = Some v)
  end.

(** A compound selector: all of its simple selectors hold of the node. *)
Definition matches (h : gmap nat Element) (sel : list Simple) (id : NodeId) : bool :=
  match h !! id with
  | Some e => forallb (matches_simple e) sel
  | None => false
  end.

(** [anc sel]: the descendant combinator, as in [.post video]. *)
Definition matches_under (h : gmap nat Element) (anc sel : list Simple)
    (n : NodeId * list NodeId) : bool :=
  matches h sel n.1 && existsb (matches h anc) n.2.

Definition first_match (h : gmap nat Element) (sel : list Simple)
    (l : list (NodeId * list NodeId)) : option NodeId :=
  fst <$> List.find (λ n, matches h sel n.1) l.

(** [el.classList.contains(c)] *)
Definition classList_contains (h : gmap nat Element) (id : NodeId) (c : string) : bool :=
  matches h [ClassSel c] id.

(** [el.querySelector(sel)] and [el.querySelectorAll(sel)] *)
Definition querySelector_in (h : gmap nat Element) (el : NodeId)
    (sel : list Simple) : option NodeId :=
  first_match h sel (descendants h el).

Definition querySelectorAll_in (h : gmap nat Element) (el : NodeId)
    (sel : list Simple) : list NodeId :=
  fst <$> filter (λ n, matches h sel n.1) (descendants h el).

(** ** The browser around the script *)

(** What the script sends through [socket.emit]. *)
Inductive Outbound :=
| SendMessage (recipient content : string)
| SendComment (post_id : JsNumber) (content : string).

(** Inbound payloads. *)
Record NewComment := mkNewComment {
  comment_post_id : Z;
  comment_username : string;
  comment_content : string
}.

Record NewMessage := mkNewMessage {
  message_sender : string;
  message_recipient : string;
  message_content : string
}.

Inductive JsError :=
| TypeError (what : string).

(** A call the script makes on a media element. *)
Inductive MediaCall :=
| CallPause (v : NodeId)
| CallPlay (v : NodeId) (granted : bool).

Record Browser := mkBrowser {
  heap : gmap nat Element;
  documentElement : NodeId;
  body : NodeId;                          (* document.body *)
  hidden : bool;                          (* document.hidden *)
  emitted : list Outbound;                (* socket.emit, oldest first *)
  uncaught : list JsError;                (* errors that escaped a listener *)
  mediaCalls : list (MediaCall * gmap nat Element)
    (* a log kept for the statements, which the script never reads:
       every pause() and play(), oldest first, with the heap it was
       issued in *)
}.

Definition with_heap (f : gmap nat Element → gmap nat Element) (b : Browser) : Browser :=
  mkBrowser (f (heap b)) (documentElement b) (body b) (hidden b)
            (emitted b) (uncaught b) (mediaCalls b).
Definition with_hidden (x : bool) (b : Browser) : Browser :=
  mkBrowser (heap b) (documentElement b) (body b) x
            (emitted b) (uncaught b) (mediaCalls b).
Definition with_emitted (o : Outbound) (b : Browser) : Browser :=
  mkBrowser (heap b) (documentElement b) (body b) (hidden b)
            (emitted b ++ [o]) (uncaught b) (mediaCalls b).
Definition with_uncaught (e : JsError) (b : Browser) : Browser :=
  mkBrowser (heap b) (documentElement b) (body b) (hidden b)
            (emitted b) (uncaught b ++ [e]) (mediaCalls b).
Definition with_mediaCall (c : MediaCall) (b : Browser) : Browser :=
  mkBrowser (heap b) (documentElement b) (body b) (hidden b)
            (emitted b) (uncaught b) (mediaCalls b ++ [(c, heap b)]).

(** All elements of the document, in tree order. *)
Definition document_elements (b : Browser) : list (NodeId * list NodeId) :=
  subtree (heap b) (documentElement b).

(** [document.querySelector(sel)] *)
Definition querySelector (b : Browser) (sel : list Simple) : option NodeId :=
  first_match (heap b) sel (document_elements b).

(** [document.querySelectorAll(sel)] *)
Definition querySelectorAll (b : Browser) (sel : list Simple) : list NodeId :=
  fst <$> filter (λ n, matches (heap b) sel n.1) (document_elements b).

(** [document.querySelectorAll("anc sel")] *)
Definition querySelectorAll_under (b : Browser) (anc sel : list Simple) : list NodeId :=
  fst <$> filter (λ n, matches_under (heap b) anc sel n) (document_elements b).

(** [document.getElementById(id)] *)
Definition getElementById (b : Browser) (id : string) : option NodeId :=
  querySelector b [AttrSel "id" id].

(** [el.getAttribute(name)], which is also what [el.dataset] reads. *)
Definition getAttribute (b : Browser) (el : NodeId) (name : string) : option string :=
  heap b !! el ≫= λ e, attribute name (attributes e).

(** [v.paused]; a node that is no media element is not playing. *)
Definition is_paused (h : gmap nat Element) (v : NodeId) : bool :=
  match h !! v with
  | Some e => paused e
  | None => true
  end.

Definition apply_call (c : MediaCall) (h : gmap nat Element) : gmap nat Element :=
  match c with
  | CallPause v => alter (set_paused true) v h
  | CallPlay v granted => if granted then alter (set_paused false) v h else h
  end.

Definition media_call (c : MediaCall) (b : Browser) : Browser :=
  with_heap (apply_call c) (with_mediaCall c b).

(** [v.pause()] *)
Definition video_pause (v : NodeId) (b : Browser) : Browser :=
  media_call (CallPause v) b.

(** [v.play()]: the video starts unless the browser refuses (autoplay
    policy), in which case the promise it returns is rejected. *)
Definition video_play (v : NodeId) (granted : bool) (b : Browser) : Browser :=
  media_call (CallPlay v granted) b.

(** ** Completions and the handler monad *)

Inductive Completion (A : Type) :=
| Normal (a : A)
| Throw (e : JsError).
Arguments Normal {A} a.
Arguments Throw {A} e.

(** A computation runs in the browser and either returns or throws;
    what it did before it threw stays done. *)
Definition JS (A : Type) : Type := Browser → Completion A * Browser.

Definition ret {A} (a : A) : JS A := λ b, (Normal a, b).

Definition throw {A} (e : JsError) : JS A := λ b, (Throw e, b).

Definition bind {A B} (m : JS A) (f : A → JS B) : JS B :=
  λ b, match m b with
       | (Normal a, b') => f a b'
       | (Throw e, b') => (Throw e, b')
       end.

Notation "'do' x <- m ; k" := (bind m (λ x, k))
  (at level 10, x name, m at level 100, k at level 200).

Definition modify (f : Browser → Browser) : JS unit := λ b, (Normal tt, f b).

Definition gets {A} (f : Browser → A) : JS A := λ b, (Normal (f b), b).

(** Reading a property of [null] or [undefined] throws. *)
Definition deref {A} (what : string) (x : option A) : JS A :=
  match x with
  | Some a => ret a
  | None => throw (TypeError what)
  end.

(** An event listener is called by the browser: what it throws is
    reported and goes no further. *)
Definition listener (m : JS unit) (b : Browser) : Browser :=
  match m b with
  | (Normal _, b') => b'
  | (Throw e, b') => with_uncaught e b'
  end.

(** [l.forEach(f)] on a state. *)
Definition forEach {A S} (l : list A) (f : A → S → S) (s : S) : S :=
  fold_left (λ s a, f a s) l s.

(** [document.createElement(tag)]: a node no one refers to yet. *)
Definition createElement (tag : string) : JS NodeId :=
  λ b, let id := fresh (dom (heap b)) in
       (Normal id, with_heap (insert id (new_element tag)) b).

Definition update (id : NodeId) (f : Element → Element) : JS unit :=
  modify (with_heap (alter f id)).

(** [el.textContent = s]: a single text node, or nothing for the empty
    string. *)
Definition text_children (s : string) : list Child :=
  if bool_decide (s = "") then [] else [ChildText s].

(** [parent.appendChild(child)] for a [child] that has no parent yet,
    which is the only use the script makes of it. *)
Definition appendChild (parent child : NodeId) : JS unit :=
  update parent (λ e, set_childNodes (childNodes e ++ [ChildElement child]) e).

(** [socket.emit] *)
Definition emit (o : Outbound) : JS unit := modify (with_emitted o).

(** ** The script's own state

    The variables the load handler declares and the closures capture,
    and the listeners it has registered. *)

Record Script := mkScript {
  currentUsername : option string;        (* [None]: undefined *)
  postsContainer : option NodeId;         (* [None]: null, also below *)
  input : option NodeId;
  btn : option NodeId;
  messagesDiv : option NodeId;
  videos : list NodeId;                   (* a static NodeList *)
  current : option NodeId;
  submitBound : list NodeId;              (* one entry per submit listener *)
  imgBound : list NodeId;                 (* one entry per click listener on an image *)
  observed : list NodeId                  (* targets of intersectionObserver *)
}.

Definition set_current (c : option NodeId) (s : Script) : Script :=
  mkScript (currentUsername s) (postsContainer s) (input s) (btn s) (messagesDiv s)
           (videos s) c (submitBound s) (imgBound s) (observed s).

Definition add_submitBound (f : NodeId) (s : Script) : Script :=
  mkScript (currentUsername s) (postsContainer s) (input s) (btn s) (messagesDiv s)
           (videos s) (current s) (submitBound s ++ [f]) (imgBound s) (observed s).

(** An entry of the intersection observer.  [playGranted] is not a
    field of the entry: it is the browser's answer to the [play()] the
    callback may issue while it handles this entry. *)
Record Entry := mkEntry {
  target : NodeId;
  isIntersecting : bool;
  intersectionRatio : Q;
  playGranted : bool
}.

(** The binary64 value of the literal [0.6]. *)
Definition threshold : Q := 5404319552844595 # 9007199254740992.

(** [entry.isIntersecting && entry.intersectionRatio >= 0.6] *)
Definition dominant (e : Entry) : bool :=
  isIntersecting e && Qle_bool threshold (intersectionRatio e).

Record MutationRecord := mkMutationRecord {
  addedNodes : list Child
}.

(** ** What the script takes from its surroundings *)

Record Runtime := mkRuntime {
  (** What the template engine puts in place of the recipient
      placeholder of the send handler when it renders the page (the
      placeholder itself if the file is served as it is). *)
  chat_user : string;
  (** Layout: the height of the content of an element and of its box. *)
  scrollHeight : gmap nat Element → NodeId → Z;
  clientHeight : gmap nat Element → NodeId → Z;
  (** The HTML parser, for the markup [parse_flat] does not read. *)
  parse_html : string → list Markup;
  (** Binary64 outside the exact range: [round_succ z] is the integer
      value of the sum of [Num z] and one, [inexact_text z] the decimal
      rendering of [Num z]. *)
  round_succ : Z → Z;
  inexact_text : Z → string
}.

(** ** Sample pages *)

Definition el (tag cls : string) (attrs : list (string * string))
    (kids : list Child) : Element :=
  mkElement tag cls attrs None kids 0 true.

Definition field (attrs : list (string * string)) (text : string) : Element :=
  mkElement "input" "" attrs (Some text) [] 0 true.

Definition video (playing : bool) : Element :=
  mkElement "video" "" [] None [] 0 (negb playing).

(** A feed with two posts and a chat; both videos play when the load
    handler starts. *)
Definition feed_heap : gmap nat Element :=
  list_to_map [
    (0, el "html" "" [] [ChildElement 1]);
    (1, el "body" "" [("data-username", "alice")]
           [ChildElement 2; ChildElement 12; ChildElement 13; ChildElement 14]);
    (2, el "div" "" [("id", "posts")] [ChildElement 3; ChildElement 10]);
    (3, el "div" "card post" [("data-post-id", "7")]
           [ChildElement 4; ChildElement 5; ChildElement 6; ChildElement 8;
            ChildElement 9]);
    (4, el "span" "comment-count" [] [ChildText "3"]);
    (5, el "ul" "comments-list" [] []);
    (6, el "form" "comment-form" [("data-post-id", "7")] [ChildElement 7]);
    (7, field [("name", "comment")] "   ");
    (8, video true);
    (9, el "img" "" [] []);
    (10, el "div" "post" [("data-post-id", "8")] [ChildElement 11]);
    (11, video true);
    (12, el "div" "" [("id", "messages")] []);
    (13, field [("id", "messageInput")] "  hello  ");
    (14, el "button" "" [("id", "sendBtn")] [])].

Definition page_of (h : gmap nat Element) : Browser :=
  mkBrowser h 0 1 false [] [] [].

Definition feed_page : Browser := page_of feed_heap.

(** A chat page whose template left out the send button. *)
Definition chat_without_button : Browser :=
  page_of (list_to_map [
    (0, el "html" "" [] [ChildElement 1]);
    (1, el "body" "" [("data-username", "alice")] [ChildElement 2; ChildElement 3]);
    (2, el "div" "" [("id", "messages")] []);
    (3, field [("id", "messageInput")] "hello")]).

(** One whose template left out the input. *)
Definition chat_without_input : Browser :=
  page_of (list_to_map [
    (0, el "html" "" [] [ChildElement 1]);
    (1, el "body" "" [("data-username", "alice")] [ChildElement 2; ChildElement 3]);
    (2, el "div" "" [("id", "messages")] []);
    (3, el "button" "" [("id", "sendBtn")] [])]).

(** And one with the button and the input but no list of messages. *)
Definition chat_without_messages : Browser :=
  page_of (list_to_map [
    (0, el "html" "" [] [ChildElement 1]);
    (1, el "body" "" [("data-username", "alice")] [ChildElement 2; ChildElement 3]);
    (2, field [("id", "messageInput")] "hello");
    (3, el "button" "" [("id", "sendBtn")] [])]).

(** A post that arrives inside a wrapper that is no post. *)
Definition wrapped_post : gmap nat Element :=
  list_to_map [
    (20, el "div" "wrapper" [] [ChildElement 21]);
    (21, el "div" "post" [("data-post-id", "9")] [ChildElement 22]);
    (22, el "form" "comment-form" [("data-post-id", "9")] [ChildElement 23]);
    (23, field [("name", "comment")] "")].

(** A post that arrives bare. *)
Definition bare_post : gmap nat Element :=
  list_to_map [
    (21, el "div" "post" [("data-post-id", "9")] [ChildElement 22; ChildElement 24]);
    (22, el "form" "comment-form" [("data-post-id", "9")] [ChildElement 23]);
    (23, field [("name", "comment")] "");
    (24, video true)].


(** A post that arrives with an image and a playing video. *)
Definition pictured_post : gmap nat Element :=
  list_to_map [
    (26, el "div" "post" [("data-post-id", "10")] [ChildElement 25; ChildElement 27]);
    (25, el "img" "" [] []);
    (27, video true)].

(** A chat page whose send button holds a label. *)
Definition labelled_chat : Browser :=
  page_of (list_to_map [
    (0, el "html" "" [] [ChildElement 1]);
    (1, el "body" "" [("data-username", "alice")]
           [ChildElement 2; ChildElement 3; ChildElement 4]);
    (2, el "div" "" [("id", "messages")] []);
    (3, field [("id", "messageInput")] "hello");
    (4, el "button" "" [("id", "sendBtn")] [ChildElement 5]);
    (5, el "span" "" [] [ChildText "Send"])]).

(** Layout for the samples. *)
Definition sample_scrollHeight (h : gmap nat Element) (n : NodeId) : Z :=
  40 * Z.of_nat (length (from_option childNodes [] (h !! n))).

Definition sample_clientHeight (h : gmap nat Element) (n : NodeId) : Z := 100.

Definition sample_runtime : Runtime :=
  mkRuntime "bob" sample_scrollHeight sample_clientHeight (λ s, [MarkupText s])
            (λ z, z) (λ z, "big").

Section Page.

Variable rt : Runtime.

(** ToString of a number. *)
Definition number_to_string (n : JsNumber) : string :=
  match n with
  | Num z => if exact_int z then pretty z else inexact_text rt z
  | NaN => "NaN"
  end.

(** [n + 1] *)
Definition js_succ (n : JsNumber) : JsNumber :=
  match n with
  | Num z => if exact_succ z then Num (z + 1) else Num (round_succ rt z)
  | NaN => NaN
  end.

Fixpoint text_of (fuel : nat) (h : gmap nat Element) (id : NodeId) : string :=
  match fuel with
  | O => ""
  | S fuel' =>
      match h !! id with
      | None => ""
      | Some e =>
          String.concat ""
            (map (λ c, match c with
                       | ChildText t => t
                       | ChildElement i => text_of fuel' h i
                       end) (childNodes e))
      end
  end.

(** [el.textContent] *)
Definition textContent (h : gmap nat Element) (el : NodeId) : string :=
  text_of (S (size h)) h el.

(** [el.scrollTop = y]: the browser clamps the offset to what the
    content allows. *)
Definition assign_scrollTop (el : NodeId) (y : Z) : JS unit :=
  modify (λ b,
    let top := Z.max 0 (Z.min y (scrollHeight rt (heap b) el - clientHeight rt (heap b) el)) in
    with_heap (alter (set_scrollTop top) el) b).

(** [el.scrollTop = el.scrollHeight] *)
Definition scroll_to_end (el : NodeId) : JS unit :=
  do h <- gets heap;
  assign_scrollTop el (scrollHeight rt h el).

(** *** socket.on('new_comment') *)

Definition post_selector (post_id : Z) : list Simple :=
  [ClassSel "post"; AttrSel "data-post-id" (number_to_string (Num post_id))].

Definition comment_markup (data : NewComment) : string :=
  "<strong>" +:+ comment_username data +:+ "</strong>: " +:+ comment_content data.

(** [parseInt(text || "0")] *)
Definition counter_value (text : string) : JsNumber :=
  parseInt (if bool_decide (text = "") then "0" else text).

Definition bump_count (countEl : NodeId) : JS unit :=
  do t <- gets (λ b, textContent (heap b) countEl);
  let n := js_succ (counter_value t) in
  update countEl (set_childNodes (text_children (number_to_string n))).

(** What the parser makes of [s]. *)
Definition parsed (s : string) : list Markup :=
  match parse_flat (S (String.length s)) s with
  | Some ms => ms
  | None => parse_html rt s
  end.

(** [el.innerHTML = s]: the parsed nodes replace the children of [el]. *)
Definition set_innerHTML (el : NodeId) (s : string) : JS unit :=
  modify (with_heap (λ h, let r := build_all (parsed s) h in
                          alter (set_childNodes r.1) el r.2)).

Definition append_comment (list : NodeId) (data : NewComment) : JS unit :=
  do li <- createElement "li";
  do _ <- set_innerHTML li (comment_markup data);
  appendChild list li.

Definition on_new_comment (data : NewComment) : JS unit :=
  do post <- gets (λ b, querySelector b (post_selector (comment_post_id data)));
  match post with
  | Some post =>
      do countEl <- gets (λ b, querySelector_in (heap b) post [ClassSel "comment-count"]);
      do _ <- match countEl with
              | Some c => bump_count c
              | None => ret tt
              end;
      do list <- gets (λ b, querySelector_in (heap b) post [ClassSel "comments-list"]);
      match list with
      | Some l => append_comment l data
      | None => ret tt
      end
  | None => ret tt
  end.

(** *** socket.on('new_message') *)

Definition message_class (s : Script) (data : NewMessage) : string :=
  if bool_decide (Some (message_sender data) = currentUsername s)
  then "message from-me" else "message from-other".

Definition concerns (s : Script) (data : NewMessage) : bool :=
  bool_decide (Some (message_recipient data) = currentUsername s)
  || bool_decide (Some (message_sender data) = currentUsername s).

(** A [div] with a class and a text, appended to [container], which is
    then scrolled to its end. *)
Definition render_message (container : NodeId) (cls text : string) : JS unit :=
  do div <- createElement "div";
  do _ <- update div (set_className cls);
  do _ <- update div (set_childNodes (text_children text));
  do _ <- appendChild container div;
  scroll_to_end container.

Definition on_new_message (s : Script) (data : NewMessage) : JS unit :=
  do chatContainer <- gets (λ b, getElementById b "messages");
  match chatContainer with
  | Some c =>
      if concerns s data
      then render_message c (message_class s data) (message_content data)
      else ret tt
  | None => ret tt
  end.

(** *** The send button of the chat *)

Definition get_value (what : string) (el : NodeId) : JS string :=
  do v <- gets (λ b, heap b !! el ≫= value);
  deref what v.

Definition on_send_click (s : Script) : JS unit :=
  do i <- deref "input is null" (input s);
  do v <- get_value "input.value is undefined" i;
  let text := trim v in
  if bool_decide (text = "") then ret tt
  else
    do _ <- emit (SendMessage (chat_user rt) text);
    do div <- createElement "div";
    do _ <- update div (set_className "message from-me");
    do _ <- update div (set_childNodes (text_children text));
    do m <- deref "messagesDiv is null" (messagesDiv s);
    do _ <- appendChild m div;
    do _ <- scroll_to_end m;
    update i (set_value "").

(** *** bindCommentForm *)

Definition on_submit (form : NodeId) : JS unit :=
  do found <- gets (λ b, querySelector_in (heap b) form
                           [TagSel "input"; AttrSel "name" "comment"]);
  do i <- deref "input is null" found;
  do v <- get_value "input.value is undefined" i;
  let content := trim v in
  if bool_decide (content = "") then ret tt
  else
    do postId <- gets (λ b, getAttribute b form "data-post-id");
    do _ <- emit (SendComment (parseInt_opt postId) content);
    update i (set_value "").

Definition bindCommentForm (form : NodeId) (s : Script) : Script :=
  add_submitBound form s.

(** *** observeVideo: the body is empty *)

Definition observeVideo (v : NodeId) (s : Script) : Script := s.

(** *** The mutation observer's callback *)

Definition on_added_node (h : gmap nat Element) (node : Child) (s : Script) : Script :=
  match node with
  | ChildElement n =>
      if classList_contains h n "post" then
        let s1 := match querySelector_in h n [ClassSel "comment-form"] with
                  | Some commentForm => bindCommentForm commentForm s
                  | None => s
                  end in
        forEach (querySelectorAll_in h n [TagSel "video"]) observeVideo s1
      else s
  | _ => s                               (* no classList on a text node *)
  end.

Definition on_mutations (h : gmap nat Element) (mutations : list MutationRecord)
    (s : Script) : Script :=
  forEach mutations (λ m, forEach (addedNodes m) (on_added_node h)) s.

(** *** The video controller *)

Definition pause_if_playing (v : NodeId) (b : Browser) : Browser :=
  if negb (is_paused (heap b) v) then video_pause v b else b.

Definition pause_others (vid : NodeId) (s : Script) (b : Browser) : Browser :=
  let b1 := match current s with
            | Some c => if bool_decide (c ≠ vid) then video_pause c b else b
            | None => b
            end in
  forEach (videos s)
          (λ v b, if bool_decide (v ≠ vid) then pause_if_playing v b else b) b1.

Definition on_entry (entry : Entry) (p : Script * Browser) : Script * Browser :=
  let vid := target entry in
  if dominant entry then
    let b2 := pause_others vid p.1 p.2 in
    (set_current (Some vid) p.1, video_play vid (playGranted entry) b2)
  else (p.1, pause_if_playing vid p.2).

Definition on_intersections (entries : list Entry) (p : Script * Browser)
    : Script * Browser :=
  forEach entries on_entry p.

(** [videos.forEach(v => v.pause()); current = null] *)
Definition pause_all (p : Script * Browser) : Script * Browser :=
  (set_current None p.1, forEach (videos p.1) video_pause p.2).

Definition on_visibilitychange (p : Script * Browser) : Script * Browser :=
  if hidden p.2 then pause_all p else p.

Definition on_blur (p : Script * Browser) : Script * Browser := pause_all p.

Definition on_img_click (p : Script * Browser) : Script * Browser := pause_all p.

(** *** Event dispatch *)

(** A click reaches node [n] of its path: first the send handler if
    [n] is the send button, then the handler of every listener bound
    to [n] as a feed image. *)
Definition click_at (n : NodeId) (p : Script * Browser) : Script * Browser :=
  let p1 := if bool_decide (btn p.1 = Some n)
            then (p.1, listener (on_send_click p.1) p.2) else p in
  forEach (filter (λ i, i = n) (imgBound p1.1)) (λ _, on_img_click) p1.

(** A click is dispatched at [t] and bubbles: it reaches [t], then the
    ancestors [t] has when the dispatch starts, nearest first. *)
Definition dispatch_click (t : NodeId) (p : Script * Browser) : Script * Browser :=
  forEach (event_path (heap p.2) t) click_at p.

(** The keypress listener of the chat input.  With [btn] null the
    call [btn.click()] itself throws; on a disabled control it does
    nothing; otherwise it dispatches a click at the button, at once. *)
Definition on_keypress (key : string) (p : Script * Browser) : Script * Browser :=
  if bool_decide (key = "Enter") then
    match btn p.1 with
    | Some b => if is_disabled (heap p.2) b then p else dispatch_click b p
    | None => (p.1, with_uncaught (TypeError "btn is null") p.2)
    end
  else p.

Definition dispatch_submit (form : NodeId) (p : Script * Browser) : Script * Browser :=
  (p.1, forEach (filter (λ f, f = form) (submitBound p.1))
                (λ f, listener (on_submit f)) p.2).

(** The user edits a text field. *)
Definition type_into (el : NodeId) (text : string) (b : Browser) : Browser :=
  with_heap (alter (λ e, match value e with
                         | Some _ => set_value text e
                         | None => e
                         end) el) b.

(** Some other code of the page appends the root of a tree of new
    nodes to [parent].  The mutation observer reports the root, and
    only the root, when [parent] lies in the observed container. *)
Definition insert_fragment (parent root : NodeId) (fragment : gmap nat Element)
    (p : Script * Browser) : Script * Browser :=
  let h := heap p.2 in
  if bool_decide (dom fragment ∩ dom h = ∅ ∧ root ∈ dom fragment ∧ parent ∈ dom h) then
    let h' := alter (λ e, set_childNodes (childNodes e ++ [ChildElement root]) e)
                    parent (fragment ∪ h) in
    let s' := match postsContainer p.1 with
              | Some c =>
                  if bool_decide (parent ∈ (subtree h' c).*1)
                  then on_mutations h' [mkMutationRecord [ChildElement root]] p.1
                  else p.1
              | None => p.1
              end in
    (s', with_heap (λ _, h') p.2)
  else p.

(** What the browser brings to the script.  [Click t] and
    [KeyPress t key] are events dispatched at the target [t], which
    bubble.  [Submit form] is a submit event that reaches the
    listeners of [form]: comment forms do not nest, so [form] is the
    one bound element on its path. *)
Inductive Event :=
| SocketNewComment (data : NewComment)
| SocketNewMessage (data : NewMessage)
| Click (t : NodeId)
| KeyPress (t : NodeId) (key : string)
| Submit (form : NodeId)
| VisibilityChange (nowHidden : bool)
| Blur
| Intersect (entries : list Entry)
| Typed (el : NodeId) (text : string)
| Inserted (parent root : NodeId) (fragment : gmap nat Element).

Definition dispatch (ev : Event) (p : Script * Browser) : Script * Browser :=
  match ev with
  | SocketNewComment data => (p.1, listener (on_new_comment data) p.2)
  | SocketNewMessage data => (p.1, listener (on_new_message p.1 data) p.2)
  | Click t => dispatch_click t p
  | KeyPress t key =>
      match input p.1 with
      | Some i => if bool_decide (i ∈ event_path (heap p.2) t)
                  then on_keypress key p else p
      | None => p
      end
  | Submit form => dispatch_submit form p
  | VisibilityChange nowHidden => on_visibilitychange (p.1, with_hidden nowHidden p.2)
  | Blur => on_blur p
  | Intersect entries =>
      (* the observer reports on its targets only *)
      on_intersections (filter (λ e, target e ∈ observed p.1) entries) p
  | Typed el text => (p.1, type_into el text p.2)
  | Inserted parent root fragment => insert_fragment parent root fragment p
  end.

Definition run (events : list Event) (p : Script * Browser) : Script * Browser :=
  forEach events dispatch p.

(** *** The DOMContentLoaded handler *)

Definition boot (b : Browser) : Script * Browser :=
  let vs := querySelectorAll_under b [ClassSel "post"] [TagSel "video"] in
  let b' := forEach vs video_pause b in
  ({| currentUsername := getAttribute b (body b) "data-username";
      postsContainer := match getElementById b "posts" with
                        | Some c => Some c
                        | None => getElementById b "profile-posts"
                        end;
      input := getElementById b "messageInput";
      btn := getElementById b "sendBtn";
      messagesDiv := getElementById b "messages";
      videos := vs;
      current := None;
      submitBound := querySelectorAll b [ClassSel "comment-form"];
      imgBound := querySelectorAll_under b' [ClassSel "post"] [TagSel "img"];
      observed := vs |},
   b').

End Page.

(** ** Vocabulary of the statements *)

Definition children_of (h : gmap nat Element) (n : NodeId) : list Child :=
  from_option childNodes [] (h !! n).

Definition value_of (h : gmap nat Element) (n : NodeId) : option string :=
  h !! n ≫= value.

(** The largest scroll offset of an element: its content scrolled to
    the bottom. *)
Definition max_scroll (rt : Runtime) (h : gmap nat Element) (el : NodeId) : Z :=
  Z.max 0 (scrollHeight rt h el - clientHeight rt h el).

(** The text of a counter that shows the count [n]: the decimal
    numeral of [n], or no text at all when nothing is counted yet. *)
Definition displays (text : string) (n : Z) : Prop :=
  text = pretty n ∨ (text = "" ∧ n = 0%Z).

(** The element a rendered chat message is. *)
Definition message_element (cls text : string) : Element :=
  set_childNodes (text_children text) (set_className cls (new_element "div")).

(** The heap once [child], a new element [e], hangs under [parent]. *)
Definition with_child (parent child : NodeId) (e : Element)
    (h : gmap nat Element) : gmap nat Element :=
  alter (λ p, set_childNodes (childNodes p ++ [ChildElement child]) p) parent
        (<[child := e]> h).


(** [b'] is [b] with one more child at the end of [c]: a new [div] of
    class [cls] that holds [text]. *)
Definition rendered_into (c : NodeId) (cls text : string) (b b' : Browser) : Prop :=
  let d := fresh (dom (heap b)) in
  heap b' !! d = Some (message_element cls text)
  ∧ children_of (heap b') c = (children_of (heap b) c ++ [ChildElement d])%list.

(** The child [c] in the heap [h] is the parsed tree [m]: text for
    text, and an element with the tag, class, attributes and value of
    the tree, whose children are its children. *)
#[local] Unset Elimination Schemes.
Inductive shaped (h : gmap nat Element) : Child → Markup → Prop :=
| shaped_text t : shaped h (ChildText t) (MarkupText t)
| shaped_element id e tag cls attrs val kids :
    h !! id = Some e →
    tagName e = tag → className e = cls → attributes e = attrs → value e = val →
    Forall2 (shaped h) (childNodes e) kids →
    shaped h (ChildElement id) (MarkupElement tag cls attrs val kids).
#[local] Set Elimination Schemes.

(** Building a tree leaves the nodes of the heap as they are, and the
    nodes it adds are paused. *)
Definition build_safe (m : Markup) : Prop :=
  ∀ h, (∀ n, is_Some (h !! n) → (build m h).2 !! n = h !! n)
       ∧ (∀ n, h !! n = None → is_paused (build m h).2 n = true).

(** What is built has the shape of the tree, in any heap that holds
    the built nodes as they were built. *)
Definition build_shapes (m : Markup) : Prop :=
  ∀ h h',
    (∀ n, h !! n = None → is_Some ((build m h).2 !! n) →
          h' !! n = (build m h).2 !! n) →
    shaped h' (build m h).1 m.

(** What selectors and tree walks see of an element. *)
Definition skeleton (e : Element)
    : string * string * list (string * string) * list NodeId :=
  (tagName e, className e, attributes e, child_elements e).

Definition same_skeleton (h h' : gmap nat Element) : Prop :=
  ∀ id, skeleton <$> h !! id = skeleton <$> h' !! id.

(** At most one of the videos [vs] plays. *)
Definition at_most_one_playing (vs : list NodeId) (h : gmap nat Element) : Prop :=
  ∀ u v, u ∈ vs → v ∈ vs →
         is_paused h u = false → is_paused h v = false → u = v.

(** Every video of [vs] but [v] is paused. *)
Definition others_paused (vs : list NodeId) (v : NodeId) (h : gmap nat Element) : Prop :=
  ∀ u, u ∈ vs → u ≠ v → is_paused h u = true.

Definition all_paused (vs : list NodeId) (h : gmap nat Element) : Prop :=
  ∀ u, u ∈ vs → is_paused h u = true.

Definition call_target (c : MediaCall) : NodeId :=
  match c with
  | CallPause v => v
  | CallPlay v _ => v
  end.

(** A logged call keeps the peace among the videos [vs]: at most one
    of them plays in the heap the call is issued in and in the heap it
    leaves, and [play()] is only called on a video once all the others
    are paused. *)
Definition call_ok (vs : list NodeId) (c : MediaCall * gmap nat Element) : Prop :=
  at_most_one_playing vs c.2
  ∧ at_most_one_playing vs (apply_call c.1 c.2)
  ∧ match c.1 with
    | CallPlay v _ => others_paused vs v c.2
    | CallPause _ => True
    end.

(** The global pause signals: the page becomes hidden, the window
    loses focus, an image the script bound is clicked. *)
Inductive pause_signal (s : Script) : Event → Prop :=
| signal_hidden : pause_signal s (VisibilityChange true)
| signal_blur : pause_signal s Blur
| signal_image img : img ∈ imgBound s → pause_signal s (Click img).

(** What the controller keeps fixed about the script: the list of
    videos, the targets of the observer, and that [current] is one of
    the videos. *)
Definition script_inv (vs : list NodeId) (s : Script) : Prop :=
  videos s = vs ∧ observed s = vs ∧ ∀ c, current s = Some c → c ∈ vs.

Definition covers (vs : list NodeId) (h : gmap nat Element) : Prop :=
  ∀ v, v ∈ vs → is_Some (h !! v).

(** No node comes into the page already playing: a media element
    starts paused, and in this model nothing but the script's own
    [play()] starts one. *)
Definition arrives_paused (ev : Event) : Prop :=
  match ev with
  | Inserted _ _ fragment => map_Forall (λ _ e, paused e = true) fragment
  | _ => True
  end.

(** No node that is missing from [h0] plays in [h]. *)
Definition newcomers_paused (h0 h : gmap nat Element) : Prop :=
  ∀ v, h0 !! v = None → is_paused h v = true.

(** [b'] comes from [b] without any call on a media element: the log
    of calls is the same, the nodes are still there, none changed its
    paused flag and the new ones are paused. *)
Definition quiet (b b' : Browser) : Prop :=
  mediaCalls b' = mediaCalls b
  ∧ (∀ v, is_Some (heap b !! v) →
          is_Some (heap b' !! v) ∧ is_paused (heap b') v = is_paused (heap b) v)
  ∧ newcomers_paused (heap b) (heap b').

Definition quiet_js {A} (m : JS A) : Prop := ∀ b, quiet b (m b).2.

(** As seen from [h0], the heap [h] has the nodes outside [vs] as they
    were and, when [strict], no new node playing. *)
Definition settled (strict : Prop) (vs : list NodeId) (h0 h : gmap nat Element) : Prop :=
  (∀ v, v ∉ vs → is_Some (h0 !! v) → is_paused h v = is_paused h0 v)
  ∧ (strict → newcomers_paused h0 h).

(** [b'] comes from [b], in which the videos [vs] exist, through calls
    on these videos alone: nodes are still there; the heap is
    [settled] at the end and whenever a call is issued; every call
    logged in between is on a video of [vs]; and if at most one video
    played before, then every one of these calls is [call_ok] and at
    most one video plays after. *)
Definition tame (strict : Prop) (vs : list NodeId) (b b' : Browser) : Prop :=
  covers vs (heap b) →
  (∀ v, is_Some (heap b !! v) → is_Some (heap b' !! v))
  ∧ settled strict vs (heap b) (heap b')
  ∧ ∃ calls, mediaCalls b' = (mediaCalls b ++ calls)%list
      ∧ Forall (λ c, call_target c.1 ∈ vs ∧ settled strict vs (heap b) c.2) calls
      ∧ (at_most_one_playing vs (heap b) →
         Forall (call_ok vs) calls ∧ at_most_one_playing vs (heap b')).

(** Every post the insertion brings in, at any depth below the
    inserted root, has its comment form bound. *)
Definition binds_inserted_posts (parent root : NodeId)
    (fragment : gmap nat Element) (p : Script * Browser) : Prop :=
  let p' := insert_fragment parent root fragment p in
  ∀ post form,
    post ∈ (subtree (heap p'.2) root).*1 →
    classList_contains (heap p'.2) post "post" = true →
    querySelector_in (heap p'.2) post [ClassSel "comment-form"] = Some form →
    form ∈ submitBound p'.1.

(** A heap is tree-shaped when a rank goes down along every edge. *)
Definition ranked (rank : NodeId → nat) (h : gmap nat Element) : Prop :=
  ∀ id e c, h !! id = Some e → c ∈ child_elements e → rank c < rank id.

(** ** Vocabulary of the further properties *)

(** What a dispatch may send.  A message: the text the chat input
    held when the event arrived, trimmed and not empty, to the
    recipient of the page.  A comment: the same of the comment field of
    the submitted form, a form the script has bound, with [parseInt]
    of the post id the form carries. *)
Definition sendable (rt : Runtime) (ev : Event) (p : Script * Browser)
    (o : Outbound) : Prop :=
  match o with
  | SendMessage r c =>
      r = chat_user rt ∧ c ≠ ""
      ∧ ∃ i v, input p.1 = Some i ∧ value_of (heap p.2) i = Some v ∧ c = trim v
  | SendComment id c =>
      c ≠ ""
      ∧ ∃ form i v,
          ev = Submit form ∧ form ∈ submitBound p.1
          ∧ querySelector_in (heap p.2) form [TagSel "input"; AttrSel "name" "comment"]
            = Some i
          ∧ value_of (heap p.2) i = Some v ∧ c = trim v
          ∧ id = parseInt_opt (getAttribute p.2 form "data-post-id")
  end.

(** A submit that meets one bound form at most, the submitted one: no
    other element on the path of the form has a submit listener.
    Forms do not nest in a parsed page. *)
Definition lone_form (p : Script * Browser) (ev : Event) : Prop :=
  match ev with
  | Submit form =>
      ∀ n, n ∈ event_path (heap p.2) form → n ∈ submitBound p.1 → n = form
  | _ => True
  end.

(** The events that reach the send listener or a submit listener: a
    click on the send button or inside it, Enter in the chat input or
    inside it, the submit of a form that has been bound or lies in
    one. *)
Definition user_send (p : Script * Browser) (ev : Event) : Prop :=
  match ev with
  | Click t => ∃ sb, btn p.1 = Some sb ∧ sb ∈ event_path (heap p.2) t
  | KeyPress t key =>
      (∃ i, input p.1 = Some i ∧ i ∈ event_path (heap p.2) t) ∧ key = "Enter"
  | Submit form => ∃ f, f ∈ submitBound p.1 ∧ f ∈ event_path (heap p.2) form
  | _ => False
  end.

(** A computation leaves an observation of the browser as it was. *)
Definition keeps {X A} (f : Browser → X) (m : JS A) : Prop :=
  ∀ b, f (m b).2 = f b.

(** A computation that never throws. *)
Definition returns {A} (m : JS A) : Prop :=
  ∀ b, ∃ a, (m b).1 = Normal a.

(** The comment field of [form] is found and holds the empty string:
    a submit listener has just sent its content. *)
Definition spent (form : NodeId) (h : gmap nat Element) : Prop :=
  ∃ i, querySelector_in h form [TagSel "input"; AttrSel "name" "comment"] = Some i
       ∧ value_of h i = Some "".

(** The browser after a listener has sent [o] and cleared field [i]. *)
Definition sent_from (o : Outbound) (i : NodeId) (b : Browser) : Browser :=
  with_heap (alter (set_value "") i) (with_emitted o b).

(** No image with a click listener is on the path of a click at [t]. *)
Definition clear_of_images (s : Script) (h : gmap nat Element) (t : NodeId) : Prop :=
  ∀ n, n ∈ event_path h t → n ∉ imgBound s.

(** The two ways the user sends a chat message, with a send button [t]
    that is not disabled: a click on the button or on a node inside
    it, and Enter in the chat input [i].  On its way up the click
    meets no image the script has bound. *)
Inductive send_action (s : Script) (h : gmap nat Element) (t i : NodeId) : Event → Prop :=
| send_by_click t' :
    t ∈ event_path h t' → is_disabled h t = false → clear_of_images s h t' →
    send_action s h t i (Click t')
| send_by_enter k :
    i ∈ event_path h k → is_disabled h t = false → clear_of_images s h t →
    send_action s h t i (KeyPress k "Enter").

(** The events that can reach a call on a media element: a batch of
    the intersection observer, a global pause signal (a click whose
    path holds a bound image among them), and Enter in the chat input
    on a page where the click at the send button, which the listener
    dispatches, meets a bound image. *)
Definition touches_media (p : Script * Browser) (ev : Event) : Prop :=
  match ev with
  | Intersect _ => True
  | VisibilityChange nowHidden => nowHidden = true
  | Blur => True
  | Click t => ¬ clear_of_images p.1 (heap p.2) t
  | KeyPress t key =>
      (∃ i, input p.1 = Some i ∧ i ∈ event_path (heap p.2) t) ∧ key = "Enter"
      ∧ ∃ sb, btn p.1 = Some sb ∧ is_disabled (heap p.2) sb = false
              ∧ ¬ clear_of_images p.1 (heap p.2) sb
  | _ => False
  end.

(** [b'] comes from [b] with no call on a media element, the nodes of
    [b] still there and their paused flags as they were. *)
Definition undisturbed (b b' : Browser) : Prop :=
  mediaCalls b' = mediaCalls b
  ∧ ∀ v, is_Some (heap b !! v) →
         is_Some (heap b' !! v) ∧ is_paused (heap b') v = is_paused (heap b) v.

(** The calls logged from [b] to [b'] all satisfy [P]. *)
Definition calls_since (P : MediaCall → Prop) (b b' : Browser) : Prop :=
  ∃ calls, mediaCalls b' = (mediaCalls b ++ calls)%list ∧ Forall (λ c, P c.1) calls.

(** A call the event accounts for: any [pause()]; a [play()] only on
    the observed target of a dominant entry of the batch, with the
    browser's answer for that entry. *)
Definition accounted (s : Script) (ev : Event) (c : MediaCall) : Prop :=
  match c with
  | CallPause _ => True
  | CallPlay v g =>
      ∃ entries e, ev = Intersect entries ∧ e ∈ entries ∧ dominant e = true
                   ∧ target e = v ∧ playGranted e = g ∧ v ∈ observed s
  end.

(** What the load handler fixes for good: the elements it looked up,
    the list of videos, the images with a click listener and the
    targets of the intersection observer. *)
Definition captured (s : Script) :=
  (currentUsername s, postsContainer s, input s, btn s, messagesDiv s,
   videos s, imgBound s, observed s).

Definition is_insertion (ev : Event) : bool :=
  match ev with
  | Inserted _ _ _ => true
  | _ => false
  end.

(** The decimal digits, and the strings made of them. *)
Definition is_decimal (c : ascii) : bool :=
  (48 <=? code c)%Z && (code c <=? 57)%Z.

Fixpoint all_decimal (s : string) : bool :=
  match s with
  | EmptyString => true
  | String c s' => is_decimal c && all_decimal s'
  end.

(** [h'] is [h] with one more node [li], a leaf hung somewhere below
    the nodes of [h]: the nodes of [h] keep their tag, class and
    attributes, and their element children but for [li]. *)
Definition grown (li : NodeId) (h h' : gmap nat Element) : Prop :=
  h !! li = None
  ∧ (∃ e, h' !! li = Some e ∧ child_elements e = [])
  ∧ ∀ id, id ≠ li →
      match h !! id, h' !! id with
      | Some e, Some e' =>
          tagName e' = tagName e ∧ className e' = className e
          ∧ attributes e' = attributes e
          ∧ filter (λ c, c ≠ li) (child_elements e')
            = filter (λ c, c ≠ li) (child_elements e)
      | None, None => True
      | _, _ => False
      end.

(** The post [id] is in the page with a counter that reads [n], made
    of text alone, and a list of comments apart from it; the page is a
    tree. *)
Definition counting (rt : Runtime) (id : Z) (post c l : NodeId) (n : Z)
    (b : Browser) : Prop :=
  querySelector b (post_selector rt id) = Some post
  ∧ querySelector_in (heap b) post [ClassSel "comment-count"] = Some c
  ∧ omap child_element (children_of (heap b) c) = []
  ∧ counter_value (textContent (heap b) c) = Num n
  ∧ querySelector_in (heap b) post [ClassSel "comments-list"] = Some l
  ∧ l ≠ c
  ∧ ∃ rank, ranked rank (heap b).

(** ** Events on the sample pages *)

Definition loaded_feed : Script * Browser := boot feed_page.

(** A post with a playing video arrives, the observer fires, the
    window loses focus. *)
Definition late_events : list Event :=
  [Inserted 2 21 bare_post;
   Intersect [mkEntry 24 true (1 # 1) true; mkEntry 8 true (1 # 1) true];
   Blur].


(** The loaded feed while its first video plays. *)
Definition playing_feed : Script * Browser :=
  dispatch sample_runtime (Intersect [mkEntry 8 true (1 # 1) true]) loaded_feed.

(** The pictured post arrives, then the first video of the feed comes
    into view. *)
Definition pictured_events : list Event :=
  [Inserted 2 26 pictured_post; Intersect [mkEntry 8 true (1 # 1) true]].


(** The loaded feed once the user has typed a comment into the form
    of the first post. *)
Definition typed_feed : Script * Browser :=
  dispatch sample_runtime (Typed 7 " nice ") loaded_feed.

(** The feed with a counter that holds no number. *)
Definition vague_feed : Browser :=
  page_of (<[4 := el "span" "comment-count" [] [ChildText "many"]]> feed_heap).

(** Two comments for the first post. *)
Definition two_comments : list NewComment :=
  [mkNewComment 7 "bob" "hi"; mkNewComment 7 "carol" "yo"].

(** A batch of the observer: the first video dominates, then the
    second, then the first is reported again, out of view. *)
Definition scroll_batch_before : list Entry := [mkEntry 8 true (7 # 10) true].
Definition scroll_batch_entry : Entry := mkEntry 11 true (1 # 1) true.
Definition scroll_batch_after : list Entry := [mkEntry 8 false (0 # 1) true].

(** A batch without any dominant entry. *)
Definition calm_batch : list Entry :=
  [mkEntry 8 false (0 # 1) true; mkEntry 11 true (1 # 2) true].

(** ** Verification *)

Section Verification.

Variable rt : Runtime.

(** *** The monad *)

Lemma bind_normal {A B} (m : JS A) (f : A → JS B) b a b' :
  m b = (Normal a, b') → bind m f b = f a b'.
Proof. unfold bind. by intros ->. Qed.

Lemma bind_throw {A B} (m : JS A) (f : A → JS B) b e b' :
  m b = (Throw e, b') → bind m f b = (Throw e, b').
Proof. unfold bind. by intros ->. Qed.

(** *** The fuel of a walk

    On a tree-shaped heap a walk started with the number of nodes as
    fuel never runs dry: more fuel changes nothing. *)

Lemma flat_map_ext_elem {A B} (f g : A → list B) (l : list A) :
  (∀ a, a ∈ l → f a = g a) → flat_map f l = flat_map g l.
Proof.
  intros H. rewrite !flat_map_concat_map. f_equal. apply map_ext_in.
  intros a Ha. apply H. by apply list_elem_of_In.
Qed.

Lemma walk_delete rank fuel h anc c id :
  ranked rank h → rank c < rank id →
  walk fuel (delete id h) anc c = walk fuel h anc c.
Proof.
  intros Hr. revert anc c. induction fuel as [|fuel IH]; intros anc c Hc; [done|].
  cbn. assert (id ≠ c) by (intros ->; lia).
  rewrite lookup_delete_ne by done.
  destruct (h !! c) as [e|] eqn:He; [|done]. f_equal.
  apply flat_map_ext_elem. intros a Ha. apply IH.
  specialize (Hr c e a He Ha). lia.
Qed.

Lemma ranked_delete rank h id : ranked rank h → ranked rank (delete id h).
Proof.
  intros Hr i e c Hi. apply lookup_delete_Some in Hi as [_ Hi]. by apply (Hr i).
Qed.

Lemma walk_fuel_enough rank n h :
  ranked rank h → (size h ≤ n)%nat →
  ∀ k anc id, walk (n + k) h anc id = walk n h anc id.
Proof.
  revert h. induction n as [|n IH]; intros h Hr Hsize k anc id.
  - assert (h = ∅) as -> by (apply map_size_empty_inv; lia).
    destruct k; [done|]. cbn. by rewrite lookup_empty.
  - cbn. destruct (h !! id) as [e|] eqn:He; [|done]. f_equal.
    apply flat_map_ext_elem. intros c Hc.
    pose proof (Hr id e c He Hc) as Hlt.
    rewrite <- (walk_delete rank (n + k) h _ c id Hr Hlt).
    rewrite <- (walk_delete rank n h _ c id Hr Hlt).
    apply IH; [by apply ranked_delete|].
    rewrite map_size_delete_Some by eauto. lia.
Qed.

(** In particular [subtree] lists the whole subtree. *)
Lemma subtree_complete rank h id k :
  ranked rank h → walk (S (size h) + k) h [] id = subtree h id.
Proof. intros Hr. apply (walk_fuel_enough rank); [done | lia]. Qed.

(** *** Queries only return nodes of the heap *)

Lemma matches_is_Some h sel n : matches h sel n = true → is_Some (h !! n).
Proof. unfold matches. destruct (h !! n); [eauto | done]. Qed.

Lemma first_match_matches h sel l n :
  first_match h sel l = Some n → matches h sel n = true.
Proof.
  unfold first_match. destruct (List.find _ l) as [[m anc]|] eqn:Hfind; [|done].
  intros [= <-]. by apply List.find_some in Hfind as [_ ?].
Qed.

Lemma first_match_is_Some h sel l n :
  first_match h sel l = Some n → is_Some (h !! n).
Proof. intros H. eapply matches_is_Some, first_match_matches, H. Qed.

Lemma getElementById_is_Some b id n :
  getElementById b id = Some n → is_Some (heap b !! n).
Proof. apply first_match_is_Some. Qed.

Lemma fresh_not_in_heap (h : gmap nat Element) n :
  is_Some (h !! n) → fresh (dom h) ≠ n.
Proof.
  intros Hn Heq. apply (is_fresh (dom h)). rewrite Heq. by apply elem_of_dom.
Qed.

(** *** The send button *)

Lemma trim_hello : trim "  hello  " = "hello".
Proof. reflexivity. Qed.

Lemma filter_absent (t : NodeId) (l : list NodeId) :
  t ∉ l → filter (λ i, i = t) l = [].
Proof.
  induction l as [|x l IH]; intros Hl; [done|].
  apply not_elem_of_cons in Hl as [Hne Hl].
  rewrite filter_cons_False by congruence. by apply IH.
Qed.

Lemma forEach_app {A S} (l1 l2 : list A) (f : A → S → S) (s : S) :
  forEach (l1 ++ l2) f s = forEach l2 f (forEach l1 f s).
Proof. unfold forEach. apply fold_left_app. Qed.

Lemma forEach_cons {A S} (a : A) (l : list A) (f : A → S → S) (s : S) :
  forEach (a :: l) f s = forEach l f (f a s).
Proof. done. Qed.

Lemma forEach_invariant {A S} (P : S → Prop) (l : list A) (f : A → S → S) (s : S) :
  P s → (∀ a s, a ∈ l → P s → P (f a s)) → P (forEach l f s).
Proof.
  unfold forEach. revert s. induction l as [|a l IH]; intros s Hs Hf; [done|].
  cbn. apply IH.
  - apply Hf; [left | done].
  - intros a' s' Ha'. apply Hf. by right.
Qed.

(** *** The path of a click *)

Lemma target_in_path h t : t ∈ event_path h t.
Proof. left. Qed.

Lemma climb_fresh fuel h seen t x : x ∈ climb fuel h seen t → x ∉ seen.
Proof.
  revert seen t. induction fuel as [|fuel IH]; intros seen t Hx.
  { by apply elem_of_nil in Hx. }
  cbn in Hx. destruct (parentNode h t) as [q|]; [|by apply elem_of_nil in Hx].
  case_bool_decide as Hq; [by apply elem_of_nil in Hx|].
  apply elem_of_cons in Hx as [-> | Hx]; [done|].
  apply IH in Hx. intros Hin. apply Hx. by right.
Qed.

Lemma climb_NoDup fuel h seen t : NoDup (climb fuel h seen t).
Proof.
  revert seen t. induction fuel as [|fuel IH]; intros seen t; [constructor|].
  cbn. destruct (parentNode h t) as [q|]; [|constructor].
  case_bool_decide as Hq; [constructor|].
  constructor; [|apply IH].
  intros Hin. apply climb_fresh in Hin. apply Hin. left.
Qed.

Lemma event_path_NoDup h t : NoDup (event_path h t).
Proof.
  constructor; [|apply climb_NoDup].
  intros Hin. apply climb_fresh in Hin. apply Hin. left.
Qed.

(** Every node of a path but the target has a child. *)
Lemma climb_parent fuel h seen t n :
  n ∈ climb fuel h seen t → ∃ e, h !! n = Some e ∧ child_elements e ≠ [].
Proof.
  revert seen t. induction fuel as [|fuel IH]; intros seen t Hn.
  { by apply elem_of_nil in Hn. }
  cbn in Hn. destruct (parentNode h t) as [q|] eqn:Hq;
    [|by apply elem_of_nil in Hn].
  case_bool_decide; [by apply elem_of_nil in Hn|].
  apply elem_of_cons in Hn as [-> | Hn]; [|by apply IH in Hn].
  unfold parentNode in Hq.
  destruct (List.find _ (map_to_list h)) as [[k e]|] eqn:Hfind; [|done].
  injection Hq as <-. apply find_some in Hfind as [Hin Ht].
  apply list_elem_of_In, elem_of_map_to_list in Hin.
  apply bool_decide_eq_true_1 in Ht. cbn in Ht.
  exists e. split; [done|]. intros Hnil. rewrite Hnil in Ht.
  by apply elem_of_nil in Ht.
Qed.

(** Images have no children: on such a page a click meets a bound
    image only when it is dispatched at one. *)
Lemma clear_of_childless_images s h t :
  t ∉ imgBound s →
  (∀ img e, img ∈ imgBound s → h !! img = Some e → child_elements e = []) →
  clear_of_images s h t.
Proof.
  intros Ht Hvoid n Hn Himg. apply elem_of_cons in Hn as [-> | Hn]; [done|].
  apply climb_parent in Hn as (e & He & Hkids). by apply Hkids, (Hvoid n).
Qed.

(** The listeners a click runs assign no variable of the script but
    [current]. *)
Lemma click_at_script n q :
  set_current None (click_at rt n q).1 = set_current None q.1.
Proof.
  unfold click_at.
  apply (forEach_invariant
           (λ q' : Script * Browser,
              set_current None q'.1 = set_current None q.1)).
  - by case_bool_decide.
  - intros _ q' _ Hq'. unfold on_img_click, pause_all. cbn [fst].
    by rewrite <- Hq'.
Qed.

Lemma click_path_script l q :
  set_current None (forEach l (click_at rt) q).1 = set_current None q.1.
Proof.
  apply (forEach_invariant
           (λ q' : Script * Browser,
              set_current None q'.1 = set_current None q.1)); [done|].
  intros n q' _ Hq'. by rewrite click_at_script.
Qed.

Lemma same_but_current_btn s s' :
  set_current None s' = set_current None s → btn s' = btn s.
Proof. intros H. by apply (f_equal btn) in H. Qed.

Lemma same_but_current_imgBound s s' :
  set_current None s' = set_current None s → imgBound s' = imgBound s.
Proof. intros H. by apply (f_equal imgBound) in H. Qed.

(** On a node that is neither the send button nor a bound image a
    click finds no listener of the script. *)
Lemma click_at_none n p :
  btn p.1 ≠ Some n → n ∉ imgBound p.1 → click_at rt n p = p.
Proof.
  intros Hb Hi. unfold click_at. rewrite bool_decide_eq_false_2 by done.
  by rewrite (filter_absent n _ Hi).
Qed.

Lemma click_at_send n p :
  btn p.1 = Some n → n ∉ imgBound p.1 →
  click_at rt n p = (p.1, listener (on_send_click rt p.1) p.2).
Proof.
  intros Hb Hi. unfold click_at. rewrite bool_decide_eq_true_2 by done.
  cbn [fst snd]. by rewrite (filter_absent n _ Hi).
Qed.

(** A click whose path holds no bound image runs the send listener
    once if the send button is on the path, and nothing otherwise. *)
Lemma click_along (l : list NodeId) s b :
  NoDup l → (∀ n, n ∈ l → n ∉ imgBound s) →
  forEach l (click_at rt) (s, b)
  = if on_path (btn s) l then (s, listener (on_send_click rt s) b) else (s, b).
Proof.
  intros Hnd. revert b. induction Hnd as [|n l Hn Hnd IH]; intros b Hclear.
  { unfold on_path. destruct (btn s); [|done].
    rewrite bool_decide_eq_false_2; [done | apply not_elem_of_nil]. }
  rewrite forEach_cons. destruct (decide (btn s = Some n)) as [Hb|Hb].
  - rewrite (click_at_send n (s, b)) by (done || apply Hclear; left). cbn [fst snd].
    rewrite IH by (intros x Hx; apply Hclear; by right).
    unfold on_path. rewrite Hb.
    rewrite bool_decide_eq_false_2 by done.
    rewrite bool_decide_eq_true_2; [done | left].
  - rewrite (click_at_none n (s, b)) by (done || apply Hclear; left).
    rewrite IH by (intros x Hx; apply Hclear; by right).
    unfold on_path. destruct (btn s) as [sb|]; [|done].
    assert (Hne : sb ≠ n) by congruence.
    rewrite (bool_decide_ext (sb ∈ n :: l) (sb ∈ l)); [done|].
    rewrite elem_of_cons. tauto.
Qed.

Lemma dispatch_click_clear t s b :
  clear_of_images s (heap b) t →
  dispatch_click rt t (s, b)
  = if on_path (btn s) (event_path (heap b) t)
    then (s, listener (on_send_click rt s) b) else (s, b).
Proof.
  intros Hclear. unfold dispatch_click. cbn [fst snd].
  apply click_along; [apply event_path_NoDup | exact Hclear].
Qed.

Lemma dispatch_click_button t s b :
  btn s = Some t → clear_of_images s (heap b) t →
  dispatch_click rt t (s, b) = (s, listener (on_send_click rt s) b).
Proof.
  intros Hb Hclear. rewrite dispatch_click_clear by done.
  unfold on_path. rewrite Hb.
  rewrite bool_decide_eq_true_2; [done | apply target_in_path].
Qed.

(** C5: with ["  hello  "] in the chat input, a click on the send
    control runs its click listener, which emits [send_message] with
    the page's recipient and the content ["hello"], appends a
    [from-me] message with that text to the chat container, scrolls
    the container to the bottom and clears the input. *)
Theorem send_hello (s : Script) (b : Browser) (t i m : NodeId) :
  btn s = Some t →
  clear_of_images s (heap b) t →
  input s = Some i →
  messagesDiv s = Some m →
  value_of (heap b) i = Some "  hello  " →
  is_Some (heap b !! m) →
  i ≠ m →
  let d := fresh (dom (heap b)) in
  let appended := with_child m d (message_element "message from-me" "hello") (heap b) in
  (0 ≤ clientHeight rt appended m)%Z →
  ∃ b', dispatch rt (Click t) (s, b) = (s, b')
    ∧ on_send_click rt s b = (Normal tt, b')
    ∧ emitted b' = (emitted b ++ [SendMessage (chat_user rt) "hello"])%list
    ∧ heap b' !! d = Some (message_element "message from-me" "hello")
    ∧ children_of (heap b') m = (children_of (heap b) m ++ [ChildElement d])%list
    ∧ scrollTop <$> heap b' !! m = Some (max_scroll rt appended m)
    ∧ value_of (heap b') i = Some ""
    ∧ uncaught b' = uncaught b.
Proof.
  intros Hb Himg Hi Hm Hv [me Hme] Hne d appended Hclient.
  assert (Hdm : d ≠ m) by (apply fresh_not_in_heap; eauto).
  assert (Hdi : d ≠ i).
  { apply fresh_not_in_heap. unfold value_of in Hv.
    destruct (heap b !! i); [eauto | done]. }
  assert (Hrun : ∃ b', on_send_click rt s b = (Normal tt, b')
            ∧ emitted b' = (emitted b ++ [SendMessage (chat_user rt) "hello"])%list
            ∧ heap b' !! d = Some (message_element "message from-me" "hello")
            ∧ children_of (heap b') m
              = (children_of (heap b) m ++ [ChildElement d])%list
            ∧ scrollTop <$> heap b' !! m = Some (max_scroll rt appended m)
            ∧ value_of (heap b') i = Some ""
            ∧ uncaught b' = uncaught b).
  { unfold on_send_click. rewrite Hi, Hm. cbn [deref].
    unfold bind at 1. cbn [ret].
    unfold get_value, bind at 1. unfold bind at 1. unfold gets at 1.
    unfold value_of in Hv. rewrite Hv. cbn [deref ret].
    rewrite trim_hello. cbn [bool_decide].
    eexists. split; [reflexivity|].
    cbn -[fresh alter insert max_scroll]. fold d.
    rewrite !alter_insert_eq.
    change (alter _ m (<[d:=_]> (heap b))) with appended.
    assert (Hm' : appended !! m
                  = Some (set_childNodes (childNodes me ++ [ChildElement d]) me)).
    { unfold appended, with_child.
      by rewrite lookup_alter_eq, lookup_insert_ne, Hme. }
    assert (Hd' : appended !! d = Some (message_element "message from-me" "hello")).
    { unfold appended, with_child.
      by rewrite lookup_alter_ne, lookup_insert_eq. }
    assert (Hi' : appended !! i = heap b !! i).
    { unfold appended, with_child.
      by rewrite lookup_alter_ne, lookup_insert_ne. }
    repeat split.
    - by rewrite !lookup_alter_ne, Hd'.
    - unfold children_of.
      by rewrite lookup_alter_ne, lookup_alter_eq, Hm', Hme.
    - rewrite lookup_alter_ne, lookup_alter_eq, Hm' by done. cbn.
      unfold max_scroll. do 2 f_equal. lia.
    - unfold value_of. rewrite lookup_alter_eq, lookup_alter_ne, Hi' by done.
      destruct (heap b !! i); [done | discriminate]. }
  destruct Hrun as (b' & Hrun & Hrest). exists b'. split; [|by split].
  cbn [dispatch]. rewrite dispatch_click_button by done.
  unfold listener. by rewrite Hrun.
Qed.

(** *** Blank input *)


Lemma on_send_click_blank s b i v :
  input s = Some i → value_of (heap b) i = Some v → trim v = "" →
  on_send_click rt s b = (Normal tt, b).
Proof.
  intros Hi Hv Ht. unfold on_send_click. rewrite Hi. cbn [deref].
  unfold bind at 1. cbn [ret].
  unfold get_value, bind at 1. unfold bind at 1, gets at 1.
  unfold value_of in Hv. rewrite Hv. cbn [deref ret]. by rewrite Ht.
Qed.

Lemma on_submit_blank b form i v :
  querySelector_in (heap b) form [TagSel "input"; AttrSel "name" "comment"] = Some i →
  value_of (heap b) i = Some v → trim v = "" →
  on_submit form b = (Normal tt, b).
Proof.
  intros Hq Hv Ht. unfold on_submit.
  unfold bind at 1, gets at 1. rewrite Hq. cbn [deref].
  unfold bind at 1. cbn [ret].
  unfold get_value, bind at 1. unfold bind at 1, gets at 1.
  unfold value_of in Hv. rewrite Hv. cbn [deref ret]. by rewrite Ht.
Qed.

Lemma value_of_alter_paused q v h n :
  value_of (alter (set_paused q) v h) n = value_of h n.
Proof.
  unfold value_of. destruct (decide (v = n)) as [->|Hne].
  - rewrite lookup_alter_eq. by destruct (h !! n).
  - by rewrite lookup_alter_ne.
Qed.

Lemma pause_all_value p n : value_of (heap (pause_all p).2) n = value_of (heap p.2) n.
Proof.
  unfold pause_all. cbn [snd].
  apply (forEach_invariant (λ b, value_of (heap b) n = value_of (heap p.2) n)); [done|].
  intros v b _ <-. apply value_of_alter_paused.
Qed.




(** *** Inbound messages *)

Lemma render_message_rendered c cls text b :
  is_Some (heap b !! c) →
  ∃ b', render_message rt c cls text b = (Normal tt, b')
    ∧ rendered_into c cls text b b'.
Proof.
  intros [ce Hc].
  assert (Hd : fresh (dom (heap b)) ≠ c) by (apply fresh_not_in_heap; eauto).
  eexists. split; [reflexivity|].
  unfold rendered_into. cbn -[fresh alter insert].
  rewrite !alter_insert_eq. split.
  - by rewrite !lookup_alter_ne, lookup_insert_eq.
  - unfold children_of.
    by rewrite !lookup_alter_eq, lookup_insert_ne, Hc.
Qed.

Lemma rendered_into_changes c cls text b : ¬ rendered_into c cls text b b.
Proof.
  intros [_ H]. apply (f_equal length) in H. rewrite length_app in H.
  cbn in H. lia.
Qed.

Lemma rendered_into_class c cls cls' text b b' :
  rendered_into c cls text b b' → rendered_into c cls' text b b' → cls' = cls.
Proof.
  intros [H _] [H' _]. rewrite H in H'. by injection H'.
Qed.

Lemma concerns_spec s data :
  concerns s data = true
  ↔ currentUsername s = Some (message_sender data)
    ∨ currentUsername s = Some (message_recipient data).
Proof.
  unfold concerns. rewrite orb_true_iff, !bool_decide_eq_true.
  split; (intros [H|H]; [right | left]; done).
Qed.

(** C2: with a chat container in the page, a [new_message] payload is
    rendered into it if and only if the local username is the
    payload's sender or its recipient; the rendered element carries
    the class [from-me] exactly when the sender is the local username,
    and [from-other] exactly when it is not. *)
Theorem new_message_rendering (s : Script) (data : NewMessage) (b : Browser)
    (c : NodeId) :
  getElementById b "messages" = Some c →
  ∃ b', dispatch rt (SocketNewMessage data) (s, b) = (s, b')
    ∧ ((∃ cls, rendered_into c cls (message_content data) b b')
       ↔ currentUsername s = Some (message_sender data)
         ∨ currentUsername s = Some (message_recipient data))
    ∧ (∀ cls, rendered_into c cls (message_content data) b b' →
         ("from-me" ∈ class_tokens cls
            ↔ currentUsername s = Some (message_sender data))
         ∧ ("from-other" ∈ class_tokens cls
            ↔ currentUsername s ≠ Some (message_sender data))).
Proof.
  intros Hget.
  assert (Hspec : ∃ b', on_new_message rt s data b = (Normal tt, b')
            ∧ ((∃ cls, rendered_into c cls (message_content data) b b')
               ↔ currentUsername s = Some (message_sender data)
                 ∨ currentUsername s = Some (message_recipient data))
            ∧ (∀ cls, rendered_into c cls (message_content data) b b' →
                 ("from-me" ∈ class_tokens cls
                    ↔ currentUsername s = Some (message_sender data))
                 ∧ ("from-other" ∈ class_tokens cls
                    ↔ currentUsername s ≠ Some (message_sender data)))).
  {
    pose proof (getElementById_is_Some _ _ _ Hget) as Hc.
    unfold on_new_message, bind at 1, gets at 1. rewrite Hget.
    destruct (concerns s data) eqn:Hcon.
    - destruct (render_message_rendered c (message_class s data)
                  (message_content data) b Hc) as (b' & -> & Hr).
      exists b'. split; [done|]. split.
      + split; [intros _; exact (proj1 (concerns_spec s data) Hcon) | eauto].
      + intros cls Hcls.
        rewrite (rendered_into_class _ _ _ _ _ _ Hr Hcls).
        unfold message_class. case_bool_decide as Hs.
        * change (class_tokens "message from-me") with ["message"; "from-me"].
          rewrite !elem_of_cons, !elem_of_nil. split; split; try done.
          -- intros _. right. by left.
          -- intros [|[|[]]]; discriminate.
        * change (class_tokens "message from-other") with ["message"; "from-other"].
          rewrite !elem_of_cons, !elem_of_nil. split; split; try done.
          -- intros [|[|[]]]; discriminate.
          -- intros _. right. by left.
    - exists b. split; [done|]. split.
      + split.
        * intros [cls Hr]. by apply rendered_into_changes in Hr.
        * intros H. apply (proj2 (concerns_spec s data)) in H. congruence.
      + intros cls Hr. by apply rendered_into_changes in Hr.
  }
  destruct Hspec as (b' & Hrun & Hrest).
  exists b'. split; [|done].
  cbn [dispatch fst snd]. unfold listener. by rewrite Hrun.
Qed.

(** *** Queries see the skeleton of the heap only *)

Lemma same_skeleton_lookup h h' id e :
  same_skeleton h h' → h !! id = Some e →
  ∃ e', h' !! id = Some e' ∧ skeleton e' = skeleton e.
Proof.
  intros Hs He. specialize (Hs id). rewrite He in Hs.
  destruct (h' !! id) as [e'|]; [|done]. exists e'. split; [done|].
  cbn in Hs. congruence.
Qed.

Lemma same_skeleton_None h h' id :
  same_skeleton h h' → h !! id = None → h' !! id = None.
Proof.
  intros Hs He. specialize (Hs id). rewrite He in Hs.
  by destruct (h' !! id).
Qed.

Lemma walk_skeleton fuel h h' anc id :
  same_skeleton h h' → walk fuel h anc id = walk fuel h' anc id.
Proof.
  intros Hs. revert anc id. induction fuel as [|fuel IH]; intros anc id; [done|].
  cbn. destruct (h !! id) as [e|] eqn:He.
  - destruct (same_skeleton_lookup _ _ _ _ Hs He) as (e' & -> & Hsk).
    assert (child_elements e' = child_elements e) as ->.
    { unfold skeleton in Hsk. congruence. }
    f_equal. apply flat_map_ext. intros a. apply IH.
  - by rewrite (same_skeleton_None _ _ _ Hs He).
Qed.

Lemma matches_simple_skeleton e e' x :
  skeleton e' = skeleton e → matches_simple e' x = matches_simple e x.
Proof.
  unfold skeleton. intros [= Ht Hc Ha _]. unfold matches_simple.
  by rewrite Ht, Hc, Ha.
Qed.

Lemma matches_skeleton h h' sel id :
  same_skeleton h h' → matches h sel id = matches h' sel id.
Proof.
  intros Hs. unfold matches. destruct (h !! id) as [e|] eqn:He.
  - destruct (same_skeleton_lookup _ _ _ _ Hs He) as (e' & -> & Hsk).
    induction sel as [|x sel IH]; [done|]. cbn.
    by rewrite IH, (matches_simple_skeleton e e' x Hsk).
  - by rewrite (same_skeleton_None _ _ _ Hs He).
Qed.

Lemma same_skeleton_size h h' : same_skeleton h h' → size h = size h'.
Proof.
  intros Hs. rewrite <- !size_dom. f_equal. apply set_eq. intros id.
  rewrite !elem_of_dom. specialize (Hs id).
  destruct (h !! id), (h' !! id); try done; split; intros [? ?]; done.
Qed.

Lemma querySelector_in_skeleton h h' el sel :
  same_skeleton h h' → querySelector_in h el sel = querySelector_in h' el sel.
Proof.
  intros Hs. unfold querySelector_in, descendants, subtree, first_match.
  rewrite (same_skeleton_size _ _ Hs), (walk_skeleton _ _ _ _ _ Hs).
  f_equal. generalize (tail (walk (S (size h')) h' [] el)).
  intros l. induction l as [|n l IH]; [done|]. cbn.
  by rewrite IH, (matches_skeleton _ _ _ _ Hs).
Qed.

(** Replacing the children of an element that has no element child by
    text leaves the skeleton alone. *)
Lemma set_text_skeleton h c s :
  (∀ e, h !! c = Some e → child_elements e = []) →
  same_skeleton h (alter (set_childNodes (text_children s)) c h).
Proof.
  intros Hc id. destruct (decide (c = id)) as [<-|Hne].
  - rewrite lookup_alter_eq. destruct (h !! c) as [e|] eqn:He; [|done].
    cbn. unfold skeleton. cbn. rewrite (Hc e eq_refl).
    do 2 f_equal. unfold child_elements, text_children. cbn.
    by case_bool_decide.
  - by rewrite lookup_alter_ne.
Qed.

(** *** Numbers as text: what [parseInt] reads back *)

Lemma decimal_cases c :
  is_decimal c = true →
  c ∈ ["0"; "1"; "2"; "3"; "4"; "5"; "6"; "7"; "8"; "9"]%char.
Proof.
  destruct c as [[] [] [] [] [] [] [] []]; intros H;
    try (vm_compute in H; discriminate H);
    apply (bool_decide_unpack _); vm_compute; exact I.
Qed.

Lemma decimal_digit_value c :
  is_decimal c = true → digit_value 10 c = Some (code c - 48)%Z.
Proof.
  unfold is_decimal, digit_value. intros H. rewrite H.
  apply andb_true_iff in H as [H1 H2]. apply Z.leb_le in H1, H2.
  by rewrite (proj2 (Z.ltb_lt _ _)) by lia.
Qed.

Lemma pretty_N_char_decimal m :
  (m < 10)%N →
  is_decimal (pretty_N_char m) = true ∧ (code (pretty_N_char m) - 48 = Z.of_N m)%Z.
Proof.
  intros Hm.
  assert (m = 0 ∨ m = 1 ∨ m = 2 ∨ m = 3 ∨ m = 4 ∨ m = 5 ∨ m = 6 ∨ m = 7
          ∨ m = 8 ∨ m = 9)%N as Hcases by lia.
  repeat (destruct Hcases as [-> | Hcases]; [by vm_compute|]). subst. by vm_compute.
Qed.

Lemma all_decimal_app s1 s2 :
  all_decimal (s1 +:+ s2) = all_decimal s1 && all_decimal s2.
Proof.
  induction s1 as [|c s1 IH]; [done|].
  change (String c s1 +:+ s2) with (String c (s1 +:+ s2)).
  cbn [all_decimal]. by rewrite IH, andb_assoc.
Qed.

Lemma digits_prefix_app s1 s2 acc :
  all_decimal s1 = true →
  digits_prefix 10 (s1 +:+ s2) acc = digits_prefix 10 s2 (digits_prefix 10 s1 acc).
Proof.
  revert acc. induction s1 as [|c s1 IH]; intros acc H; [done|].
  cbn in H. apply andb_true_iff in H as [Hc H].
  change (String c s1 +:+ s2) with (String c (s1 +:+ s2)).
  cbn [digits_prefix]. rewrite (decimal_digit_value c Hc). by apply IH.
Qed.

Lemma string_append_assoc (s1 s2 s3 : string) :
  (s1 +:+ s2) +:+ s3 = s1 +:+ (s2 +:+ s3).
Proof.
  induction s1 as [|c s1 IH]; [done|].
  change (String c s1 +:+ ?s) with (String c (s1 +:+ s)).
  change (String c (s1 +:+ s2) +:+ s3) with (String c ((s1 +:+ s2) +:+ s3)).
  by rewrite IH.
Qed.

Lemma pretty_N_go_app x s : pretty_N_go x s = pretty_N_go x "" +:+ s.
Proof.
  revert s. induction (N.lt_wf_0 x) as [x _ IH]; intros s.
  assert (x = 0 ∨ 0 < x)%N as [->|Hx] by lia; [done|].
  rewrite !(pretty_N_go_step x) by done.
  assert (Hlt : (x `div` 10 < x)%N) by (by apply N.div_lt).
  rewrite (IH _ Hlt (String _ s)), (IH _ Hlt (String _ "")).
  by rewrite string_append_assoc.
Qed.

(** The digits [pretty] writes are read back as the number. *)
Lemma pretty_N_go_digits x :
  all_decimal (pretty_N_go x "") = true
  ∧ digits_prefix 10 (pretty_N_go x "") None
    = if decide (x = 0)%N then None else Some (Z.of_N x).
Proof.
  induction (N.lt_wf_0 x) as [x _ IH].
  assert (x = 0 ∨ 0 < x)%N as [->|Hx] by lia; [done|].
  rewrite pretty_N_go_step, pretty_N_go_app by done.
  destruct (IH (x `div` 10)%N) as [IH1 IH2]; [by apply N.div_lt|].
  destruct (pretty_N_char_decimal (x `mod` 10)%N) as [Hd Hv];
    [by apply N.mod_lt|].
  split.
  - rewrite all_decimal_app, IH1. cbn. by rewrite Hd.
  - rewrite digits_prefix_app, IH2 by done. cbn [digits_prefix].
    rewrite (decimal_digit_value _ Hd), Hv.
    rewrite (decide_False (P := (x = 0)%N)) by lia. f_equal.
    assert (Hdiv : (x = 10 * (x `div` 10) + x `mod` 10)%N) by (by apply N.div_mod).
    destruct (decide (x `div` 10 = 0)%N) as [H0|H0]; cbn; lia.
Qed.

Lemma decimal_not_space c : is_decimal c = true → is_white_space c = false.
Proof.
  intros H%decimal_cases. apply bool_decide_eq_false.
  repeat (apply elem_of_cons in H as [-> | H];
          [intros Hin; apply (bool_decide_pack _) in Hin; vm_compute in Hin; exact Hin|]).
  by apply elem_of_nil in H.
Qed.

(** A string of digits has no [0x] prefix. *)
Lemma radix_decimal s :
  all_decimal s = true →
  match s with
  | String "0"%char (String "x"%char r) => (16%Z, r)
  | String "0"%char (String "X"%char r) => (16%Z, r)
  | _ => (10%Z, s)
  end = (10%Z, s).
Proof.
  destruct s as [|c1 [|c2 s]]; intros H; [done| |].
  - destruct c1 as [[] [] [] [] [] [] [] []]; done.
  - cbn in H. apply andb_true_iff in H as [_ [H2 _]%andb_true_iff].
    apply decimal_cases in H2.
    repeat (apply elem_of_cons in H2 as [-> | H2];
            [destruct c1 as [[] [] [] [] [] [] [] []]; done|]).
    by apply elem_of_nil in H2.
Qed.

Lemma parseInt_decimal s :
  all_decimal s = true →
  parseInt s = match digits_prefix 10 s None with
               | Some m => Num m
               | None => NaN
               end.
Proof.
  intros H. destruct s as [|c s]; [done|].
  pose proof H as Hc. cbn in Hc. apply andb_true_iff in Hc as [Hc _].
  unfold parseInt. cbn [trimStart]. rewrite (decimal_not_space c Hc).
  pose proof (radix_decimal (String c s) H) as Hradix.
  apply decimal_cases in Hc.
  repeat (apply elem_of_cons in Hc as [-> | Hc];
          [cbv beta iota zeta; cbv beta iota zeta in Hradix;
           first [done | by rewrite Hradix]|]).
  by apply elem_of_nil in Hc.
Qed.

Lemma parseInt_pretty (z : Z) : parseInt (pretty z) = Num z.
Proof.
  destruct z as [|p|p].
  - done.
  - change (pretty (Z.pos p)) with (pretty (N.pos p)). unfold pretty, pretty_N.
    rewrite decide_False by done.
    destruct (pretty_N_go_digits (N.pos p)) as [H1 H2].
    rewrite parseInt_decimal, H2 by done. by rewrite decide_False.
  - change (pretty (Z.neg p)) with ("-" +:+ pretty (N.pos p)). unfold pretty, pretty_N.
    rewrite decide_False by done.
    destruct (pretty_N_go_digits (N.pos p)) as [H1 H2].
    change ("-" +:+ ?s) with (String "-" s).
    unfold parseInt. cbn [trimStart].
    change (is_white_space "-") with false. cbv beta iota zeta.
    rewrite (radix_decimal _ H1), H2. by rewrite decide_False.
Qed.

Lemma pretty_Z_not_empty (z : Z) : pretty z ≠ "".
Proof.
  intros H. pose proof (parseInt_pretty z) as Hp. rewrite H in Hp. discriminate Hp.
Qed.

Lemma counter_value_pretty (z : Z) : counter_value (pretty z) = Num z.
Proof.
  unfold counter_value. rewrite bool_decide_eq_false_2 by apply pretty_Z_not_empty.
  apply parseInt_pretty.
Qed.

(** *** Markup in the heap *)

Lemma Markup_ind (P : Markup → Prop) :
  (∀ t, P (MarkupText t)) →
  (∀ tag cls attrs val kids, Forall P kids → P (MarkupElement tag cls attrs val kids)) →
  ∀ m, P m.
Proof.
  intros Ht He. fix IH 1. intros [t | tag cls attrs val kids]; [apply Ht|].
  apply He. induction kids as [|k kids IHk]; constructor; [apply IH | apply IHk].
Qed.

Lemma build_element tag cls attrs val kids h :
  build (MarkupElement tag cls attrs val kids) h
  = let id := fresh (dom h) in
    let r := build_all kids (<[id := mkElement tag cls attrs val [] 0 true]> h) in
    (ChildElement id, alter (set_childNodes r.1) id r.2).
Proof.
  cbn [build]. cbn zeta.
  generalize (<[fresh (dom h) := mkElement tag cls attrs val [] 0 true]> h).
  intros h1.
  assert (H : ∀ h0,
            (fix build_kids (ms : list Markup) (h : gmap nat Element)
               : list Child * gmap nat Element :=
               match ms with
               | [] => ([], h)
               | m' :: ms' =>
                   let r1 := build m' h in
                   let r2 := build_kids ms' r1.2 in
                   (r1.1 :: r2.1, r2.2)
               end) kids h0 = build_all kids h0).
  { induction kids as [|k kids IH]; intros h0; [done|].
    cbn zeta. cbn [build_all]. cbn zeta. by rewrite IH. }
  by rewrite H.
Qed.

Lemma build_all_safe ms :
  Forall build_safe ms →
  ∀ h, (∀ n, is_Some (h !! n) → (build_all ms h).2 !! n = h !! n)
       ∧ (∀ n, h !! n = None → is_paused (build_all ms h).2 n = true).
Proof.
  induction 1 as [|m ms Hm Hms IH]; intros h.
  { split; [done|]. intros n Hn. unfold is_paused. cbn. by rewrite Hn. }
  cbn [build_all]. cbn zeta. cbn [fst snd].
  destruct (Hm h) as [Hf1 Hp1]. destruct (IH (build m h).2) as [Hf2 Hp2].
  split.
  - intros n Hn. rewrite Hf2 by by rewrite Hf1. by apply Hf1.
  - intros n Hn. destruct ((build m h).2 !! n) as [e|] eqn:He.
    + unfold is_paused. rewrite Hf2 by by rewrite He.
      apply Hp1. exact Hn.
    + by apply Hp2.
Qed.

Lemma build_is_safe m : build_safe m.
Proof.
  induction m as [t | tag cls attrs val kids IH] using Markup_ind; intros h.
  { split; [done|]. intros n Hn. unfold is_paused. cbn. by rewrite Hn. }
  rewrite build_element. cbn zeta. cbn [fst snd].
  set (id := fresh (dom h)).
  set (h1 := <[id := mkElement tag cls attrs val [] 0 true]> h).
  destruct (build_all_safe kids IH h1) as [Hf Hp].
  assert (Hid : (build_all kids h1).2 !! id
                = Some (mkElement tag cls attrs val [] 0 true)).
  { rewrite Hf; unfold h1; by rewrite lookup_insert_eq. }
  split.
  - intros n Hn. assert (Hne : id ≠ n) by by apply fresh_not_in_heap.
    rewrite lookup_alter_ne by done.
    rewrite Hf; unfold h1; by rewrite lookup_insert_ne.
  - intros n Hn. unfold is_paused. destruct (decide (id = n)) as [<-|Hne].
    + by rewrite lookup_alter_eq, Hid.
    + rewrite lookup_alter_ne by done. apply Hp.
      unfold h1. by rewrite lookup_insert_ne.
Qed.

Lemma build_all_frame ms h n :
  is_Some (h !! n) → (build_all ms h).2 !! n = h !! n.
Proof.
  apply build_all_safe. apply Forall_forall. intros m _. apply build_is_safe.
Qed.

Lemma build_all_paused ms h n :
  h !! n = None → is_paused (build_all ms h).2 n = true.
Proof.
  apply build_all_safe. apply Forall_forall. intros m _. apply build_is_safe.
Qed.

Lemma build_frame m h n : is_Some (h !! n) → (build m h).2 !! n = h !! n.
Proof. apply build_is_safe. Qed.

Lemma build_all_shapes ms :
  Forall build_shapes ms →
  ∀ h h',
    (∀ n, h !! n = None → is_Some ((build_all ms h).2 !! n) →
          h' !! n = (build_all ms h).2 !! n) →
    Forall2 (shaped h') (build_all ms h).1 ms.
Proof.
  induction 1 as [|m ms Hm Hms IH]; intros h h' Hagree; [constructor|].
  cbn [build_all] in *. cbn zeta in *. cbn [fst snd] in *.
  constructor.
  - apply Hm. intros n Hn Hin.
    rewrite <- (build_all_frame ms (build m h).2 n Hin).
    apply Hagree; [done|]. by rewrite build_all_frame.
  - apply IH. intros n Hn Hin. apply Hagree; [|done].
    destruct (h !! n) as [e|] eqn:He; [|done].
    rewrite build_frame in Hn by by rewrite He. congruence.
Qed.

Lemma build_does_shape m : build_shapes m.
Proof.
  induction m as [t | tag cls attrs val kids IH] using Markup_ind; intros h h' Hagree.
  { constructor. }
  revert Hagree. rewrite build_element. cbn zeta. cbn [fst snd].
  set (id := fresh (dom h)).
  set (h1 := <[id := mkElement tag cls attrs val [] 0 true]> h).
  set (r := build_all kids h1).
  intros Hagree.
  assert (Hnew : h !! id = None) by (apply not_elem_of_dom, is_fresh).
  assert (Hid : r.2 !! id = Some (mkElement tag cls attrs val [] 0 true)).
  { unfold r. rewrite build_all_frame; unfold h1; by rewrite lookup_insert_eq. }
  assert (Hid' : h' !! id
                 = Some (set_childNodes r.1 (mkElement tag cls attrs val [] 0 true))).
  { rewrite Hagree; [|done|]; by rewrite lookup_alter_eq, Hid. }
  apply (shaped_element h' id _ tag cls attrs val kids Hid'); try done.
  cbn [childNodes set_childNodes].
  apply (build_all_shapes kids IH h1). fold r. intros n Hn Hin.
  assert (Hne : id ≠ n).
  { intros <-. unfold h1 in Hn. by rewrite lookup_insert_eq in Hn. }
  rewrite Hagree.
  - by rewrite lookup_alter_ne.
  - unfold h1 in Hn. by rewrite lookup_insert_ne in Hn.
  - by rewrite lookup_alter_ne.
Qed.

Lemma build_all_shaped ms h h' :
  (∀ n, h !! n = None → is_Some ((build_all ms h).2 !! n) →
        h' !! n = (build_all ms h).2 !! n) →
  Forall2 (shaped h') (build_all ms h).1 ms.
Proof.
  apply build_all_shapes. apply Forall_forall. intros m _. apply build_does_shape.
Qed.

(** *** The markup of a comment *)

Lemma plain_prefix_stop c r :
  is_plain c = false → plain_prefix (String c r) = ("", String c r).
Proof. intros H. cbn [plain_prefix]. by rewrite H. Qed.

Lemma plain_prefix_all u : all_plain u = true → plain_prefix u = (u, "").
Proof.
  induction u as [|c u IH]; intros H; [done|].
  cbn in H. apply andb_true_iff in H as [Hc Hu].
  cbn [plain_prefix]. by rewrite Hc, IH.
Qed.

Lemma plain_prefix_until u c r :
  all_plain u = true → is_plain c = false →
  plain_prefix (u +:+ String c r) = (u, String c r).
Proof.
  intros Hu Hc. induction u as [|a u IH].
  - by apply plain_prefix_stop.
  - cbn in Hu. apply andb_true_iff in Hu as [Ha Hu].
    change (String a u +:+ ?x) with (String a (u +:+ x)).
    cbn [plain_prefix]. by rewrite Ha, IH.
Qed.

Lemma strip_prefix_app pre s : strip_prefix pre (pre +:+ s) = Some s.
Proof.
  induction pre as [|a pre IH]; [by destruct s|].
  change (String a pre +:+ s) with (String a (pre +:+ s)).
  cbn [strip_prefix]. by rewrite bool_decide_eq_true_2.
Qed.

Lemma all_plain_app u v : all_plain (u +:+ v) = all_plain u && all_plain v.
Proof.
  induction u as [|a u IH]; [done|].
  change (String a u +:+ v) with (String a (u +:+ v)).
  cbn [all_plain]. by rewrite IH, andb_assoc.
Qed.

(** From plain text the template of the script gives one element,
    [strong] around the username, and the text that follows it. *)
Lemma parsed_comment u c :
  all_plain u = true → all_plain c = true →
  parsed rt ("<strong>" +:+ u +:+ "</strong>: " +:+ c)
  = [MarkupElement "strong" "" [] None (markup_text u); MarkupText (": " +:+ c)].
Proof.
  intros Hu Hc. unfold parsed.
  change ("<strong>" +:+ u +:+ "</strong>: " +:+ c)
    with (String "<" ("strong>" +:+ u +:+ "</strong>: " +:+ c)).
  cbn [String.length]. set (f := String.length _).
  assert (Hlt : is_plain "<" = false) by by vm_compute.
  cbn [parse_flat]. rewrite (plain_prefix_stop "<") by done. cbn [fst snd].
  change (markup_text "") with (@nil Markup).
  rewrite bool_decide_eq_false_2 by done.
  change (String "<" ("strong>" +:+ u +:+ "</strong>: " +:+ c))
    with ("<strong>" +:+ (u +:+ "</strong>: " +:+ c)).
  assert (Hopen : ∀ x, open_tag flat_tags ("<strong>" +:+ x) = Some ("strong", x)).
  { intros x. cbn [open_tag flat_tags].
    change ("<" +:+ "strong" +:+ ">") with "<strong>".
    by rewrite strip_prefix_app. }
  rewrite Hopen.
  change (u +:+ "</strong>: " +:+ c) with (u +:+ String "<" ("/strong>: " +:+ c)).
  rewrite (plain_prefix_until u "<") by done. cbn [fst snd].
  change (String "<" ("/strong>: " +:+ c)) with ("</strong>" +:+ (": " +:+ c)).
  change ("</" +:+ "strong" +:+ ">") with "</strong>".
  rewrite strip_prefix_app.
  assert (Htail : all_plain (": " +:+ c) = true).
  { rewrite all_plain_app, Hc. by vm_compute. }
  rewrite (plain_prefix_all _ Htail).
  cbn [fst snd]. rewrite bool_decide_eq_true_2 by done.
  assert (Htext : markup_text (": " +:+ c) = [MarkupText (": " +:+ c)]).
  { unfold markup_text. rewrite bool_decide_eq_false_2; [done|].
    change (": " +:+ c) with (String ":" (" " +:+ c)). discriminate. }
  by rewrite Htext.
Qed.

Lemma build_all_markup_text u h : build_all (markup_text u) h = (text_children u, h).
Proof. unfold markup_text, text_children. by case_bool_decide. Qed.

(** The nodes built from the parsed template of a plain comment. *)
Lemma build_all_comment u t h :
  let st := fresh (dom h) in
  build_all [MarkupElement "strong" "" [] None (markup_text u); MarkupText t] h
  = ([ChildElement st; ChildText t],
     <[st := mkElement "strong" "" [] None (text_children u) 0 true]> h).
Proof.
  intros st. cbn [build_all]. rewrite build_element. cbn zeta.
  rewrite build_all_markup_text. cbn [fst snd build]. fold st.
  by rewrite alter_insert_eq.
Qed.

Lemma heap_not_empty (h : gmap nat Element) n : is_Some (h !! n) → ∃ k, size h = S k.
Proof.
  intros [e He]. destruct (size h) as [|k] eqn:Hs; [|eauto].
  apply map_size_empty_inv in Hs. subst. by rewrite lookup_empty in He.
Qed.

(** *** Inbound comments *)

Lemma text_of_text_children fuel h c e s :
  h !! c = Some e → childNodes e = text_children s → text_of (S fuel) h c = s.
Proof.
  intros He Hch. cbn. rewrite He, Hch. unfold text_children.
  case_bool_decide as Hs; cbn; [by subst | done].
Qed.

Lemma exact_succ_exact_int n : exact_succ n = true → exact_int (n + 1) = true.
Proof.
  unfold exact_succ, exact_int. rewrite !andb_true_iff.
  rewrite !Z.leb_le, Z.ltb_lt. lia.
Qed.

Lemma counter_value_displays text n : displays text n → counter_value text = Num n.
Proof.
  intros [-> | [-> ->]]; [apply counter_value_pretty | done].
Qed.

Lemma text_of_plain fuel h st e u :
  h !! st = Some e → Forall2 (shaped h) (childNodes e) (markup_text u) →
  text_of (S fuel) h st = u.
Proof.
  intros He Hkids. cbn [text_of]. rewrite He. unfold markup_text in Hkids.
  case_bool_decide as Hu.
  - inversion Hkids as [Hnil|]. by subst.
  - destruct (childNodes e) as [|x [|x' xs]]; inversion Hkids as [|? ? ? ? Hx Hxs];
      subst; [|inversion Hxs].
    by inversion Hx.
Qed.

(** What [append_comment] does to the heap: one new [li] at the end
    of the list, holding what the parser makes of the markup. *)
Lemma append_comment_spec l data b le :
  heap b !! l = Some le →
  let li := fresh (dom (heap b)) in
  ∃ b', append_comment rt l data b = (Normal tt, b')
    ∧ heap b' !! l = Some (set_childNodes (childNodes le ++ [ChildElement li]) le)
    ∧ (∀ k, k ≠ l → is_Some (heap b !! k) → heap b' !! k = heap b !! k)
    ∧ (∃ kids, heap b' !! li = Some (set_childNodes kids (new_element "li"))
         ∧ Forall2 (shaped (heap b')) kids (parsed rt (comment_markup data)))
    ∧ emitted b' = emitted b ∧ uncaught b' = uncaught b
    ∧ mediaCalls b' = mediaCalls b.
Proof.
  intros Hle li.
  assert (Hlil : li ≠ l) by (apply fresh_not_in_heap; eauto).
  set (h2 := <[li := new_element "li"]> (heap b)).
  set (r := build_all (parsed rt (comment_markup data)) h2).
  set (h3 := alter (set_childNodes r.1) li r.2).
  set (h4 := alter (λ e, set_childNodes (childNodes e ++ [ChildElement li]) e) l h3).
  exists (with_heap (λ _, h4) b). split; [done|].
  cbn [with_heap heap emitted uncaught mediaCalls].
  assert (Hin2 : ∀ k, is_Some (heap b !! k) → is_Some (h2 !! k)).
  { intros k Hk. unfold h2. destruct (decide (li = k)) as [<-|Hne].
    - by rewrite lookup_insert_eq.
    - by rewrite lookup_insert_ne. }
  assert (Hli2 : r.2 !! li = Some (new_element "li")).
  { unfold r. rewrite build_all_frame; unfold h2; by rewrite lookup_insert_eq. }
  assert (Hli4 : h4 !! li = Some (set_childNodes r.1 (new_element "li"))).
  { unfold h4. rewrite lookup_alter_ne by done. unfold h3.
    by rewrite lookup_alter_eq, Hli2. }
  split; [|split; [|split; [|done]]].
  - unfold h4. rewrite lookup_alter_eq. unfold h3.
    rewrite lookup_alter_ne by done. unfold r.
    rewrite build_all_frame by (apply Hin2; by rewrite Hle).
    unfold h2. by rewrite lookup_insert_ne, Hle.
  - intros k Hkl Hk.
    assert (Hkli : li ≠ k) by by apply fresh_not_in_heap.
    unfold h4, h3. rewrite !lookup_alter_ne by done.
    unfold r. rewrite build_all_frame by by apply Hin2.
    unfold h2. by rewrite lookup_insert_ne.
  - exists r.1. split; [done|].
    apply build_all_shaped. fold r. intros k Hk Hin.
    assert (Hkli : li ≠ k).
    { intros <-. unfold h2 in Hk. by rewrite lookup_insert_eq in Hk. }
    assert (Hkl : l ≠ k).
    { intros <-. unfold h2 in Hk. by rewrite lookup_insert_ne, Hle in Hk. }
    unfold h4, h3. by rewrite !lookup_alter_ne.
Qed.

(** The handler on a post that has a counter and a list. *)
Lemma on_new_comment_found data b post c l :
  querySelector b (post_selector rt (comment_post_id data)) = Some post →
  querySelector_in (heap b) post [ClassSel "comment-count"] = Some c →
  omap child_element (children_of (heap b) c) = [] →
  querySelector_in (heap b) post [ClassSel "comments-list"] = Some l →
  let shown := number_to_string rt
                 (js_succ rt (counter_value (textContent (heap b) c))) in
  on_new_comment rt data b
  = append_comment rt l data
      (with_heap (alter (set_childNodes (text_children shown)) c) b).
Proof.
  intros Hpost Hc Hkids Hl shown.
  assert (Hskel : same_skeleton (heap b)
            (alter (set_childNodes (text_children shown)) c (heap b))).
  { apply set_text_skeleton. intros e He. unfold children_of in Hkids.
    by rewrite He in Hkids. }
  unfold on_new_comment.
  unfold bind at 1, gets at 1. rewrite Hpost.
  unfold bind at 1, gets at 1. rewrite Hc.
  unfold bind at 1. unfold bump_count, bind at 1, gets at 1.
  fold shown. unfold update, modify. cbn [with_heap heap].
  unfold bind at 1, gets at 1. cbn [heap with_heap].
  by rewrite <- (querySelector_in_skeleton _ _ _ _ Hskel), Hl.
Qed.

(** The heap after [append_comment] with a plain username and a
    plain content. *)
Lemma append_comment_plain l data b :
  all_plain (comment_username data) = true →
  all_plain (comment_content data) = true →
  let li := fresh (dom (heap b)) in
  let st := fresh (dom (<[li := new_element "li"]> (heap b))) in
  append_comment rt l data b
  = (Normal tt,
     with_heap (λ h,
       alter (λ e, set_childNodes (childNodes e ++ [ChildElement li]) e) l
         (<[st := mkElement "strong" "" [] None
                    (text_children (comment_username data)) 0 true]>
            (<[li := set_childNodes
                       [ChildElement st; ChildText (": " +:+ comment_content data)]
                       (new_element "li")]> h))) b).
Proof.
  intros Hu Hc li st.
  unfold append_comment, bind, createElement, set_innerHTML, appendChild, update,
    modify, with_heap.
  cbn [heap documentElement body hidden emitted uncaught mediaCalls].
  fold li. unfold comment_markup. rewrite (parsed_comment _ _ Hu Hc).
  rewrite build_all_comment. cbn zeta. cbn [fst snd]. fold st.
  assert (Hne : st ≠ li).
  { intros Heq. apply (is_fresh (dom (<[li := new_element "li"]> (heap b)))).
    fold st. rewrite Heq. apply elem_of_dom. by rewrite lookup_insert_eq. }
  do 3 f_equal.
  apply map_eq. intros k.
  destruct (decide (k = li)) as [->|Hkli].
  - rewrite lookup_alter_eq.
    rewrite !(lookup_insert_ne _ st li) by done. by rewrite !lookup_insert_eq.
  - rewrite lookup_alter_ne by done. destruct (decide (k = st)) as [->|Hkst].
    + by rewrite !lookup_insert_eq.
    + by rewrite !lookup_insert_ne.
Qed.

(** How a comment item reads. *)
Lemma comment_item_text h li st t u :
  h !! li = Some (set_childNodes [ChildElement st; ChildText t] (new_element "li")) →
  h !! st = Some (mkElement "strong" "" [] None (text_children u) 0 true) →
  textContent h li = u +:+ t.
Proof.
  intros Hli Hst. destruct (heap_not_empty h st) as [k Hsize]; [eauto|].
  unfold textContent. cbn [text_of]. rewrite Hli.
  cbn [childNodes set_childNodes new_element map String.concat]. rewrite Hsize.
  by rewrite (text_of_text_children k h st _ u Hst).
Qed.

(** C3: a [new_comment] payload for a post that is in the document,
    whose counter displays the count [n] and whose comment list is
    another element, makes the counter display [n + 1] and appends to
    the list one new [li] element.  The children of that element are
    what the parser makes of [<strong>username</strong>: content];
    when the username and the content are plain text, they are a
    [strong] element holding the username followed by the text
    [: content], so that the item reads [username: content].  For a
    post that is not in the document the handler returns normally and
    leaves the browser as it was. *)
Theorem new_comment_effect (s : Script) (data : NewComment) (b : Browser) :
  (∀ post c l n,
     querySelector b (post_selector rt (comment_post_id data)) = Some post →
     querySelector_in (heap b) post [ClassSel "comment-count"] = Some c →
     omap child_element (children_of (heap b) c) = [] →
     displays (textContent (heap b) c) n →
     exact_succ n = true →
     querySelector_in (heap b) post [ClassSel "comments-list"] = Some l →
     l ≠ c →
     let li := fresh (dom (heap b)) in
     ∃ b', dispatch rt (SocketNewComment data) (s, b) = (s, b')
       ∧ displays (textContent (heap b') c) (n + 1)
       ∧ textContent (heap b') c = pretty (n + 1)%Z
       ∧ children_of (heap b') l = (children_of (heap b) l ++ [ChildElement li])%list
       ∧ heap b !! li = None
       ∧ tagName <$> heap b' !! li = Some "li"
       ∧ Forall2 (shaped (heap b')) (children_of (heap b') li)
           (parsed rt ("<strong>" +:+ comment_username data
                       +:+ "</strong>: " +:+ comment_content data))
       ∧ (all_plain (comment_username data) = true →
          all_plain (comment_content data) = true →
          textContent (heap b') li
          = comment_username data +:+ ": " +:+ comment_content data
          ∧ ∃ st, children_of (heap b') li
                  = [ChildElement st; ChildText (": " +:+ comment_content data)]
               ∧ tagName <$> heap b' !! st = Some "strong"
               ∧ textContent (heap b') st = comment_username data)
       ∧ emitted b' = emitted b
       ∧ uncaught b' = uncaught b)
  ∧ (querySelector b (post_selector rt (comment_post_id data)) = None →
     dispatch rt (SocketNewComment data) (s, b) = (s, b)).
Proof.
  split.
  - intros post c l n Hpost Hc Hkids Ht Hn Hl Hlc li.
    apply counter_value_displays in Ht.
    destruct (first_match_is_Some _ _ _ _ Hc) as [ce Hce].
    destruct (first_match_is_Some _ _ _ _ Hl) as [le Hle].
    assert (Hlic : li ≠ c) by (apply fresh_not_in_heap; eauto).
    assert (Hnew : heap b !! li = None) by (apply not_elem_of_dom, is_fresh).
    pose proof (on_new_comment_found data b post c l Hpost Hc Hkids Hl) as Hfound.
    cbn zeta in Hfound. rewrite Ht in Hfound. unfold js_succ in Hfound.
    rewrite Hn in Hfound. unfold number_to_string in Hfound.
    rewrite (exact_succ_exact_int n Hn) in Hfound.
    set (b1 := with_heap (alter (set_childNodes (text_children (pretty (n + 1)%Z))) c) b)
      in Hfound.
    assert (Hle1 : heap b1 !! l = Some le).
    { unfold b1. cbn [with_heap heap]. by rewrite lookup_alter_ne. }
    assert (Hce1 : heap b1 !! c
                   = Some (set_childNodes (text_children (pretty (n + 1)%Z)) ce)).
    { unfold b1. cbn [with_heap heap]. by rewrite lookup_alter_eq, Hce. }
    assert (Hli1 : fresh (dom (heap b1)) = li).
    { unfold b1. cbn [with_heap heap]. by rewrite dom_alter_L. }
    destruct (append_comment_spec l data b1 le Hle1)
      as (b' & Hrun & Hl' & Hframe & (kids & Hli' & Hshape) & Hem & Hun & _).
    rewrite Hli1 in Hl', Hli'.
    assert (Htext : textContent (heap b') c = pretty (n + 1)%Z).
    { unfold textContent.
      apply (text_of_text_children _ _ _
               (set_childNodes (text_children (pretty (n + 1)%Z)) ce)); [|done].
      rewrite Hframe; [done | done | by rewrite Hce1]. }
    exists b'.
    split; [cbn [dispatch fst snd]; unfold listener; by rewrite Hfound, Hrun|].
    split; [by left|]. split; [done|].
    split; [unfold children_of; by rewrite Hl', Hle|].
    split; [done|]. split; [by rewrite Hli'|].
    split; [unfold children_of; by rewrite Hli'|].
    split; [|done].
    intros Hu Hco. unfold comment_markup in Hshape.
    rewrite (parsed_comment _ _ Hu Hco) in Hshape.
    destruct kids as [|k1 [|k2 [|k3 kids]]];
      inversion Hshape as [|? ? ? ? Hx1 Hxs1]; subst;
      inversion Hxs1 as [|? ? ? ? Hx2 Hxs2]; subst;
      inversion Hxs2; subst.
    inversion Hx2; subst.
    inversion Hx1 as [|st e tag cls attrs val ks Hst Htag]; subst.
    destruct (heap_not_empty (heap b') st) as [k Hsize]; [eauto|].
    assert (Hst_text : ∀ fuel, text_of (S fuel) (heap b') st = comment_username data).
    { intros fuel. by apply (text_of_plain _ _ _ e). }
    split.
    + unfold textContent. cbn [text_of]. rewrite Hli'.
      cbn [childNodes set_childNodes map String.concat].
      by rewrite Hsize, Hst_text.
    + exists st. split; [unfold children_of; by rewrite Hli'|].
      split; [by rewrite Hst; cbn; rewrite Htag|]. apply Hst_text.
  - intros Hpost. cbn [dispatch fst snd]. unfold listener.
    unfold on_new_comment, bind at 1, gets at 1. by rewrite Hpost.
Qed.

(** *** Media elements *)

Lemma heap_media_call c b : heap (media_call c b) = apply_call c (heap b).
Proof. done. Qed.

Lemma is_paused_alter_eq p h v :
  is_paused (alter (set_paused p) v h) v
  = match h !! v with Some _ => p | None => true end.
Proof.
  unfold is_paused. rewrite lookup_alter_eq. by destruct (h !! v).
Qed.

Lemma is_paused_alter_ne f h u v :
  u ≠ v → is_paused (alter f v h) u = is_paused h u.
Proof. intros Hne. unfold is_paused. by rewrite lookup_alter_ne. Qed.

Lemma is_paused_pause_eq h v : is_paused (apply_call (CallPause v) h) v = true.
Proof. cbn. rewrite is_paused_alter_eq. by destruct (h !! v). Qed.

Lemma is_paused_call_ne c h u :
  u ≠ call_target c → is_paused (apply_call c h) u = is_paused h u.
Proof.
  intros Hne. destruct c as [v|v [|]]; cbn in *;
    [by apply is_paused_alter_ne | by apply is_paused_alter_ne | done].
Qed.

(** Pausing never starts a video. *)
Lemma is_paused_pause_mono h u v :
  is_paused h u = true → is_paused (apply_call (CallPause v) h) u = true.
Proof.
  intros Hu. destruct (decide (u = v)) as [->|Hne].
  - apply is_paused_pause_eq.
  - by rewrite is_paused_call_ne.
Qed.

Lemma is_paused_play_granted h v :
  is_Some (h !! v) → is_paused (apply_call (CallPlay v true) h) v = false.
Proof. intros [e He]. cbn. by rewrite is_paused_alter_eq, He. Qed.

Lemma pause_if_playing_paused v b :
  is_paused (heap (pause_if_playing v b)) v = true.
Proof.
  unfold pause_if_playing. destruct (is_paused (heap b) v) eqn:Hp; cbn [negb].
  - done.
  - apply is_paused_pause_eq.
Qed.

Lemma pause_if_playing_mono v b u :
  is_paused (heap b) u = true → is_paused (heap (pause_if_playing v b)) u = true.
Proof.
  intros Hu. unfold pause_if_playing. destruct (negb _); [|done].
  by apply is_paused_pause_mono.
Qed.

Lemma pause_if_playing_ne v b u :
  u ≠ v → is_paused (heap (pause_if_playing v b)) u = is_paused (heap b) u.
Proof.
  intros Hne. unfold pause_if_playing. destruct (negb _); [|done].
  by apply (is_paused_call_ne (CallPause v)).
Qed.

(** A loop that pauses: what is paused stays paused, and every element
    the body pauses is paused in the end. *)
Lemma forEach_pausing (l : list NodeId) (f : NodeId → Browser → Browser) b :
  (∀ v b u, is_paused (heap b) u = true → is_paused (heap (f v b)) u = true) →
  (∀ u, is_paused (heap b) u = true → is_paused (heap (forEach l f b)) u = true)
  ∧ (∀ u, u ∈ l → (∀ b, is_paused (heap (f u b)) u = true) →
          is_paused (heap (forEach l f b)) u = true).
Proof.
  intros Hmono. revert b. unfold forEach.
  induction l as [|a l IH]; intros b; cbn.
  - split; [done|]. intros u Hu. by apply elem_of_nil in Hu.
  - destruct (IH (f a b)) as [IH1 IH2]. split.
    + intros u Hu. by apply IH1, Hmono.
    + intros u Hu Hf. apply elem_of_cons in Hu as [->|Hu].
      * by apply IH1, Hf.
      * by apply IH2.
Qed.

Lemma forEach_video_pause_all vs b : all_paused vs (heap (forEach vs video_pause b)).
Proof.
  intros u Hu.
  refine (proj2 (forEach_pausing vs video_pause b _) u Hu _).
  - intros v b' u'. apply is_paused_pause_mono.
  - intros b'. apply is_paused_pause_eq.
Qed.

Lemma pause_others_paused vid s b : others_paused (videos s) vid (heap (pause_others vid s b)).
Proof.
  intros u Hu Hne. unfold pause_others.
  refine (proj2 (forEach_pausing _ _ _ _) u Hu _).
  - intros v b' u' Hu'. case_bool_decide; [|done].
    by apply pause_if_playing_mono.
  - intros b'. rewrite bool_decide_eq_true_2 by done.
    apply pause_if_playing_paused.
Qed.


Lemma pause_others_is_Some vid s b v :
  is_Some (heap b !! v) → is_Some (heap (pause_others vid s b) !! v).
Proof.
  intros Hv. unfold pause_others.
  apply (forEach_invariant (λ b, is_Some (heap b !! v))).
  - destruct (current s) as [c|]; [|done]. case_bool_decide; [|done].
    cbn. by apply lookup_alter_is_Some.
  - intros a b' _ Hb'. case_bool_decide; [|done].
    unfold pause_if_playing. destruct (negb _); [|done].
    cbn. by apply lookup_alter_is_Some.
Qed.

(** *** Two dominant videos in one batch *)

Lemma video_play_is_Some v g b u :
  is_Some (heap b !! u) → is_Some (heap (video_play v g b) !! u).
Proof.
  intros Hu. cbn. destruct g; [|done]. by apply lookup_alter_is_Some.
Qed.

Lemma on_entry_dominant e p :
  dominant e = true →
  on_entry e p
  = (set_current (Some (target e)) p.1,
     video_play (target e) (playGranted e) (pause_others (target e) p.1 p.2)).
Proof. unfold on_entry. by intros ->. Qed.

Lemma on_entry_not_dominant e p :
  dominant e = false → on_entry e p = (p.1, pause_if_playing (target e) p.2).
Proof. unfold on_entry. by intros ->. Qed.


(** *** Handlers that leave the media elements alone *)

Lemma quiet_refl b : quiet b b.
Proof.
  split; [done|]. split; [by intros v Hv|].
  intros v Hv. unfold is_paused. by rewrite Hv.
Qed.

Lemma quiet_trans b1 b2 b3 : quiet b1 b2 → quiet b2 b3 → quiet b1 b3.
Proof.
  intros (Hc1 & H1 & Hn1) (Hc2 & H2 & Hn2). split; [congruence|]. split.
  - intros v Hv.
    destruct (H1 v Hv) as [Hv2 Hp1]. destruct (H2 v Hv2) as [Hv3 Hp2].
    split; [done | congruence].
  - intros v Hv. destruct (heap b2 !! v) as [e|] eqn:Hv2.
    + destruct (H2 v) as [_ ->]; [by rewrite Hv2 | by apply Hn1].
    + by apply Hn2.
Qed.

Lemma quiet_same_heap b b' :
  heap b' = heap b → mediaCalls b' = mediaCalls b → quiet b b'.
Proof.
  intros Hh Hc. destruct (quiet_refl b) as (_ & H2 & H3).
  unfold quiet. rewrite Hh. done.
Qed.

Lemma quiet_alter f id b :
  (∀ e, paused (f e) = paused e) → quiet b (with_heap (alter f id) b).
Proof.
  intros Hf. split; [done|]. cbn. split.
  - intros v Hv. split; [by apply lookup_alter_is_Some|].
    unfold is_paused. destruct (decide (id = v)) as [->|Hne].
    + rewrite lookup_alter_eq. destruct (heap b !! v); cbn; [apply Hf | done].
    + by rewrite lookup_alter_ne.
  - intros v Hv. unfold is_paused.
    by rewrite (proj2 (lookup_alter_None f (heap b) id v) Hv).
Qed.

Lemma quiet_insert_fresh e b :
  paused e = true → quiet b (with_heap (insert (fresh (dom (heap b))) e) b).
Proof.
  intros He. split; [done|]. cbn. split.
  - intros v Hv.
    assert (fresh (dom (heap b)) ≠ v) by by apply fresh_not_in_heap.
    unfold is_paused. by rewrite lookup_insert_ne.
  - intros v Hv. unfold is_paused.
    destruct (decide (fresh (dom (heap b)) = v)) as [->|Hne].
    + by rewrite lookup_insert_eq.
    + by rewrite lookup_insert_ne, Hv.
Qed.

Lemma quiet_ret {A} (a : A) : quiet_js (ret a).
Proof. intros b. apply quiet_refl. Qed.

Lemma quiet_throw {A} e : quiet_js (@throw A e).
Proof. intros b. apply quiet_refl. Qed.

Lemma quiet_gets {A} (f : Browser → A) : quiet_js (gets f).
Proof. intros b. apply quiet_refl. Qed.

Lemma quiet_deref {A} what (x : option A) : quiet_js (deref what x).
Proof. destruct x; [apply quiet_ret | apply quiet_throw]. Qed.

Lemma quiet_bind {A B} (m : JS A) (f : A → JS B) :
  quiet_js m → (∀ a, quiet_js (f a)) → quiet_js (bind m f).
Proof.
  intros Hm Hf b. unfold bind. specialize (Hm b).
  destruct (m b) as [[a|e] b']; [|done].
  eapply quiet_trans; [exact Hm | apply Hf].
Qed.

Lemma quiet_update id f :
  (∀ e, paused (f e) = paused e) → quiet_js (update id f).
Proof. intros Hf b. by apply quiet_alter. Qed.

Lemma quiet_createElement tag : quiet_js (createElement tag).
Proof. intros b. by apply quiet_insert_fresh. Qed.

Lemma quiet_emit o : quiet_js (emit o).
Proof. intros b. by apply quiet_same_heap. Qed.

Lemma quiet_appendChild parent child : quiet_js (appendChild parent child).
Proof. by apply quiet_update. Qed.

Lemma quiet_scroll_to_end el : quiet_js (scroll_to_end rt el).
Proof.
  apply quiet_bind; [apply quiet_gets|]. intros h b. by apply quiet_alter.
Qed.

Lemma quiet_get_value what el : quiet_js (get_value what el).
Proof. apply quiet_bind; [apply quiet_gets | intros v; apply quiet_deref]. Qed.

Lemma quiet_set_innerHTML el text : quiet_js (set_innerHTML rt el text).
Proof.
  intros b. unfold set_innerHTML, modify. cbn [snd].
  set (r := build_all (parsed rt text) (heap b)).
  assert (Hp : ∀ v, is_paused (alter (set_childNodes r.1) el r.2) v = is_paused r.2 v).
  { intros v. unfold is_paused. destruct (decide (el = v)) as [->|Hne].
    - rewrite lookup_alter_eq. by destruct (r.2 !! v).
    - by rewrite lookup_alter_ne. }
  split; [done|]. cbn [heap with_heap]. fold r. split.
  - intros v Hv.
    assert (Hf : r.2 !! v = heap b !! v) by by apply build_all_frame.
    split.
    + apply lookup_alter_is_Some. by rewrite Hf.
    + rewrite Hp. unfold is_paused. by rewrite Hf.
  - intros v Hv. rewrite Hp. by apply build_all_paused.
Qed.

Create HintDb quiet.
#[local] Hint Resolve quiet_ret quiet_throw quiet_gets quiet_deref quiet_update
  quiet_createElement quiet_emit quiet_appendChild quiet_scroll_to_end
  quiet_get_value quiet_set_innerHTML : quiet.

Ltac quiet_steps :=
  repeat first
    [ solve [auto with quiet]
    | apply quiet_bind; [|intros ?]
    | match goal with
      | |- quiet_js (match ?x with _ => _ end) => destruct x
      | |- quiet_js (if ?x then _ else _) => destruct x
      end ].

Lemma quiet_on_new_comment data : quiet_js (on_new_comment rt data).
Proof. unfold on_new_comment, bump_count, append_comment. quiet_steps. Qed.

Lemma quiet_on_new_message s data : quiet_js (on_new_message rt s data).
Proof. unfold on_new_message, render_message. quiet_steps. Qed.

Lemma quiet_on_send_click s : quiet_js (on_send_click rt s).
Proof. unfold on_send_click. quiet_steps. Qed.

Lemma quiet_on_submit form : quiet_js (on_submit form).
Proof. unfold on_submit. quiet_steps. Qed.

Lemma quiet_listener m b : quiet_js m → quiet b (listener m b).
Proof.
  intros Hm. unfold listener. specialize (Hm b).
  destruct (m b) as [[a|e] b']; [done|].
  eapply quiet_trans; [exact Hm | by apply quiet_same_heap].
Qed.

Lemma quiet_type_into el text b : quiet b (type_into el text b).
Proof. apply quiet_alter. intros e. by destruct (value e). Qed.

(** *** Global pause signals *)

Lemma pause_all_spec p :
  all_paused (videos p.1) (heap (pause_all p).2)
  ∧ current (pause_all p).1 = None
  ∧ videos (pause_all p).1 = videos p.1.
Proof.
  unfold pause_all. cbn. split; [|done]. apply forEach_video_pause_all.
Qed.

Lemma quiet_all_paused vs b b' :
  quiet b b' → all_paused vs (heap b) → all_paused vs (heap b').
Proof.
  intros (_ & Hold & Hnew) Hall u Hu.
  destruct (heap b !! u) as [e|] eqn:He.
  - destruct (Hold u) as [_ ->]; [by rewrite He|]. by apply Hall.
  - by apply Hnew.
Qed.

(** Once the videos are paused and no video is current, the listeners
    a click runs on its way up keep it so. *)
Lemma click_at_still vs n q :
  all_paused vs (heap q.2) ∧ current q.1 = None ∧ videos q.1 = vs →
  all_paused vs (heap (click_at rt n q).2)
  ∧ current (click_at rt n q).1 = None
  ∧ videos (click_at rt n q).1 = vs.
Proof.
  intros (H1 & H2 & H3). unfold click_at.
  apply (forEach_invariant
           (λ q : Script * Browser,
              all_paused vs (heap q.2) ∧ current q.1 = None ∧ videos q.1 = vs)).
  - case_bool_decide; [|done]. cbn [fst snd]. split; [|done].
    apply (quiet_all_paused _ q.2); [|done].
    apply quiet_listener, quiet_on_send_click.
  - intros _ q' _ (_ & _ & Hq').
    pose proof (pause_all_spec q') as (H1' & H2' & H3').
    unfold on_img_click. rewrite Hq' in H1'. by rewrite H3', Hq'.
Qed.

(** A click that reaches a bound image pauses the videos. *)
Lemma click_at_signal img q :
  img ∈ imgBound q.1 →
  all_paused (videos q.1) (heap (click_at rt img q).2)
  ∧ current (click_at rt img q).1 = None
  ∧ videos (click_at rt img q).1 = videos q.1.
Proof.
  intros Himg. unfold click_at.
  set (p1 := if bool_decide (btn q.1 = Some img)
             then (q.1, listener (on_send_click rt q.1) q.2) else q).
  assert (Hp1 : p1.1 = q.1) by (unfold p1; by case_bool_decide).
  destruct (filter (λ i, i = img) (imgBound p1.1)) as [|a l] eqn:Hl.
  { assert (Hin : img ∈ filter (λ i, i = img) (imgBound p1.1)).
    { apply list_elem_of_filter. by rewrite Hp1. }
    rewrite Hl in Hin. by apply elem_of_nil in Hin. }
  rewrite forEach_cons. rewrite <- Hp1.
  apply (forEach_invariant
           (λ q : Script * Browser,
              all_paused (videos p1.1) (heap q.2) ∧ current q.1 = None
              ∧ videos q.1 = videos p1.1)).
  - apply pause_all_spec.
  - intros _ q' _ (_ & _ & Hq').
    pose proof (pause_all_spec q') as (H1' & H2' & H3').
    unfold on_img_click. rewrite Hq' in H1'. by rewrite H3', Hq'.
Qed.

(** C7, as the code has it: on every global pause signal (the page
    becomes hidden, the window loses focus, an image that the load
    handler found under a post is clicked) every video that the load
    handler found under a post is paused and the currently-playing
    reference is cleared. *)
Theorem global_pause_signal (s : Script) (b : Browser) (ev : Event) :
  pause_signal s ev →
  all_paused (videos s) (heap (dispatch rt ev (s, b)).2)
  ∧ current (dispatch rt ev (s, b)).1 = None.
Proof.
  intros [ | | img Himg]; cbn [dispatch].
  - unfold on_visibilitychange. cbn [snd with_hidden hidden].
    pose proof (pause_all_spec (s, with_hidden true b)) as (H1 & H2 & _).
    done.
  - pose proof (pause_all_spec (s, b)) as (H1 & H2 & _). done.
  - unfold dispatch_click, event_path. rewrite forEach_cons.
    cbn [snd heap]. set (l := climb _ _ _ _). clearbody l.
    pose proof (click_at_signal img (s, b) Himg) as H0. cbn [fst] in H0.
    enough (all_paused (videos s) (heap (forEach l (click_at rt) (click_at rt img (s, b))).2)
            ∧ current (forEach l (click_at rt) (click_at rt img (s, b))).1 = None
            ∧ videos (forEach l (click_at rt) (click_at rt img (s, b))).1 = videos s)
      by tauto.
    apply (forEach_invariant
             (λ q : Script * Browser,
                all_paused (videos s) (heap q.2) ∧ current q.1 = None
                ∧ videos q.1 = videos s)); [done|].
    intros n q _ Hq. by apply click_at_still.
Qed.

(** *** Calls on the videos of the controller *)

Lemma settled_refl strict vs h : settled strict vs h h.
Proof.
  split; [done|]. intros _ v Hv. unfold is_paused. by rewrite Hv.
Qed.

Lemma settled_trans strict vs h1 h2 h3 :
  covers vs h1 →
  (∀ v, is_Some (h1 !! v) → is_Some (h2 !! v)) →
  settled strict vs h1 h2 → settled strict vs h2 h3 → settled strict vs h1 h3.
Proof.
  intros Hcov Hsome [Hk1 Hn1] [Hk2 Hn2]. split.
  - intros v Hv Hv1. rewrite Hk2, Hk1; auto.
  - intros Hs v Hv1. destruct (h2 !! v) as [e|] eqn:Hv2.
    + rewrite Hk2; [by apply Hn1 | | by rewrite Hv2].
      intros Hin. destruct (Hcov v Hin) as [? ?]. congruence.
    + by apply Hn2.
Qed.

Lemma tame_refl strict vs b : tame strict vs b b.
Proof.
  intros _. split; [done|]. split; [apply settled_refl|].
  exists []. rewrite app_nil_r.
  split; [done|]. split; [constructor|]. intros H. split; [constructor | done].
Qed.

Lemma tame_trans strict vs b1 b2 b3 :
  tame strict vs b1 b2 → tame strict vs b2 b3 → tame strict vs b1 b3.
Proof.
  intros H12 H23 Hcov.
  destruct (H12 Hcov) as (Hs1 & Hset1 & calls1 & Hl1 & Ht1 & Hok1).
  assert (Hcov2 : covers vs (heap b2)) by (intros v Hv; by apply Hs1, Hcov).
  destruct (H23 Hcov2) as (Hs2 & Hset2 & calls2 & Hl2 & Ht2 & Hok2).
  split; [by intros v Hv; apply Hs2, Hs1|].
  split; [by apply (settled_trans strict vs _ (heap b2))|].
  exists (calls1 ++ calls2)%list. split; [by rewrite Hl2, Hl1, app_assoc|].
  split.
  - apply Forall_app. split; [done|].
    eapply Forall_impl; [exact Ht2|]. intros c [Hc1 Hc2].
    split; [done|]. by apply (settled_trans strict vs _ (heap b2)).
  - intros H.
    destruct (Hok1 H) as [Hc1 H2]. destruct (Hok2 H2) as [Hc2 H3].
    split; [by apply Forall_app | done].
Qed.

(** A step that issues no call and leaves the paused flags alone. *)
Lemma tame_frame strict vs b b' :
  mediaCalls b' = mediaCalls b →
  (∀ v, is_Some (heap b !! v) →
        is_Some (heap b' !! v) ∧ is_paused (heap b') v = is_paused (heap b) v) →
  (strict → newcomers_paused (heap b) (heap b')) →
  tame strict vs b b'.
Proof.
  intros Hcalls Hq Hnew Hcov. split; [by intros v Hv; apply Hq|]. split.
  - split; [|done]. intros v _ Hv. by apply Hq.
  - exists []. rewrite app_nil_r. split; [done|]. split; [constructor|].
    intros H. split; [constructor|]. intros u v Hu Hv.
    destruct (Hq u (Hcov u Hu)) as [_ ->].
    destruct (Hq v (Hcov v Hv)) as [_ ->]. by apply H.
Qed.

Lemma tame_quiet strict vs b b' : quiet b b' → tame strict vs b b'.
Proof. intros (H1 & H2 & H3). by apply tame_frame. Qed.

Lemma at_most_one_after_pause vs v h :
  at_most_one_playing vs h → at_most_one_playing vs (apply_call (CallPause v) h).
Proof.
  intros H u w Hu Hw Hpu Hpw. apply H; [done | done | |].
  - destruct (is_paused h u) eqn:E; [|done].
    by rewrite (is_paused_pause_mono h u v E) in Hpu.
  - destruct (is_paused h w) eqn:E; [|done].
    by rewrite (is_paused_pause_mono h w v E) in Hpw.
Qed.

Lemma at_most_one_after_play vs v g h :
  others_paused vs v h → at_most_one_playing vs (apply_call (CallPlay v g) h).
Proof.
  intros H u w Hu Hw Hpu Hpw.
  destruct (decide (u = v)) as [->|Hnu], (decide (w = v)) as [->|Hnw]; [done| | |].
  - rewrite (is_paused_call_ne (CallPlay v g)), (H w Hw Hnw) in Hpw; done.
  - rewrite (is_paused_call_ne (CallPlay v g)), (H u Hu Hnu) in Hpu; done.
  - rewrite (is_paused_call_ne (CallPlay v g)), (H u Hu Hnu) in Hpu; done.
Qed.

Lemma apply_call_is_Some c h v : is_Some (h !! v) → is_Some (apply_call c h !! v).
Proof.
  intros Hv. destruct c as [u|u [|]]; cbn; [| |done];
    by apply lookup_alter_is_Some.
Qed.

(** A call on a video of [vs] is no business of the other nodes. *)
Lemma settled_apply_call strict vs c h :
  covers vs h → call_target c ∈ vs → settled strict vs h (apply_call c h).
Proof.
  intros Hcov Hin. split.
  - intros v Hv _. apply is_paused_call_ne. by intros ->.
  - intros _ v Hv. rewrite is_paused_call_ne.
    + unfold is_paused. by rewrite Hv.
    + intros ->. destruct (Hcov _ Hin) as [? ?]. congruence.
Qed.

Lemma tame_media_call strict vs c b :
  call_target c ∈ vs →
  match c with
  | CallPlay v _ => others_paused vs v (heap b)
  | CallPause _ => True
  end →
  tame strict vs b (media_call c b).
Proof.
  intros Hin Hpre Hcov. split; [|split].
  - intros v Hv. by apply apply_call_is_Some.
  - rewrite heap_media_call. by apply settled_apply_call.
  - exists [(c, heap b)]. split; [done|]. split.
    { constructor; [|constructor]. split; [done | apply settled_refl]. }
    intros H.
    assert (Hafter : at_most_one_playing vs (apply_call c (heap b))).
    { destruct c as [v|v g].
      - by apply at_most_one_after_pause.
      - by apply at_most_one_after_play. }
    split; [|done]. by repeat constructor.
Qed.

Lemma tame_video_pause strict vs v b : v ∈ vs → tame strict vs b (video_pause v b).
Proof. intros Hv. by apply tame_media_call. Qed.

Lemma tame_pause_if_playing strict vs v b :
  v ∈ vs → tame strict vs b (pause_if_playing v b).
Proof.
  intros Hv. unfold pause_if_playing.
  destruct (negb _); [by apply tame_video_pause | apply tame_refl].
Qed.

Lemma tame_forEach {A} strict vs (l : list A) (f : A → Browser → Browser) b :
  (∀ a b, a ∈ l → tame strict vs b (f a b)) → tame strict vs b (forEach l f b).
Proof.
  intros Hf. apply (forEach_invariant (tame strict vs b)); [apply tame_refl|].
  intros a b' Ha Hb'. eapply tame_trans; [exact Hb' | by apply Hf].
Qed.

Lemma tame_pause_others strict vs vid s b :
  script_inv vs s → tame strict vs b (pause_others vid s b).
Proof.
  intros (Hvs & _ & Hcur). unfold pause_others.
  set (b1 := match current s with
             | Some c => if bool_decide (c ≠ vid) then video_pause c b else b
             | None => b
             end).
  apply (tame_trans strict vs b b1).
  - unfold b1. destruct (current s) as [c|]; [|apply tame_refl].
    case_bool_decide; [|apply tame_refl]. apply tame_video_pause. by apply Hcur.
  - apply tame_forEach. intros v b' Hv. case_bool_decide; [|apply tame_refl].
    apply tame_pause_if_playing. by rewrite <- Hvs.
Qed.

Lemma script_inv_set_current vs s c :
  script_inv vs s → (∀ v, c = Some v → v ∈ vs) → script_inv vs (set_current c s).
Proof. intros (H1 & H2 & _) Hc. done. Qed.

Lemma on_entry_tame strict vs e p :
  script_inv vs p.1 → target e ∈ vs →
  script_inv vs (on_entry e p).1 ∧ tame strict vs p.2 (on_entry e p).2.
Proof.
  intros Hinv He. destruct (dominant e) eqn:Hd.
  - rewrite (on_entry_dominant e p Hd). cbn [fst snd]. split.
    + apply script_inv_set_current; [done|]. by intros v [= <-].
    + eapply tame_trans; [by apply tame_pause_others|].
      apply tame_media_call; [done|]. cbn.
      destruct Hinv as (<- & _). apply pause_others_paused.
  - rewrite (on_entry_not_dominant e p Hd). cbn [fst snd].
    split; [done | by apply tame_pause_if_playing].
Qed.

Lemma on_intersections_tame strict vs entries p :
  script_inv vs p.1 → (∀ e, e ∈ entries → target e ∈ vs) →
  script_inv vs (on_intersections entries p).1
  ∧ tame strict vs p.2 (on_intersections entries p).2.
Proof.
  intros Hinv Hentries. unfold on_intersections.
  apply (forEach_invariant
           (λ q : Script * Browser, script_inv vs q.1 ∧ tame strict vs p.2 q.2)).
  - split; [done | apply tame_refl].
  - intros e q He [Hq1 Hq2].
    destruct (on_entry_tame strict vs e q Hq1 (Hentries e He)) as [H1 H2].
    split; [done | by eapply tame_trans].
Qed.

Lemma pause_all_tame strict vs p :
  script_inv vs p.1 →
  script_inv vs (pause_all p).1 ∧ tame strict vs p.2 (pause_all p).2.
Proof.
  intros Hinv. unfold pause_all. cbn [fst snd]. split.
  - by apply script_inv_set_current.
  - apply tame_forEach. intros v b Hv. apply tame_video_pause.
    destruct Hinv as (<- & _). done.
Qed.

Lemma click_at_tame strict vs n p :
  script_inv vs p.1 →
  script_inv vs (click_at rt n p).1 ∧ tame strict vs p.2 (click_at rt n p).2.
Proof.
  intros Hinv. unfold click_at.
  set (p1 := if bool_decide (btn p.1 = Some n)
             then (p.1, listener (on_send_click rt p.1) p.2) else p).
  assert (H1 : script_inv vs p1.1 ∧ tame strict vs p.2 p1.2).
  { unfold p1. case_bool_decide; cbn [fst snd]; (split; [done|]).
    - apply tame_quiet, quiet_listener, quiet_on_send_click.
    - apply tame_refl. }
  apply (forEach_invariant
           (λ q : Script * Browser, script_inv vs q.1 ∧ tame strict vs p.2 q.2));
    [done|].
  intros _ q _ [Hq1 Hq2]. destruct (pause_all_tame strict vs q Hq1) as [H2 H3].
  split; [done | by eapply tame_trans].
Qed.

Lemma dispatch_click_tame strict vs t p :
  script_inv vs p.1 →
  script_inv vs (dispatch_click rt t p).1 ∧ tame strict vs p.2 (dispatch_click rt t p).2.
Proof.
  intros Hinv. unfold dispatch_click.
  apply (forEach_invariant
           (λ q : Script * Browser, script_inv vs q.1 ∧ tame strict vs p.2 q.2)).
  - split; [done | apply tame_refl].
  - intros n q _ [Hq1 Hq2]. destruct (click_at_tame strict vs n q Hq1) as [H2 H3].
    split; [done | by eapply tame_trans].
Qed.

Lemma on_keypress_tame strict vs key p :
  script_inv vs p.1 →
  script_inv vs (on_keypress rt key p).1 ∧ tame strict vs p.2 (on_keypress rt key p).2.
Proof.
  intros Hinv. unfold on_keypress.
  case_bool_decide; [|split; [done | apply tame_refl]].
  destruct (btn p.1) as [t|].
  - destruct (is_disabled (heap p.2) t); [split; [done | apply tame_refl]|].
    by apply dispatch_click_tame.
  - cbn [fst snd]. split; [done|]. by apply tame_quiet, quiet_same_heap.
Qed.

Lemma dispatch_submit_tame strict vs form p :
  script_inv vs p.1 →
  script_inv vs (dispatch_submit form p).1
  ∧ tame strict vs p.2 (dispatch_submit form p).2.
Proof.
  intros Hinv. unfold dispatch_submit. cbn [fst snd]. split; [done|].
  apply tame_forEach. intros f b _.
  apply tame_quiet, quiet_listener, quiet_on_submit.
Qed.

(** The mutation observer's callback only ever adds submit listeners. *)
Lemma on_mutations_script_inv vs h mutations s :
  script_inv vs s → script_inv vs (on_mutations h mutations s).
Proof.
  intros Hinv. unfold on_mutations.
  apply (forEach_invariant (script_inv vs)); [done|].
  intros m s1 _ Hs1. apply (forEach_invariant (script_inv vs)); [done|].
  intros node s2 _ Hs2. unfold on_added_node.
  destruct node as [n|]; [|done].
  destruct (classList_contains h n "post"); [|done].
  apply (forEach_invariant (script_inv vs)); [|done].
  destruct (querySelector_in h n [ClassSel "comment-form"]); done.
Qed.

Lemma insert_fragment_tame strict vs parent root fragment p :
  script_inv vs p.1 →
  (strict → arrives_paused (Inserted parent root fragment)) →
  script_inv vs (insert_fragment parent root fragment p).1
  ∧ tame strict vs p.2 (insert_fragment parent root fragment p).2.
Proof.
  intros Hinv Hnew. unfold insert_fragment.
  case_bool_decide as Hlegal; [|split; [done | apply tame_refl]].
  destruct Hlegal as (Hdisj & _ & Hparent). cbn [fst snd]. split.
  { destruct (postsContainer p.1); [|done].
    case_bool_decide; [|done]. by apply on_mutations_script_inv. }
  assert (Hold : ∀ v, is_Some (heap p.2 !! v) →
                      (fragment ∪ heap p.2) !! v = heap p.2 !! v).
  { intros v Hv. apply lookup_union_r. apply not_elem_of_dom.
    intros Hin. apply elem_of_dom in Hv.
    assert (v ∈ dom fragment ∩ dom (heap p.2)) as Hboth
      by by apply elem_of_intersection.
    rewrite Hdisj in Hboth. by apply elem_of_empty in Hboth. }
  apply tame_frame; [done | |]; cbn.
  - intros v Hv. split.
    + apply lookup_alter_is_Some. by rewrite Hold.
    + unfold is_paused. destruct (decide (parent = v)) as [->|Hne].
      * rewrite lookup_alter_eq, Hold by done. by destruct (heap p.2 !! v).
      * by rewrite lookup_alter_ne, Hold.
  - intros Hs v Hv. specialize (Hnew Hs). cbn in Hnew. unfold is_paused.
    assert (Hne : parent ≠ v).
    { intros ->. apply elem_of_dom in Hparent as [? ?]. congruence. }
    rewrite lookup_alter_ne, lookup_union_l by done.
    destruct (fragment !! v) as [e|] eqn:Hf; [|done].
    by apply (Hnew v).
Qed.

Lemma dispatch_tame strict vs ev p :
  script_inv vs p.1 → (strict → arrives_paused ev) →
  script_inv vs (dispatch rt ev p).1 ∧ tame strict vs p.2 (dispatch rt ev p).2.
Proof.
  intros Hinv Hnew. destruct ev; cbn [dispatch fst snd].
  - split; [done|]. apply tame_quiet, quiet_listener, quiet_on_new_comment.
  - split; [done|]. apply tame_quiet, quiet_listener, quiet_on_new_message.
  - by apply dispatch_click_tame.
  - destruct (input p.1) as [i|]; [|split; [done | apply tame_refl]].
    case_bool_decide; [by apply on_keypress_tame | split; [done | apply tame_refl]].
  - by apply dispatch_submit_tame.
  - unfold on_visibilitychange. cbn [snd with_hidden hidden].
    destruct nowHidden.
    + destruct (pause_all_tame strict vs (p.1, with_hidden true p.2) Hinv) as [H1 H2].
      split; [done|]. eapply tame_trans; [|exact H2].
      by apply tame_quiet, quiet_same_heap.
    + split; [done|]. by apply tame_quiet, quiet_same_heap.
  - by apply pause_all_tame.
  - apply on_intersections_tame; [done|]. intros e He.
    apply list_elem_of_filter in He as [He _].
    destruct Hinv as (_ & <- & _). done.
  - split; [done|]. apply tame_quiet, quiet_type_into.
  - by apply insert_fragment_tame.
Qed.

Lemma run_tame strict vs events p :
  script_inv vs p.1 → (strict → Forall arrives_paused events) →
  script_inv vs (run rt events p).1 ∧ tame strict vs p.2 (run rt events p).2.
Proof.
  intros Hinv Hnew. unfold run.
  apply (forEach_invariant
           (λ q : Script * Browser, script_inv vs q.1 ∧ tame strict vs p.2 q.2)).
  - split; [done | apply tame_refl].
  - intros ev q Hev (Hq1 & Hq2).
    destruct (dispatch_tame strict vs ev q Hq1) as [H1 H2].
    { intros Hs. by apply (proj1 (Forall_forall _ _) (Hnew Hs)). }
    split; [done | by eapply tame_trans].
Qed.

(** *** The page after load *)

Lemma querySelectorAll_under_elements b anc sel v :
  v ∈ querySelectorAll_under b anc sel →
  v ∈ (document_elements b).*1 ∧ matches (heap b) sel v = true.
Proof.
  unfold querySelectorAll_under. intros Hv.
  apply list_elem_of_fmap in Hv as (n & -> & Hn).
  apply list_elem_of_filter in Hn as [Hm Hn]. split.
  - by apply list_elem_of_fmap_2.
  - unfold matches_under in Hm. apply Is_true_true in Hm.
    by apply andb_true_iff in Hm as [? _].
Qed.

Lemma feed_videos_covered b :
  covers (querySelectorAll_under b [ClassSel "post"] [TagSel "video"]) (heap b).
Proof.
  intros v Hv. apply querySelectorAll_under_elements in Hv as [_ Hm].
  by apply matches_is_Some in Hm.
Qed.

Lemma boot_spec strict b :
  let vs := querySelectorAll_under b [ClassSel "post"] [TagSel "video"] in
  videos (boot b).1 = vs
  ∧ script_inv vs (boot b).1
  ∧ all_paused vs (heap (boot b).2)
  ∧ tame strict vs b (boot b).2.
Proof.
  intros vs. unfold boot. fold vs. cbn [fst snd videos].
  split; [done|]. split; [done|]. split.
  - apply forEach_video_pause_all.
  - apply tame_forEach. intros v b' Hv. by apply tame_video_pause.
Qed.



(** C10: a video that is not in the document when the page loads
    takes no part in playback control, whatever happens later: the
    hook called for it does nothing, the controller's list of videos
    is still the list captured at load and does not hold it, the
    observer never has it as a target, no [pause()] or [play()] is
    ever issued on it, and once it is in the heap its paused flag
    stays what it is. *)
Theorem late_video_left_alone (b0 : Browser) (events : list Event) (v : NodeId) :
  v ∉ (document_elements b0).*1 →
  let p := run rt events (boot b0) in
  observeVideo v p.1 = p.1
  ∧ videos p.1 = querySelectorAll_under b0 [ClassSel "post"] [TagSel "video"]
  ∧ (v ∉ videos p.1)
  ∧ (v ∉ observed p.1)
  ∧ (∃ calls, mediaCalls p.2 = (mediaCalls b0 ++ calls)%list
       ∧ Forall (λ c, call_target c.1 ≠ v) calls)
  ∧ (∀ more, is_Some (heap p.2 !! v) →
             is_paused (heap (run rt more p).2) v = is_paused (heap p.2) v).
Proof.
  intros Hlate p.
  destruct (boot_spec False b0) as (_ & Hinv & _ & Hboot).
  set (vs := querySelectorAll_under b0 [ClassSel "post"] [TagSel "video"]) in *.
  assert (Hv : v ∉ vs).
  { intros Hin. by apply querySelectorAll_under_elements in Hin as [? _]. }
  pose proof (feed_videos_covered b0) as Hcov0. fold vs in Hcov0.
  destruct (run_tame False vs events (boot b0) Hinv) as [Hinv' Hrun]; [done|].
  fold p in Hinv', Hrun.
  pose proof (tame_trans False vs _ _ _ Hboot Hrun) as Hall.
  destruct (Hall Hcov0) as (Hsome & _ & calls & Hcalls & Ht & _).
  destruct Hinv' as (Hvideos & Hobserved & Hcurrent).
  split; [done|]. split; [done|]. rewrite Hvideos, Hobserved.
  split; [done|]. split; [done|]. split.
  - exists calls. split; [done|]. eapply Forall_impl; [exact Ht|].
    intros c [Hc _] Heq. apply Hv. by rewrite <- Heq.
  - intros more Hsome'.
    destruct (run_tame False vs more p) as [_ Hmore]; [done | done |].
    destruct Hmore as (_ & [Hsame _] & _).
    + intros u Hu. by apply Hsome, Hcov0.
    + by apply Hsame.
Qed.

(** *** Posts that arrive later *)

Lemma forEach_reaches {A S} (P : S → Prop) (l : list A) (f : A → S → S) s a :
  a ∈ l → (∀ s, P (f a s)) → (∀ a' s, P s → P (f a' s)) → P (forEach l f s).
Proof.
  intros Ha Hhit Hkeep. unfold forEach. revert s.
  induction l as [|x l IH]; intros s; [by apply elem_of_nil in Ha|].
  cbn. apply elem_of_cons in Ha as [<-|Ha].
  - apply (forEach_invariant P); [apply Hhit|]. intros a' s' _. apply Hkeep.
  - by apply IH.
Qed.

Lemma on_added_node_keeps h node s form :
  form ∈ submitBound s → form ∈ submitBound (on_added_node h node s).
Proof.
  intros Hin. unfold on_added_node. destruct node as [n|]; [|done].
  destruct (classList_contains h n "post"); [|done].
  apply (forEach_invariant (λ s, form ∈ submitBound s)); [|done].
  destruct (querySelector_in h n [ClassSel "comment-form"]); [|done].
  cbn. apply elem_of_app. by left.
Qed.

Lemma on_added_node_binds h n s form :
  classList_contains h n "post" = true →
  querySelector_in h n [ClassSel "comment-form"] = Some form →
  form ∈ submitBound (on_added_node h (ChildElement n) s).
Proof.
  intros Hpost Hform. unfold on_added_node. rewrite Hpost, Hform.
  apply (forEach_invariant (λ s, form ∈ submitBound s)); [|done].
  cbn. apply elem_of_app. right. by left.
Qed.

Lemma on_mutations_binds h mutations s m n form :
  m ∈ mutations → ChildElement n ∈ addedNodes m →
  classList_contains h n "post" = true →
  querySelector_in h n [ClassSel "comment-form"] = Some form →
  form ∈ submitBound (on_mutations h mutations s).
Proof.
  intros Hm Hn Hpost Hform. unfold on_mutations.
  apply (forEach_reaches (λ s, form ∈ submitBound s) mutations _ s m Hm).
  - intros s'.
    apply (forEach_reaches (λ s, form ∈ submitBound s) (addedNodes m) _ s' _ Hn).
    + intros s''. by apply on_added_node_binds.
    + intros node s''. apply on_added_node_keeps.
  - intros m' s' Hs'.
    apply (forEach_invariant (λ s, form ∈ submitBound s)); [done|].
    intros node s'' _. apply on_added_node_keeps.
Qed.

(** The observer also reports what the script itself inserts under the
    container; these nodes are list items and message boxes, never
    posts, and the callback passes them by. *)
Lemma on_added_node_not_post h n s :
  classList_contains h n "post" = false → on_added_node h (ChildElement n) s = s.
Proof. intros H. unfold on_added_node. by rewrite H. Qed.

Lemma comment_item_not_post kids :
  matches_simple (set_childNodes kids (new_element "li")) (ClassSel "post") = false.
Proof. reflexivity. Qed.

Lemma message_element_not_post s data text :
  matches_simple (message_element (message_class s data) text) (ClassSel "post")
  = false.
Proof. unfold message_class. by case_bool_decide. Qed.

(** C9, as the code has it: when a tree of new nodes is appended
    anywhere inside the observed posts container and its root is
    itself a post that contains a comment form, the first such form
    gets the submit listener. *)
Theorem inserted_post_bound (p : Script * Browser) (parent root : NodeId)
    (fragment : gmap nat Element) (c form : NodeId) :
  dom fragment ∩ dom (heap p.2) = ∅ →
  root ∈ dom fragment →
  parent ∈ dom (heap p.2) →
  let p' := insert_fragment parent root fragment p in
  postsContainer p.1 = Some c →
  parent ∈ (subtree (heap p'.2) c).*1 →
  classList_contains (heap p'.2) root "post" = true →
  querySelector_in (heap p'.2) root [ClassSel "comment-form"] = Some form →
  form ∈ submitBound p'.1.
Proof.
  intros Hdisj Hroot Hparent p'. unfold p', insert_fragment.
  rewrite bool_decide_eq_true_2 by done. cbn [fst snd heap with_heap].
  intros -> Hin Hpost Hform.
  rewrite bool_decide_eq_true_2 by done.
  eapply on_mutations_binds; [by left | by left | done | done].
Qed.

(** ** Further properties of the script *)

(** *** What a handler leaves alone *)

Lemma keeps_ret {X A} (f : Browser → X) (a : A) : keeps f (ret a).
Proof. by intros b. Qed.

Lemma keeps_throw {X A} (f : Browser → X) e : keeps f (@throw A e).
Proof. by intros b. Qed.

Lemma keeps_gets {X A} (f : Browser → X) (g : Browser → A) : keeps f (gets g).
Proof. by intros b. Qed.

Lemma keeps_deref {X A} (f : Browser → X) what (x : option A) :
  keeps f (deref what x).
Proof. destruct x; [apply keeps_ret | apply keeps_throw]. Qed.

Lemma keeps_bind {X A B} (f : Browser → X) (m : JS A) (k : A → JS B) :
  keeps f m → (∀ a, keeps f (k a)) → keeps f (bind m k).
Proof.
  intros Hm Hk b. unfold bind. specialize (Hm b).
  destruct (m b) as [[a|e] b']; [|done]. cbn in Hm. by rewrite Hk.
Qed.

Lemma keeps_modify {X} (f : Browser → X) (g : Browser → Browser) :
  (∀ b, f (g b) = f b) → keeps f (modify g).
Proof. intros Hg b. apply Hg. Qed.

Lemma keeps_get_value {X} (f : Browser → X) what el : keeps f (get_value what el).
Proof. apply keeps_bind; [apply keeps_gets | intros v; apply keeps_deref]. Qed.

(** The heap is no part of the two logs. *)
Lemma keeps_emitted_createElement tag : keeps emitted (createElement tag).
Proof. by intros b. Qed.
Lemma keeps_uncaught_createElement tag : keeps uncaught (createElement tag).
Proof. by intros b. Qed.
Lemma keeps_emitted_update id g : keeps emitted (update id g).
Proof. by intros b. Qed.
Lemma keeps_uncaught_update id g : keeps uncaught (update id g).
Proof. by intros b. Qed.
Lemma keeps_emitted_appendChild x y : keeps emitted (appendChild x y).
Proof. by intros b. Qed.
Lemma keeps_uncaught_appendChild x y : keeps uncaught (appendChild x y).
Proof. by intros b. Qed.
Lemma keeps_emitted_scroll el : keeps emitted (scroll_to_end rt el).
Proof. by intros b. Qed.
Lemma keeps_uncaught_scroll el : keeps uncaught (scroll_to_end rt el).
Proof. by intros b. Qed.
Lemma keeps_uncaught_emit o : keeps uncaught (emit o).
Proof. by intros b. Qed.
Lemma keeps_emitted_set_innerHTML el text : keeps emitted (set_innerHTML rt el text).
Proof. by intros b. Qed.
Lemma keeps_uncaught_set_innerHTML el text : keeps uncaught (set_innerHTML rt el text).
Proof. by intros b. Qed.

Create HintDb keeps.
#[local] Hint Resolve keeps_ret keeps_throw keeps_gets keeps_deref keeps_get_value
  keeps_emitted_createElement keeps_uncaught_createElement
  keeps_emitted_update keeps_uncaught_update
  keeps_emitted_appendChild keeps_uncaught_appendChild
  keeps_emitted_scroll keeps_uncaught_scroll keeps_uncaught_emit
  keeps_emitted_set_innerHTML keeps_uncaught_set_innerHTML : keeps.

Ltac keeps_steps :=
  repeat first
    [ solve [auto with keeps]
    | apply keeps_bind; [|intros ?]
    | match goal with
      | |- keeps _ (match ?x with _ => _ end) => destruct x
      | |- keeps _ (if ?x then _ else _) => destruct x
      end ].

Lemma returns_ret {A} (a : A) : returns (ret a).
Proof. intros b. by exists a. Qed.

Lemma returns_gets {A} (g : Browser → A) : returns (gets g).
Proof. intros b. by eexists. Qed.

Lemma returns_modify g : returns (modify g).
Proof. intros b. by exists tt. Qed.

Lemma returns_createElement tag : returns (createElement tag).
Proof. intros b. by eexists. Qed.

Lemma returns_bind {A B} (m : JS A) (k : A → JS B) :
  returns m → (∀ a, returns (k a)) → returns (bind m k).
Proof.
  intros Hm Hk b. unfold bind. destruct (Hm b) as [a Ha].
  destruct (m b) as [c b']. cbn in Ha. subst c. apply Hk.
Qed.

Lemma returns_scroll el : returns (scroll_to_end rt el).
Proof. intros b. by exists tt. Qed.

Create HintDb returns.
#[local] Hint Resolve returns_ret returns_gets returns_modify returns_createElement
  returns_scroll : returns.

Ltac returns_steps :=
  repeat first
    [ solve [auto with returns]
    | apply returns_bind; [|intros ?]
    | match goal with
      | |- returns (match ?x with _ => _ end) => destruct x
      | |- returns (if ?x then _ else _) => destruct x
      end ].

Lemma returns_on_new_comment data : returns (on_new_comment rt data).
Proof.
  unfold on_new_comment, bump_count, append_comment, set_innerHTML, appendChild,
    update.
  returns_steps.
Qed.

Lemma returns_on_new_message s data : returns (on_new_message rt s data).
Proof.
  unfold on_new_message, render_message, appendChild, update. returns_steps.
Qed.

Lemma keeps_emitted_on_new_comment data : keeps emitted (on_new_comment rt data).
Proof. unfold on_new_comment, bump_count, append_comment. keeps_steps. Qed.

Lemma keeps_emitted_on_new_message s data :
  keeps emitted (on_new_message rt s data).
Proof. unfold on_new_message, render_message. keeps_steps. Qed.

(** A listener that returns logs no error. *)
Lemma listener_returns m b :
  returns m → listener m b = (m b).2.
Proof.
  intros Hm. unfold listener. destruct (Hm b) as [a Ha].
  destruct (m b) as [c b']. cbn in Ha. by subst c.
Qed.

Lemma listener_keeps_emitted m b : keeps emitted m → emitted (listener m b) = emitted b.
Proof.
  intros Hm. unfold listener. specialize (Hm b).
  by destruct (m b) as [[a|e] b'].
Qed.

(** The calls on media elements touch neither log. *)
Lemma forEach_logs {A} (l : list A) (f : A → Browser → Browser) b :
  (∀ a b, emitted (f a b) = emitted b ∧ uncaught (f a b) = uncaught b) →
  emitted (forEach l f b) = emitted b ∧ uncaught (forEach l f b) = uncaught b.
Proof.
  intros Hf.
  apply (forEach_invariant (λ b', emitted b' = emitted b ∧ uncaught b' = uncaught b));
    [done|].
  intros a b' _ [<- <-]. apply Hf.
Qed.

Lemma pause_if_playing_logs v b :
  emitted (pause_if_playing v b) = emitted b
  ∧ uncaught (pause_if_playing v b) = uncaught b.
Proof. unfold pause_if_playing. by destruct (negb _). Qed.

Lemma pause_all_logs p :
  emitted (pause_all p).2 = emitted p.2 ∧ uncaught (pause_all p).2 = uncaught p.2.
Proof. unfold pause_all. cbn [snd]. by apply forEach_logs. Qed.

Lemma pause_others_logs vid s b :
  emitted (pause_others vid s b) = emitted b
  ∧ uncaught (pause_others vid s b) = uncaught b.
Proof.
  unfold pause_others.
  set (b1 := match current s with
             | Some c => if bool_decide (c ≠ vid) then video_pause c b else b
             | None => b
             end).
  assert (H1 : emitted b1 = emitted b ∧ uncaught b1 = uncaught b).
  { unfold b1. destruct (current s); [|done]. by case_bool_decide. }
  destruct H1 as [<- <-]. apply forEach_logs. intros v b'.
  case_bool_decide; [apply pause_if_playing_logs | done].
Qed.

Lemma on_intersections_logs entries p :
  emitted (on_intersections entries p).2 = emitted p.2
  ∧ uncaught (on_intersections entries p).2 = uncaught p.2.
Proof.
  unfold on_intersections.
  apply (forEach_invariant
           (λ q : Script * Browser,
              emitted q.2 = emitted p.2 ∧ uncaught q.2 = uncaught p.2)); [done|].
  intros e q _ [<- <-]. unfold on_entry. destruct (dominant e); cbn [snd].
  - apply pause_others_logs.
  - apply pause_if_playing_logs.
Qed.

Lemma pause_all_repeated_logs {A} (l : list A) p :
  emitted (forEach l (λ _, on_img_click) p).2 = emitted p.2
  ∧ uncaught (forEach l (λ _, on_img_click) p).2 = uncaught p.2.
Proof.
  apply (forEach_invariant
           (λ q : Script * Browser,
              emitted q.2 = emitted p.2 ∧ uncaught q.2 = uncaught p.2)); [done|].
  intros _ q _ [<- <-]. apply pause_all_logs.
Qed.

(** Away from the send button a click runs the pause listeners only. *)
Lemma click_path_logs l p :
  (∀ sb, btn p.1 = Some sb → sb ∉ l) →
  emitted (forEach l (click_at rt) p).2 = emitted p.2
  ∧ uncaught (forEach l (click_at rt) p).2 = uncaught p.2.
Proof.
  intros Hoff.
  enough ((emitted (forEach l (click_at rt) p).2 = emitted p.2
           ∧ uncaught (forEach l (click_at rt) p).2 = uncaught p.2)
          ∧ btn (forEach l (click_at rt) p).1 = btn p.1) by tauto.
  apply (forEach_invariant
           (λ q : Script * Browser,
              (emitted q.2 = emitted p.2 ∧ uncaught q.2 = uncaught p.2)
              ∧ btn q.1 = btn p.1)); [done|].
  intros n q Hn [[<- <-] Hb]. split.
  - unfold click_at. rewrite bool_decide_eq_false_2.
    + apply pause_all_repeated_logs.
    + rewrite Hb. intros Hsb. by apply (Hoff n).
  - rewrite <- Hb. apply same_but_current_btn, click_at_script.
Qed.

(** X2: only a click that reaches the send button (a click on it or
    on a node inside it), Enter that reaches the chat input, or the
    submit of a bound form or of a form inside one can emit an event
    or throw: every other
    event (socket events, intersection batches, pause signals, clicks
    elsewhere, other keys, typing, insertions) leaves the list of
    emitted events and the list of uncaught errors as they were. *)
Theorem only_user_sends_emit_or_throw (ev : Event) (p : Script * Browser) :
  ¬ user_send p ev →
  emitted (dispatch rt ev p).2 = emitted p.2
  ∧ uncaught (dispatch rt ev p).2 = uncaught p.2.
Proof.
  intros Hnot. destruct ev; cbn [dispatch fst snd]; cbn in Hnot.
  - rewrite listener_returns by apply returns_on_new_comment.
    split; [apply keeps_emitted_on_new_comment|].
    assert (K : keeps uncaught (on_new_comment rt data)); [|apply K].
    unfold on_new_comment, bump_count, append_comment. keeps_steps.
  - rewrite listener_returns by apply returns_on_new_message.
    split; [apply keeps_emitted_on_new_message|].
    assert (K : keeps uncaught (on_new_message rt p.1 data)); [|apply K].
    unfold on_new_message, render_message. keeps_steps.
  - apply click_path_logs. intros sb Hsb Hin. apply Hnot. by exists sb.
  - destruct (input p.1) as [i|] eqn:Hi; [|done].
    case_bool_decide as Hin; [|done]. unfold on_keypress.
    case_bool_decide as Hkey; [|done]. destruct Hnot. split; [|done]. by exists i.
  - unfold dispatch_submit. cbn [fst snd].
    assert (filter (λ f, f = form) (submitBound p.1) = []) as ->; [|done].
    apply filter_absent. intros Hin. apply Hnot. exists form.
    split; [done | apply target_in_path].
  - unfold on_visibilitychange. cbn [snd with_hidden hidden].
    destruct nowHidden; [|done].
    apply (pause_all_logs (p.1, with_hidden true p.2)).
  - apply pause_all_logs.
  - apply on_intersections_logs.
  - done.
  - unfold insert_fragment. by case_bool_decide.
Qed.

(** *** What is sent, and how often *)

Lemma listener_emitted m b : emitted (listener m b) = emitted (m b).2.
Proof. unfold listener. by destruct (m b) as [[a|e] b']. Qed.

Lemma listener_heap m b : heap (listener m b) = heap (m b).2.
Proof. unfold listener. by destruct (m b) as [[a|e] b']. Qed.

Lemma emit_then {A} (o : Outbound) (k : JS A) b :
  keeps emitted k →
  emitted ((do _ <- emit o; k) b).2 = (emitted b ++ [o])%list.
Proof. intros Hk. unfold bind, emit, modify. by rewrite Hk. Qed.

(** The click listener of the send button emits nothing, or the
    trimmed, non-empty text of the chat input, to the recipient of the
    page. *)
Lemma on_send_click_emits s b :
  emitted (on_send_click rt s b).2 = emitted b
  ∨ ∃ i v, input s = Some i ∧ value_of (heap b) i = Some v ∧ trim v ≠ ""
           ∧ emitted (on_send_click rt s b).2
             = (emitted b ++ [SendMessage (chat_user rt) (trim v)])%list.
Proof.
  remember (on_send_click rt s b) as r eqn:Hr. revert Hr.
  unfold on_send_click. destruct (input s) as [i|]; [|by intros ->; left]. cbn [deref].
  unfold bind at 1. cbn [ret]. unfold get_value, bind at 1. unfold bind at 1.
  unfold gets at 1. destruct (heap b !! i ≫= value) as [v|] eqn:Hv;
    [|by intros ->; left].
  cbn [deref ret]. case_bool_decide as Hblank; [by intros ->; left|].
  intros ->. right. exists i, v. split; [done|]. split; [done|]. split; [done|].
  apply emit_then. keeps_steps.
Qed.

(** The listeners a click meets on its way up send at most one
    message: the text the chat input holds when the click starts. *)
Lemma click_path_emits (l : list NodeId) q :
  NoDup l →
  ∃ sent, emitted (forEach l (click_at rt) q).2 = (emitted q.2 ++ sent)%list
    ∧ (sent = []
       ∨ ∃ i v, input q.1 = Some i ∧ value_of (heap q.2) i = Some v ∧ trim v ≠ ""
                ∧ sent = [SendMessage (chat_user rt) (trim v)]).
Proof.
  intros Hnd. revert q. induction Hnd as [|n l Hn Hnd IH]; intros q.
  { exists []. split; [by rewrite app_nil_r | by left]. }
  rewrite forEach_cons.
  assert (Hscript : set_current None (click_at rt n q).1 = set_current None q.1)
    by apply click_at_script.
  destruct (decide (btn q.1 = Some n)) as [Hb|Hb].
  - assert (Hrest : emitted (forEach l (click_at rt) (click_at rt n q)).2
                    = emitted (click_at rt n q).2).
    { apply click_path_logs. intros sb Hsb.
      rewrite (same_but_current_btn _ _ Hscript), Hb in Hsb. congruence. }
    rewrite Hrest. unfold click_at. rewrite bool_decide_eq_true_2 by done.
    rewrite (proj1 (pause_all_repeated_logs _ _)). cbn [fst snd].
    rewrite listener_emitted.
    destruct (on_send_click_emits q.1 q.2) as [Hsame | (i & v & Hi & Hv & Hne & Hsent)].
    + exists []. split; [by rewrite app_nil_r | by left].
    + eexists. split; [exact Hsent|]. right. by exists i, v.
  - assert (Hstep : click_at rt n q
                    = forEach (filter (λ i, i = n) (imgBound q.1)) (λ _, on_img_click) q).
    { unfold click_at. by rewrite bool_decide_eq_false_2. }
    assert (Hkeep : emitted (click_at rt n q).2 = emitted q.2
                    ∧ ∀ i, value_of (heap (click_at rt n q).2) i = value_of (heap q.2) i).
    { rewrite Hstep.
      apply (forEach_invariant
               (λ r : Script * Browser,
                  emitted r.2 = emitted q.2
                  ∧ ∀ i, value_of (heap r.2) i = value_of (heap q.2) i)); [done|].
      intros _ r _ [He Hv]. unfold on_img_click. split.
      - by rewrite (proj1 (pause_all_logs r)).
      - intros i. by rewrite pause_all_value. }
    destruct Hkeep as [He Hv].
    destruct (IH (click_at rt n q)) as (sent & Hsent & Hcase).
    exists sent. split; [by rewrite Hsent, He|].
    destruct Hcase as [-> | (i & v & Hi & Hvi & Hne & ->)]; [by left|].
    right. exists i, v. split; [|by rewrite <- Hv].
    apply (f_equal input) in Hscript. cbn in Hscript. congruence.
Qed.

Lemma set_value_skeleton h i s : same_skeleton h (alter (set_value s) i h).
Proof.
  intros id. destruct (decide (id = i)) as [->|Hne].
  - rewrite lookup_alter_eq. by destruct (h !! i).
  - by rewrite lookup_alter_ne.
Qed.

(** The submit listener, step by step. *)
Lemma on_submit_unfold form b :
  on_submit form b
  = match querySelector_in (heap b) form [TagSel "input"; AttrSel "name" "comment"] with
    | None => (Throw (TypeError "input is null"), b)
    | Some i =>
        match value_of (heap b) i with
        | None => (Throw (TypeError "input.value is undefined"), b)
        | Some v =>
            if bool_decide (trim v = "") then (Normal tt, b)
            else (Normal tt,
                  sent_from (SendComment (parseInt_opt (getAttribute b form "data-post-id"))
                                         (trim v)) i b)
        end
    end.
Proof.
  unfold on_submit. unfold bind at 1. unfold gets at 1.
  destruct (querySelector_in (heap b) form _) as [i|]; [|done].
  cbn [deref]. unfold bind at 1. cbn [ret].
  unfold get_value, bind at 1. unfold bind at 1. unfold gets at 1.
  unfold value_of. destruct (heap b !! i ≫= value) as [v|]; [|done].
  cbn [deref ret]. by case_bool_decide.
Qed.

(** The three ways a submit listener ends: it throws before it has
    done anything, it finds nothing to send, or it sends the trimmed
    content with the post id of the form and clears the field. *)
Lemma on_submit_cases form b :
  (∃ e, on_submit form b = (Throw e, b))
  ∨ on_submit form b = (Normal tt, b)
  ∨ ∃ i v,
      querySelector_in (heap b) form [TagSel "input"; AttrSel "name" "comment"] = Some i
      ∧ value_of (heap b) i = Some v ∧ trim v ≠ ""
      ∧ on_submit form b
        = (Normal tt,
           sent_from (SendComment (parseInt_opt (getAttribute b form "data-post-id"))
                                  (trim v)) i b).
Proof.
  rewrite on_submit_unfold.
  destruct (querySelector_in (heap b) form _) as [i|] eqn:Hq;
    [|left; by eexists].
  destruct (value_of (heap b) i) as [v|] eqn:Hv; [|left; by eexists].
  case_bool_decide as Hblank; [by right; left|].
  right; right. by exists i, v.
Qed.

Lemma sent_from_spent form o i v b :
  querySelector_in (heap b) form [TagSel "input"; AttrSel "name" "comment"] = Some i →
  value_of (heap b) i = Some v →
  spent form (heap (sent_from o i b)).
Proof.
  intros Hq Hv. exists i. cbn. split.
  - by rewrite <- (querySelector_in_skeleton (heap b)) by apply set_value_skeleton.
  - unfold value_of in *. rewrite lookup_alter_eq.
    destruct (heap b !! i); [done | discriminate].
Qed.

Lemma spent_on_submit form b : spent form (heap b) → on_submit form b = (Normal tt, b).
Proof. intros (i & Hq & Hv). by apply (on_submit_blank b form i ""). Qed.

(** Once the field is spent, the further listeners of the same form
    find nothing to send. *)
Lemma spent_listeners form (l : list NodeId) b :
  spent form (heap b) →
  forEach l (λ _, listener (on_submit form)) b = b.
Proof.
  intros Hs. unfold forEach. induction l as [|f l IH]; [done|].
  cbn. unfold listener at 2. by rewrite spent_on_submit.
Qed.

Lemma dispatch_submit_eq form p :
  dispatch_submit form p
  = (p.1, forEach (filter (λ f, f = form) (submitBound p.1))
                  (λ _, listener (on_submit form)) p.2).
Proof.
  unfold dispatch_submit. f_equal.
  generalize (p.2). unfold forEach.
  induction (submitBound p.1) as [|f l IH]; intros b; [done|].
  destruct (decide (f = form)) as [->|Hne].
  - rewrite filter_cons_True by done. cbn. apply IH.
  - rewrite filter_cons_False by done. apply IH.
Qed.

Lemma listener_normal m b a b' : m b = (Normal a, b') → listener m b = b'.
Proof. unfold listener. by intros ->. Qed.

Lemma listener_throw m b e b' : m b = (Throw e, b') → listener m b = with_uncaught e b'.
Proof. unfold listener. by intros ->. Qed.

(** The listeners of a form together send at most once: the text the
    comment field of the form holds when the first of them runs. *)
Lemma submit_listeners_emit form (l : list NodeId) b :
  ∃ sent, emitted (forEach l (λ _, listener (on_submit form)) b)
          = (emitted b ++ sent)%list
    ∧ (sent = []
       ∨ ∃ i v,
           l ≠ []
           ∧ querySelector_in (heap b) form [TagSel "input"; AttrSel "name" "comment"]
             = Some i
           ∧ value_of (heap b) i = Some v
           ∧ trim v ≠ ""
           ∧ sent = [SendComment (parseInt_opt (getAttribute b form "data-post-id"))
                                 (trim v)]).
Proof.
  revert b. induction l as [|f l IH]; intros b.
  { exists []. split; [by rewrite app_nil_r | by left]. }
  change (forEach (f :: l) ?g b) with (forEach l g (g f b)). cbn beta.
  destruct (on_submit_cases form b) as [[e He] | [Hb | (i & v & Hq & Hv & Hne & Hrun)]].
  - rewrite (listener_throw _ _ _ _ He).
    destruct (IH (with_uncaught e b)) as (sent & Hsent & Hcase).
    exists sent. split; [done|].
    destruct Hcase as [-> | (i & v & _ & Hq & Hv & Hne & ->)]; [by left|].
    right. by exists i, v.
  - rewrite (listener_normal _ _ _ _ Hb).
    destruct (IH b) as (sent & Hsent & Hcase).
    exists sent. split; [done|].
    destruct Hcase as [-> | (i & v & _ & Hq & Hv & Hne & ->)]; [by left|].
    right. by exists i, v.
  - rewrite (listener_normal _ _ _ _ Hrun).
    rewrite spent_listeners by by eapply sent_from_spent.
    eexists. split; [reflexivity|]. right. by exists i, v.
Qed.

(** X1: whatever the page and the event, a submit being that of a
    form in no other bound form, a dispatch adds at most one
    event to those emitted on the socket.  A message that is added
    goes to the recipient of the page and carries the trimmed text,
    never empty, that the chat input held before the event; a comment
    that is added comes from the submit of a bound form and carries
    the trimmed text, never empty, that the comment field of that
    form held before the event, with the post id of the form. *)
Theorem at_most_one_emission (ev : Event) (p : Script * Browser) :
  lone_form p ev →
  ∃ l, emitted (dispatch rt ev p).2 = (emitted p.2 ++ l)%list
       ∧ (length l ≤ 1)%nat
       ∧ Forall (sendable rt ev p) l.
Proof.
  intros _.
  assert (Hnone : ∀ q : Script * Browser, emitted q.2 = emitted p.2 →
            ∃ l, emitted q.2 = (emitted p.2 ++ l)%list
                 ∧ (length l ≤ 1)%nat ∧ Forall (sendable rt ev p) l).
  { intros q Hq. exists []. rewrite Hq, app_nil_r. repeat split; [cbn; lia | constructor]. }
  assert (Hclick : ∀ t, ∃ l,
            emitted (dispatch_click rt t p).2 = (emitted p.2 ++ l)%list
            ∧ (length l ≤ 1)%nat ∧ Forall (sendable rt ev p) l).
  { intros t. unfold dispatch_click.
    destruct (click_path_emits (event_path (heap p.2) t) p (event_path_NoDup _ _))
      as (sent & Hsent & [-> | (i & v & Hi & Hv & Hne & ->)]).
    - exists []. split; [exact Hsent|]. split; [cbn; lia | constructor].
    - eexists. split; [exact Hsent|]. split; [cbn; lia|].
      constructor; [|constructor]. cbn. split; [done|]. split; [done|].
      by exists i, v. }
  destruct ev; cbn [dispatch].
  - apply Hnone. cbn [snd]. apply listener_keeps_emitted, keeps_emitted_on_new_comment.
  - apply Hnone. cbn [snd]. apply listener_keeps_emitted, keeps_emitted_on_new_message.
  - apply Hclick.
  - destruct (input p.1) as [i|]; [|by apply Hnone].
    case_bool_decide; [|by apply Hnone]. unfold on_keypress.
    case_bool_decide; [|by apply Hnone].
    destruct (btn p.1) as [sb|]; [|by apply Hnone].
    destruct (is_disabled (heap p.2) sb); [by apply Hnone | apply Hclick].
  - rewrite dispatch_submit_eq. cbn [snd].
    destruct (submit_listeners_emit form (filter (λ f, f = form) (submitBound p.1)) p.2)
      as (sent & Hsent & [-> | (i & v & Hl & Hq & Hv & Hne & ->)]).
    + exists []. split; [exact Hsent|]. split; [cbn; lia | constructor].
    + eexists. split; [exact Hsent|]. split; [cbn; lia|].
      constructor; [|constructor]. cbn. split; [done|].
      exists form, i, v. split; [done|]. split; [|done].
      destruct (decide (form ∈ submitBound p.1)) as [Hin|Hout]; [done|].
      by rewrite (filter_absent form _ Hout) in Hl.
  - apply Hnone. unfold on_visibilitychange. cbn [snd with_hidden hidden].
    destruct nowHidden; [|done].
    apply (pause_all_logs (p.1, with_hidden true p.2)).
  - apply Hnone, pause_all_logs.
  - apply Hnone, on_intersections_logs.
  - by apply Hnone.
  - apply Hnone. unfold insert_fragment. by case_bool_decide.
Qed.


(** *** Sending a chat message *)

(** The click listener on a text that is not blank. *)
Lemma on_send_click_sends s b i m v :
  input s = Some i → messagesDiv s = Some m → i ≠ m →
  value_of (heap b) i = Some v → trim v ≠ "" →
  is_Some (heap b !! m) →
  let d := fresh (dom (heap b)) in
  let appended := with_child m d (message_element "message from-me" (trim v)) (heap b) in
  ∃ b', on_send_click rt s b = (Normal tt, b')
    ∧ emitted b' = (emitted b ++ [SendMessage (chat_user rt) (trim v)])%list
    ∧ heap b' !! d = Some (message_element "message from-me" (trim v))
    ∧ children_of (heap b') m = (children_of (heap b) m ++ [ChildElement d])%list
    ∧ ((0 ≤ clientHeight rt appended m)%Z →
       scrollTop <$> heap b' !! m = Some (max_scroll rt appended m))
    ∧ value_of (heap b') i = Some ""
    ∧ (∀ n, n ≠ d → n ≠ m → n ≠ i → heap b' !! n = heap b !! n)
    ∧ uncaught b' = uncaught b
    ∧ mediaCalls b' = mediaCalls b.
Proof.
  intros Hi Hm Hne Hv Htext [me Hme] d appended.
  assert (Hdm : d ≠ m) by (apply fresh_not_in_heap; eauto).
  assert (Hdi : d ≠ i).
  { apply fresh_not_in_heap. unfold value_of in Hv.
    destruct (heap b !! i); [eauto | done]. }
  unfold on_send_click. rewrite Hi, Hm. cbn [deref].
  unfold bind at 1. cbn [ret].
  unfold get_value, bind at 1. unfold bind at 1. unfold gets at 1.
  unfold value_of in Hv. rewrite Hv. cbn [deref ret].
  rewrite bool_decide_eq_false_2 by done.
  eexists. split; [reflexivity|].
  cbn -[fresh alter insert max_scroll trim]. fold d.
  rewrite !alter_insert_eq.
  change (alter _ m (<[d:=_]> (heap b))) with appended.
  assert (Hm' : appended !! m
                = Some (set_childNodes (childNodes me ++ [ChildElement d]) me)).
  { unfold appended, with_child.
    by rewrite lookup_alter_eq, lookup_insert_ne, Hme. }
  assert (Hd' : appended !! d = Some (message_element "message from-me" (trim v))).
  { unfold appended, with_child.
    by rewrite lookup_alter_ne, lookup_insert_eq. }
  assert (Hi' : appended !! i = heap b !! i).
  { unfold appended, with_child.
    by rewrite lookup_alter_ne, lookup_insert_ne. }
  repeat split.
  - by rewrite !lookup_alter_ne, Hd'.
  - unfold children_of.
    by rewrite lookup_alter_ne, lookup_alter_eq, Hm', Hme.
  - intros Hclient.
    rewrite lookup_alter_ne, lookup_alter_eq, Hm' by done. cbn.
    unfold max_scroll. do 2 f_equal. lia.
  - unfold value_of. rewrite lookup_alter_eq, lookup_alter_ne, Hi' by done.
    destruct (heap b !! i); [done | discriminate].
  - intros n Hnd Hnm Hni. rewrite !lookup_alter_ne by done.
    unfold appended, with_child. by rewrite lookup_alter_ne, lookup_insert_ne.
Qed.

(** X4: a click on the send button or inside it, or Enter in the chat
    input, while the button is not disabled, with a text that is not
    blank: [send_message] leaves with the page's recipient and the
    trimmed text, a [from-me] message with that text is appended to
    the chat container, which is scrolled to its end, the input is
    cleared; no other node of the page changes, no video is touched,
    nothing is thrown; and the click listener, run once more right
    away, finds the input empty and changes nothing. *)
Theorem send_message_effect (s : Script) (b : Browser) (t i m : NodeId)
    (v : string) (ev : Event) :
  btn s = Some t →
  input s = Some i → messagesDiv s = Some m → i ≠ m →
  send_action s (heap b) t i ev →
  value_of (heap b) i = Some v → trim v ≠ "" →
  is_Some (heap b !! m) →
  let d := fresh (dom (heap b)) in
  let appended := with_child m d (message_element "message from-me" (trim v)) (heap b) in
  ∃ b', dispatch rt ev (s, b) = (s, b')
    ∧ emitted b' = (emitted b ++ [SendMessage (chat_user rt) (trim v)])%list
    ∧ heap b' !! d = Some (message_element "message from-me" (trim v))
    ∧ children_of (heap b') m = (children_of (heap b) m ++ [ChildElement d])%list
    ∧ ((0 ≤ clientHeight rt appended m)%Z →
       scrollTop <$> heap b' !! m = Some (max_scroll rt appended m))
    ∧ value_of (heap b') i = Some ""
    ∧ (∀ n, n ≠ d → n ≠ m → n ≠ i → heap b' !! n = heap b !! n)
    ∧ uncaught b' = uncaught b
    ∧ mediaCalls b' = mediaCalls b
    ∧ listener (on_send_click rt s) b' = b'.
Proof.
  intros Hb Hi Hm Hne Hev Hv Htext Hme d appended.
  destruct (on_send_click_sends s b i m v Hi Hm Hne Hv Htext Hme)
    as (b' & Hrun & Hemit & Hd & Hch & Hscroll & Hval & Hframe & Hunc & Hmedia).
  exists b'. split.
  - destruct Hev as [t' Hin _ Hclear | k Hin Hable Hclear]; cbn [dispatch fst snd].
    + rewrite dispatch_click_clear by done. unfold on_path. rewrite Hb.
      rewrite bool_decide_eq_true_2 by done.
      by rewrite (listener_normal _ _ _ _ Hrun).
    + rewrite Hi, bool_decide_eq_true_2 by done. unfold on_keypress.
      rewrite bool_decide_eq_true_2 by done. cbn [fst snd]. rewrite Hb, Hable.
      rewrite dispatch_click_button by done.
      by rewrite (listener_normal _ _ _ _ Hrun).
  - do 8 (split; [done|]).
    by apply (listener_normal _ _ tt), (on_send_click_blank s b' i "").
Qed.

(** *** The load handler *)

Lemma forEach_video_pause_lookup vs b n :
  heap (forEach vs video_pause b) !! n
  = if bool_decide (n ∈ vs) then set_paused true <$> heap b !! n else heap b !! n.
Proof.
  revert b. induction vs as [|v vs IH]; intros b; [done|].
  change (forEach (v :: vs) video_pause b) with (forEach vs video_pause (video_pause v b)).
  rewrite IH. cbn [video_pause media_call with_heap heap with_mediaCall apply_call].
  destruct (decide (n = v)) as [->|Hne].
  - rewrite lookup_alter_eq, (bool_decide_eq_true_2 (v ∈ v :: vs)) by left.
    destruct (heap b !! v); by case_bool_decide.
  - rewrite lookup_alter_ne by done.
    case_bool_decide as Hin.
    + rewrite bool_decide_eq_true_2; [done | by right].
    + rewrite bool_decide_eq_false_2; [done|].
      intros [?|?]%elem_of_cons; done.
Qed.

Lemma forEach_video_pause_calls vs b :
  (mediaCalls (forEach vs video_pause b)).*1
  = ((mediaCalls b).*1 ++ (CallPause <$> vs))%list.
Proof.
  revert b. induction vs as [|v vs IH]; intros b; [by rewrite app_nil_r|].
  change (forEach (v :: vs) video_pause b) with (forEach vs video_pause (video_pause v b)).
  rewrite IH. cbn. by rewrite fmap_app, <- app_assoc.
Qed.

Lemma video_pause_logs v b :
  emitted (video_pause v b) = emitted b ∧ uncaught (video_pause v b) = uncaught b.
Proof. done. Qed.

Lemma pause_skeleton vs b : same_skeleton (heap b) (heap (forEach vs video_pause b)).
Proof.
  intros id. rewrite forEach_video_pause_lookup.
  case_bool_decide; [|done]. by destruct (heap b !! id).
Qed.

Lemma filter_matches_under_skeleton h h' anc sel (l : list (NodeId * list NodeId)) :
  same_skeleton h h' →
  filter (λ n, matches_under h anc sel n) l = filter (λ n, matches_under h' anc sel n) l.
Proof.
  intros Hs. apply list_filter_iff. intros n.
  assert (matches_under h anc sel n = matches_under h' anc sel n) as ->; [|done].
  unfold matches_under. rewrite (matches_skeleton _ _ _ _ Hs). f_equal.
  induction (n.2) as [|a l' IH]; [done|]. cbn.
  by rewrite IH, (matches_skeleton _ _ _ _ Hs).
Qed.

Lemma querySelectorAll_under_skeleton b b' anc sel :
  same_skeleton (heap b) (heap b') → documentElement b' = documentElement b →
  querySelectorAll_under b' anc sel = querySelectorAll_under b anc sel.
Proof.
  intros Hs Hroot. unfold querySelectorAll_under, document_elements, subtree.
  rewrite Hroot, <- (same_skeleton_size _ _ Hs), <- (walk_skeleton _ _ _ _ _ Hs).
  f_equal. symmetry. by apply filter_matches_under_skeleton.
Qed.

Lemma forEach_video_pause_root vs b :
  documentElement (forEach vs video_pause b) = documentElement b.
Proof. by apply (forEach_invariant (λ b', documentElement b' = documentElement b)). Qed.

(** An element found by its id carries that id. *)
Lemma getElementById_id b id n :
  getElementById b id = Some n →
  ∃ e, heap b !! n = Some e ∧ attribute "id" (attributes e) = Some id.
Proof.
  intros H. apply first_match_matches in H. unfold matches in H.
  destruct (heap b !! n) as [e|]; [|done]. exists e. split; [done|].
  cbn in H. rewrite andb_true_r in H. by apply bool_decide_eq_true in H.
Qed.

Lemma getElementById_apart b id id' n n' :
  id ≠ id' → getElementById b id = Some n → getElementById b id' = Some n' → n ≠ n'.
Proof.
  intros Hne (e & He & Hid)%getElementById_id (e' & He' & Hid')%getElementById_id ->.
  congruence.
Qed.

(** X5: what the load handler leaves behind.  Every video found under
    a post is paused by one [pause()] each, in document order, and is
    observed; no video is current; nothing else in the page changes: a
    node that is no feed video is as it was and a feed video differs at
    most in its [paused] flag; nothing is emitted or thrown.  The
    image listeners are those of the images under a post, the submit
    listeners those of the comment forms of the document.  The chat
    input, the send button and the chat container, where found, are
    three different elements that carry the ids asked for, and the
    container observed for new posts is [#posts] where it exists. *)
Theorem load_handler_effect (b : Browser) :
  let s := (boot b).1 in
  let b' := (boot b).2 in
  let vs := querySelectorAll_under b [ClassSel "post"] [TagSel "video"] in
  (videos s = vs ∧ observed s = vs ∧ current s = None)
  ∧ all_paused vs (heap b')
  ∧ (mediaCalls b').*1 = ((mediaCalls b).*1 ++ (CallPause <$> vs))%list
  ∧ (∀ n, n ∉ vs → heap b' !! n = heap b !! n)
  ∧ (∀ n, n ∈ vs → heap b' !! n = set_paused true <$> heap b !! n)
  ∧ (emitted b' = emitted b ∧ uncaught b' = uncaught b)
  ∧ imgBound s = querySelectorAll_under b [ClassSel "post"] [TagSel "img"]
  ∧ submitBound s = querySelectorAll b [ClassSel "comment-form"]
  ∧ (∀ i t, input s = Some i → btn s = Some t → i ≠ t)
  ∧ (∀ i m, input s = Some i → messagesDiv s = Some m → i ≠ m)
  ∧ (∀ t m, btn s = Some t → messagesDiv s = Some m → t ≠ m)
  ∧ (∀ c, getElementById b "posts" = Some c → postsContainer s = Some c)
  ∧ (∀ c, postsContainer s = Some c →
          getElementById b "posts" = Some c
          ∨ (getElementById b "posts" = None
             ∧ getElementById b "profile-posts" = Some c)).
Proof.
  intros s b' vs. unfold s, b', boot. fold vs.
  cbn [fst snd videos observed current imgBound submitBound input btn messagesDiv
       postsContainer].
  split; [done|]. split; [apply forEach_video_pause_all|].
  split; [apply forEach_video_pause_calls|].
  split. { intros n Hn. rewrite forEach_video_pause_lookup.
           by rewrite bool_decide_eq_false_2. }
  split. { intros n Hn. rewrite forEach_video_pause_lookup.
           by rewrite bool_decide_eq_true_2. }
  split. { apply forEach_logs. intros v b0. apply video_pause_logs. }
  split. { apply querySelectorAll_under_skeleton;
             [apply pause_skeleton | apply forEach_video_pause_root]. }
  split; [done|].
  split. { intros i t Hi Ht. by apply (getElementById_apart b "messageInput" "sendBtn"). }
  split. { intros i m Hi Hm. by apply (getElementById_apart b "messageInput" "messages"). }
  split. { intros t m Ht Hm. by apply (getElementById_apart b "sendBtn" "messages"). }
  split. { by intros c ->. }
  intros c Hc. destruct (getElementById b "posts"); [by left | by right].
Qed.

(** *** Batches of the intersection observer *)

Lemma pause_if_playing_lookup v b n :
  n ≠ v ∨ is_paused (heap b) n = true →
  heap (pause_if_playing v b) !! n = heap b !! n.
Proof.
  intros Hn. unfold pause_if_playing.
  destruct (is_paused (heap b) v) eqn:Hv; [done|]. cbn.
  rewrite lookup_alter_ne; [done|]. intros ->. destruct Hn; congruence.
Qed.

Lemma pause_if_playing_calls v b :
  mediaCalls (pause_if_playing v b)
  = (mediaCalls b ++ if is_paused (heap b) v then [] else [(CallPause v, heap b)])%list.
Proof.
  unfold pause_if_playing. destruct (is_paused (heap b) v); [|done].
  by rewrite app_nil_r.
Qed.

(** A batch without a dominant entry only pauses: the script's state
    stays, the targets end paused, a node that is no target or is
    already paused stays as it is, and [pause()] is called on targets
    that were playing, and on nothing else. *)
Lemma calm_entries (l : list Entry) (p : Script * Browser) :
  Forall (λ x, dominant x = false) l →
  let p' := on_intersections l p in
  p'.1 = p.1
  ∧ (∀ x, x ∈ l → is_paused (heap p'.2) (target x) = true)
  ∧ (∀ n, n ∉ target <$> l ∨ is_paused (heap p.2) n = true →
          heap p'.2 !! n = heap p.2 !! n)
  ∧ ∃ calls, mediaCalls p'.2 = (mediaCalls p.2 ++ calls)%list
      ∧ Forall (λ c, ∃ v, c.1 = CallPause v ∧ v ∈ target <$> l
                          ∧ is_paused (heap p.2) v = false) calls.
Proof.
  intros Hl. revert p. induction Hl as [|x l Hx Hl IH]; intros p.
  { cbn. repeat split; try done.
    - intros x Hx. by apply elem_of_nil in Hx.
    - exists []. by rewrite app_nil_r. }
  cbn zeta. unfold on_intersections. rewrite forEach_cons.
  rewrite (on_entry_not_dominant x p Hx).
  set (b1 := pause_if_playing (target x) p.2).
  destruct (IH (p.1, b1)) as (Hs & Hpaused & Hframe & calls & Hcalls & Hall).
  cbn [fst snd] in *. fold (on_intersections l (p.1, b1)).
  assert (Hmono : ∀ n, is_paused (heap p.2) n = true → is_paused (heap b1) n = true).
  { intros n Hn. by apply pause_if_playing_mono. }
  split; [done|]. split; [|split].
  - intros y [->|Hy]%elem_of_cons; [|by apply Hpaused].
    assert (H1 : is_paused (heap b1) (target x) = true)
      by apply pause_if_playing_paused.
    unfold is_paused. rewrite Hframe by by right. exact H1.
  - intros n Hn. rewrite Hframe.
    + apply pause_if_playing_lookup. destruct Hn as [Hn | Hn]; [left | by right].
      intros ->. apply Hn. cbn. left.
    + destruct Hn as [Hn | Hn]; [left | right; by apply Hmono].
      intros Hin. apply Hn. cbn. by right.
  - rewrite Hcalls. unfold b1 at 1. rewrite pause_if_playing_calls, <- app_assoc.
    eexists. split; [reflexivity|]. apply Forall_app. split.
    + destruct (is_paused (heap p.2) (target x)) eqn:Hp; constructor; [|constructor].
      exists (target x). split; [done|]. split; [cbn; left | done].
    + eapply Forall_impl; [exact Hall|]. intros c (v & Hc & Hv & Hplay).
      exists v. split; [done|]. split; [cbn; by right|].
      destruct (is_paused (heap p.2) v) eqn:Hp; [|done].
      by rewrite (Hmono v Hp) in Hplay.
Qed.

Lemma elem_of_observed_targets (s : Script) (l : list Entry) n :
  n ∈ target <$> filter (λ e, target e ∈ observed s) l
  ↔ n ∈ target <$> l ∧ n ∈ observed s.
Proof.
  rewrite !list_elem_of_fmap. split.
  - intros (x & -> & [Ho Hx]%list_elem_of_filter). split; [by exists x | done].
  - intros [(x & -> & Hx) Ho]. exists x. split; [done|].
    by apply list_elem_of_filter.
Qed.

(** X8: a batch in which no entry is dominant only pauses.  The
    script's variables stay as they are ([current] too, even when the
    video it names is paused by the batch); every observed target
    ends paused; a node that is no observed target of the batch, or
    that was paused already, is left exactly as it was; [pause()] is
    called only on observed targets that were playing, [play()] never;
    and when every target was paused the batch changes nothing. *)
Theorem calm_batch_only_pauses (s : Script) (b : Browser) (entries : list Entry) :
  Forall (λ x, dominant x = false) entries →
  let p' := dispatch rt (Intersect entries) (s, b) in
  p'.1 = s
  ∧ (∀ x, x ∈ entries → target x ∈ observed s →
          is_paused (heap p'.2) (target x) = true)
  ∧ (∀ n, n ∉ target <$> entries ∨ n ∉ observed s ∨ is_paused (heap b) n = true →
          heap p'.2 !! n = heap b !! n)
  ∧ (∃ calls, mediaCalls p'.2 = (mediaCalls b ++ calls)%list
       ∧ Forall (λ c, ∃ v, c.1 = CallPause v ∧ v ∈ target <$> entries
                           ∧ v ∈ observed s ∧ is_paused (heap b) v = false) calls)
  ∧ ((∀ x, x ∈ entries → is_paused (heap b) (target x) = true) → p' = (s, b)).
Proof.
  intros Hcalm p'. unfold p'. cbn [dispatch fst snd].
  set (l := filter (λ e, target e ∈ observed s) entries).
  assert (Hl : Forall (λ x, dominant x = false) l).
  { apply Forall_forall. intros x [_ Hx]%list_elem_of_filter.
    by apply (proj1 (Forall_forall _ _) Hcalm). }
  destruct (calm_entries l (s, b) Hl) as (Hs & Hpaused & Hframe & calls & Hcalls & Hall).
  cbn [fst snd] in *.
  split; [done|]. split; [|split; [|split]].
  - intros x Hx Ho. apply Hpaused. by apply list_elem_of_filter.
  - intros n Hn. apply Hframe. unfold l. rewrite elem_of_observed_targets.
    destruct Hn as [Hn | [Hn | Hn]]; [left | left | by right]; intros [? ?]; done.
  - exists calls. split; [done|]. eapply Forall_impl; [exact Hall|].
    intros c (v & Hc & Hv & Hplay). exists v.
    apply elem_of_observed_targets in Hv as [Hv Ho]. done.
  - intros Hall_paused. clear Hs Hpaused Hframe Hcalls Hall calls.
    assert (Hl' : ∀ x, x ∈ l → is_paused (heap b) (target x) = true).
    { intros x [_ Hx]%list_elem_of_filter. by apply Hall_paused. }
    clearbody l. induction Hl as [|x l Hx Hl IH]; [done|].
    unfold on_intersections. rewrite forEach_cons, (on_entry_not_dominant x _ Hx).
    cbn [fst snd]. unfold pause_if_playing. rewrite Hl' by left. cbn [negb].
    apply IH. intros y Hy. apply Hl'. by right.
Qed.

Lemma on_entry_videos e p : videos (on_entry e p).1 = videos p.1.
Proof. unfold on_entry. by destruct (dominant e). Qed.

Lemma pause_if_playing_is_Some v b u :
  is_Some (heap b !! u) → is_Some (heap (pause_if_playing v b) !! u).
Proof.
  intros Hu. unfold pause_if_playing. destruct (negb _); [|done].
  cbn. by apply lookup_alter_is_Some.
Qed.

Lemma on_entry_is_Some e p u :
  is_Some (heap p.2 !! u) → is_Some (heap (on_entry e p).2 !! u).
Proof.
  intros Hu. unfold on_entry. destruct (dominant e); cbn [snd].
  - by apply video_play_is_Some, pause_others_is_Some.
  - by apply pause_if_playing_is_Some.
Qed.

(** X7: of a batch, the last dominant entry decides.  Whatever comes
    before it in the batch, and with only non-dominant entries after
    it: its target is the current video at the end and every other
    video of the feed is paused.  The target plays if the browser lets
    it and no later entry of the batch reports it; it is paused, and
    still current, if a later entry does. *)
Theorem last_dominant_wins (s : Script) (b : Browser)
    (before after : list Entry) (e : Entry) :
  target e ∈ observed s →
  dominant e = true →
  Forall (λ x, dominant x = false) after →
  let p' := dispatch rt (Intersect (before ++ e :: after)) (s, b) in
  current p'.1 = Some (target e)
  ∧ others_paused (videos s) (target e) (heap p'.2)
  ∧ (playGranted e = true → is_Some (heap b !! target e) →
     target e ∉ target <$> after → is_paused (heap p'.2) (target e) = false)
  ∧ (target e ∈ target <$> after → is_paused (heap p'.2) (target e) = true).
Proof.
  intros Hobs He Hafter p'. unfold p'. cbn [dispatch fst snd].
  rewrite filter_app, filter_cons_True by done.
  set (l1 := filter (λ e, target e ∈ observed s) before).
  set (l2 := filter (λ e, target e ∈ observed s) after).
  unfold on_intersections. rewrite forEach_app, forEach_cons.
  set (p1 := forEach l1 on_entry (s, b)).
  assert (Hv1 : videos p1.1 = videos s).
  { unfold p1. by apply (forEach_invariant (λ q : Script * Browser, videos q.1 = videos s));
      [|intros x q _ <-; apply on_entry_videos]. }
  assert (Hsome1 : is_Some (heap b !! target e) → is_Some (heap p1.2 !! target e)).
  { intros Hsome. unfold p1.
    apply (forEach_invariant (λ q : Script * Browser, is_Some (heap q.2 !! target e)));
      [done|]. intros x q _. apply on_entry_is_Some. }
  rewrite (on_entry_dominant e p1 He).
  set (b2 := pause_others (target e) p1.1 p1.2).
  set (p2 := (set_current (Some (target e)) p1.1, video_play (target e) (playGranted e) b2)).
  assert (Hl2 : Forall (λ x, dominant x = false) l2).
  { apply Forall_forall. intros x [_ Hx]%list_elem_of_filter.
    by apply (proj1 (Forall_forall _ _) Hafter). }
  destruct (calm_entries l2 p2 Hl2) as (Hs & Hpaused & Hframe & _).
  fold (on_intersections l2 p2). cbn [fst snd] in *.
  assert (Hothers : others_paused (videos s) (target e) (heap p2.2)).
  { intros u Hu Hne. unfold p2. cbn [snd]. unfold video_play.
    rewrite heap_media_call, is_paused_call_ne by done.
    apply (pause_others_paused (target e) p1.1 p1.2); [by rewrite Hv1 | done]. }
  split; [by rewrite Hs|]. split; [|split].
  - intros u Hu Hne. unfold is_paused. rewrite Hframe; [by apply Hothers|].
    right. by apply Hothers.
  - intros Hg Hsome Hnot. unfold is_paused. rewrite Hframe.
    + unfold p2. cbn [snd]. rewrite Hg. unfold video_play. rewrite heap_media_call.
      apply is_paused_play_granted, pause_others_is_Some, Hsome1, Hsome.
    + left. unfold l2. rewrite elem_of_observed_targets. by intros [? _].
  - intros Hin.
    assert (Hin2 : target e ∈ target <$> l2)
      by (unfold l2; by rewrite elem_of_observed_targets).
    apply list_elem_of_fmap in Hin2 as (x & Hx & Hxl). rewrite Hx. by apply Hpaused.
Qed.

(** *** Which events reach the media elements *)

Lemma quiet_undisturbed b b' : quiet b b' → undisturbed b b'.
Proof. by intros (H1 & H2 & _). Qed.

Lemma undisturbed_refl b : undisturbed b b.
Proof. by split. Qed.

Lemma undisturbed_trans b1 b2 b3 :
  undisturbed b1 b2 → undisturbed b2 b3 → undisturbed b1 b3.
Proof.
  intros [Hc1 H1] [Hc2 H2]. split; [congruence|]. intros v Hv.
  destruct (H1 v Hv) as [Hv2 Hp1]. destruct (H2 v Hv2) as [Hv3 Hp2].
  split; [done | congruence].
Qed.

Lemma undisturbed_forEach {A} (l : list A) (f : A → Browser → Browser) b :
  (∀ a b, undisturbed b (f a b)) → undisturbed b (forEach l f b).
Proof.
  intros Hf. apply (forEach_invariant (undisturbed b)); [apply undisturbed_refl|].
  intros a b' _ Hb'. eapply undisturbed_trans; [exact Hb' | apply Hf].
Qed.

Lemma submit_undisturbed form p : undisturbed p.2 (dispatch_submit form p).2.
Proof.
  unfold dispatch_submit. cbn [snd]. apply undisturbed_forEach. intros f b.
  apply quiet_undisturbed, quiet_listener, quiet_on_submit.
Qed.

Lemma clear_of_images_Forall s h t :
  Forall (λ n, n ∉ imgBound s) (event_path h t) → clear_of_images s h t.
Proof. intros H n Hn. by apply (proj1 (Forall_forall _ _) H). Qed.

Lemma clear_of_images_dec s h t : clear_of_images s h t ∨ ¬ clear_of_images s h t.
Proof.
  unfold clear_of_images.
  destruct (decide (Forall (λ n, n ∉ imgBound s) (event_path h t))) as [H|H].
  - left. by apply Forall_forall.
  - right. intros Hall. apply H. by apply Forall_forall.
Qed.

Lemma click_undisturbed t p :
  clear_of_images p.1 (heap p.2) t →
  (dispatch_click rt t p).1 = p.1 ∧ undisturbed p.2 (dispatch_click rt t p).2.
Proof.
  intros Ht. destruct p as [s b]. rewrite dispatch_click_clear by done.
  destruct (on_path _ _); cbn [fst snd].
  - split; [done|]. apply quiet_undisturbed, quiet_listener, quiet_on_send_click.
  - split; [done | apply undisturbed_refl].
Qed.

Lemma on_added_node_current h node s :
  current (on_added_node h node s) = current s.
Proof.
  unfold on_added_node. destruct node as [n|]; [|done].
  destruct (classList_contains h n "post"); [|done].
  apply (forEach_invariant (λ s', current s' = current s)); [|done].
  by destruct (querySelector_in h n [ClassSel "comment-form"]).
Qed.

Lemma on_mutations_current h mutations s :
  current (on_mutations h mutations s) = current s.
Proof.
  unfold on_mutations.
  apply (forEach_invariant (λ s', current s' = current s)); [done|].
  intros m s1 _ <-.
  apply (forEach_invariant (λ s', current s' = current s1)); [done|].
  intros node s2 _ <-. apply on_added_node_current.
Qed.

Lemma insert_undisturbed parent root fragment p :
  current (insert_fragment parent root fragment p).1 = current p.1
  ∧ undisturbed p.2 (insert_fragment parent root fragment p).2.
Proof.
  unfold insert_fragment.
  case_bool_decide as Hlegal; [|split; [done | apply undisturbed_refl]].
  destruct Hlegal as (Hdisj & _ & Hparent). cbn [fst snd]. split.
  { destruct (postsContainer p.1); [|done].
    case_bool_decide; [|done]. apply on_mutations_current. }
  assert (Hold : ∀ v, is_Some (heap p.2 !! v) →
                      (fragment ∪ heap p.2) !! v = heap p.2 !! v).
  { intros v Hv. apply lookup_union_r. apply not_elem_of_dom.
    intros Hin. apply elem_of_dom in Hv.
    assert (v ∈ dom fragment ∩ dom (heap p.2)) as Hboth
      by by apply elem_of_intersection.
    rewrite Hdisj in Hboth. by apply elem_of_empty in Hboth. }
  split; [done|]. cbn. intros v Hv. split.
  - apply lookup_alter_is_Some. by rewrite Hold.
  - unfold is_paused. destruct (decide (parent = v)) as [->|Hne].
    + rewrite lookup_alter_eq, Hold by done. by destruct (heap p.2 !! v).
    + by rewrite lookup_alter_ne, Hold.
Qed.

(** X10: the events that reach a media element are the batches of the
    intersection observer, the global pause signals (a click that
    meets a bound image on its way up among them), and Enter in the
    chat input when the click it dispatches at the send button meets
    a bound image.  Any other event (socket events, sends, submits,
    typing, insertions, a tab that becomes visible, other clicks and
    keys) issues no [pause()] or [play()], leaves the paused flag of
    every node of the page as it was, and leaves the current video as
    it was. *)
Theorem other_events_leave_media_alone (ev : Event) (p : Script * Browser) :
  ¬ touches_media p ev →
  current (dispatch rt ev p).1 = current p.1
  ∧ mediaCalls (dispatch rt ev p).2 = mediaCalls p.2
  ∧ ∀ v, is_Some (heap p.2 !! v) →
         is_Some (heap (dispatch rt ev p).2 !! v)
         ∧ is_paused (heap (dispatch rt ev p).2) v = is_paused (heap p.2) v.
Proof.
  intros Hnot.
  enough (current (dispatch rt ev p).1 = current p.1
          ∧ undisturbed p.2 (dispatch rt ev p).2) as [Hc [Hm Hp]] by done.
  destruct ev; cbn [dispatch fst snd]; cbn in Hnot.
  - split; [done|]. apply quiet_undisturbed, quiet_listener, quiet_on_new_comment.
  - split; [done|]. apply quiet_undisturbed, quiet_listener, quiet_on_new_message.
  - destruct (clear_of_images_dec p.1 (heap p.2) t) as [Hclear|Hclear]; [|done].
    destruct (click_undisturbed t p Hclear) as [-> ?]. done.
  - destruct (input p.1) as [i|] eqn:Hi; [|split; [done | apply undisturbed_refl]].
    case_bool_decide as Hin; [|split; [done | apply undisturbed_refl]].
    unfold on_keypress.
    case_bool_decide as Hkey; [|split; [done | apply undisturbed_refl]].
    destruct (btn p.1) as [sb|] eqn:Hbtn; [|split; [done | by split]].
    destruct (is_disabled (heap p.2) sb) eqn:Hable;
      [split; [done | apply undisturbed_refl]|].
    destruct (clear_of_images_dec p.1 (heap p.2) sb) as [Hclear|Hclear].
    + destruct (click_undisturbed sb p Hclear) as [-> ?]. done.
    + destruct Hnot. split; [by exists i|]. split; [done|]. by exists sb.
  - split; [done | apply submit_undisturbed].
  - unfold on_visibilitychange. cbn [snd with_hidden hidden].
    destruct nowHidden; [done|]. split; [done | by split].
  - done.
  - done.
  - split; [done|]. apply quiet_undisturbed, quiet_type_into.
  - apply insert_undisturbed.
Qed.

(** *** Where [play()] comes from *)

Section Calls.

Variable P : MediaCall → Prop.
Hypothesis pauses : ∀ v, P (CallPause v).

Lemma calls_since_refl b : calls_since P b b.
Proof. exists []. by rewrite app_nil_r. Qed.

Lemma calls_since_trans b1 b2 b3 :
  calls_since P b1 b2 → calls_since P b2 b3 → calls_since P b1 b3.
Proof.
  intros (c1 & H1 & Hc1) (c2 & H2 & Hc2). exists (c1 ++ c2)%list. split.
  - by rewrite H2, H1, app_assoc.
  - by apply Forall_app.
Qed.

Lemma calls_since_undisturbed b b' : undisturbed b b' → calls_since P b b'.
Proof. intros [Hc _]. exists []. by rewrite app_nil_r. Qed.

Lemma calls_since_media_call c b : P c → calls_since P b (media_call c b).
Proof. intros Hc. exists [(c, heap b)]. split; [done|]. by constructor. Qed.

Lemma calls_since_forEach {A} (l : list A) (f : A → Browser → Browser) b :
  (∀ a b, a ∈ l → calls_since P b (f a b)) → calls_since P b (forEach l f b).
Proof.
  intros Hf. apply (forEach_invariant (calls_since P b)); [apply calls_since_refl|].
  intros a b' Ha Hb'. eapply calls_since_trans; [exact Hb' | by apply Hf].
Qed.

Lemma calls_since_pause_if_playing v b : calls_since P b (pause_if_playing v b).
Proof.
  unfold pause_if_playing. destruct (negb _); [|apply calls_since_refl].
  apply calls_since_media_call, pauses.
Qed.

Lemma calls_since_pause_all p : calls_since P p.2 (pause_all p).2.
Proof.
  unfold pause_all. cbn [snd]. apply calls_since_forEach.
  intros v b _. apply calls_since_media_call, pauses.
Qed.

Lemma calls_since_pause_others vid s b : calls_since P b (pause_others vid s b).
Proof.
  unfold pause_others.
  set (b1 := match current s with
             | Some c => if bool_decide (c ≠ vid) then video_pause c b else b
             | None => b
             end).
  assert (H1 : calls_since P b b1).
  { unfold b1. destruct (current s) as [c|]; [|apply calls_since_refl].
    case_bool_decide; [|apply calls_since_refl].
    apply calls_since_media_call, pauses. }
  eapply calls_since_trans; [exact H1|].
  - apply calls_since_forEach. intros v b' _.
    case_bool_decide; [apply calls_since_pause_if_playing | apply calls_since_refl].
Qed.

Lemma calls_since_click_at n p : calls_since P p.2 (click_at rt n p).2.
Proof.
  unfold click_at.
  set (p1 := if bool_decide (btn p.1 = Some n)
             then (p.1, listener (on_send_click rt p.1) p.2) else p).
  assert (H1 : calls_since P p.2 p1.2).
  { unfold p1. case_bool_decide; cbn [snd]; [|apply calls_since_refl].
    apply calls_since_undisturbed, quiet_undisturbed, quiet_listener,
      quiet_on_send_click. }
  apply (forEach_invariant (λ q : Script * Browser, calls_since P p.2 q.2)); [done|].
  intros _ q _ Hq. eapply calls_since_trans; [exact Hq | apply calls_since_pause_all].
Qed.

Lemma calls_since_click t p : calls_since P p.2 (dispatch_click rt t p).2.
Proof.
  unfold dispatch_click.
  apply (forEach_invariant (λ q : Script * Browser, calls_since P p.2 q.2));
    [apply calls_since_refl|].
  intros n q _ Hq. eapply calls_since_trans; [exact Hq | apply calls_since_click_at].
Qed.

End Calls.

(** X9: the script starts a video from one place only.  Whatever the
    event, every [play()] it leads to is on the target of a dominant
    entry of an intersection batch, a video the observer watches;
    every other call on a media element is a [pause()]. *)
Theorem play_needs_dominant_entry (ev : Event) (p : Script * Browser) :
  ∃ calls, mediaCalls (dispatch rt ev p).2 = (mediaCalls p.2 ++ calls)%list
           ∧ Forall (λ c, accounted p.1 ev c.1) calls.
Proof.
  change (calls_since (accounted p.1 ev) p.2 (dispatch rt ev p).2).
  assert (Hpause : ∀ v, accounted p.1 ev (CallPause v)) by done.
  destruct ev; cbn [dispatch fst snd].
  - apply calls_since_undisturbed, quiet_undisturbed, quiet_listener,
      quiet_on_new_comment.
  - apply calls_since_undisturbed, quiet_undisturbed, quiet_listener,
      quiet_on_new_message.
  - by apply calls_since_click.
  - destruct (input p.1) as [i|]; [|apply calls_since_refl].
    case_bool_decide; [|apply calls_since_refl]. unfold on_keypress.
    case_bool_decide; [|apply calls_since_refl].
    destruct (btn p.1) as [sb|]; [|by apply calls_since_undisturbed].
    destruct (is_disabled (heap p.2) sb); [apply calls_since_refl|].
    by apply calls_since_click.
  - apply calls_since_undisturbed, submit_undisturbed.
  - unfold on_visibilitychange. cbn [snd with_hidden hidden].
    destruct nowHidden; [|by apply calls_since_undisturbed].
    by apply (calls_since_pause_all _ Hpause (p.1, with_hidden true p.2)).
  - by apply calls_since_pause_all.
  - unfold on_intersections.
    set (l := filter (λ e, target e ∈ observed p.1) entries).
    apply (forEach_invariant
             (λ q : Script * Browser, calls_since (accounted p.1 (Intersect entries)) p.2 q.2));
      [apply calls_since_refl|].
    intros e q [Hobs He]%list_elem_of_filter Hq.
    eapply calls_since_trans; [exact Hq|].
    unfold on_entry. destruct (dominant e) eqn:Hd; cbn [snd].
    + eapply calls_since_trans; [by apply calls_since_pause_others|].
      apply calls_since_media_call. cbn. by exists entries, e.
    + by apply calls_since_pause_if_playing.
  - apply calls_since_undisturbed, quiet_undisturbed, quiet_type_into.
  - apply calls_since_undisturbed, insert_undisturbed.
Qed.

(** *** Listeners over time *)

Lemma forEach_observeVideo (vids : list NodeId) s : forEach vids observeVideo s = s.
Proof. by apply (forEach_invariant (λ s', s' = s)). Qed.

(** The callback of the mutation observer on one added node. *)
Lemma on_added_node_cases h node s :
  (on_added_node h node s = s
   ∧ ∀ n form, node = ChildElement n → classList_contains h n "post" = true →
               querySelector_in h n [ClassSel "comment-form"] = Some form → False)
  ∨ ∃ n form, node = ChildElement n ∧ classList_contains h n "post" = true
              ∧ querySelector_in h n [ClassSel "comment-form"] = Some form
              ∧ on_added_node h node s = add_submitBound form s.
Proof.
  unfold on_added_node. destruct node as [n|]; [|by left].
  destruct (classList_contains h n "post") eqn:Hpost.
  - rewrite forEach_observeVideo.
    destruct (querySelector_in h n [ClassSel "comment-form"]) as [form|] eqn:Hform.
    + right. by exists n, form.
    + left. split; [done|]. intros n' form' [= <-] _ Hf. congruence.
  - left. split; [done|]. intros n' form' [= <-] Hp. congruence.
Qed.

Lemma on_mutations_single h node s :
  on_mutations h [mkMutationRecord [node]] s = on_added_node h node s.
Proof. done. Qed.

Lemma dispatch_captured ev p :
  captured (dispatch rt ev p).1 = captured p.1
  ∧ ∃ added, submitBound (dispatch rt ev p).1 = (submitBound p.1 ++ added)%list
       ∧ (length added ≤ if is_insertion ev then 1 else 0)%nat
       ∧ (postsContainer p.1 = None → added = []).
Proof.
  assert (Hsame : ∀ s' : Script,
            captured s' = captured p.1 ∧ submitBound s' = submitBound p.1 →
            captured s' = captured p.1
            ∧ ∃ added, submitBound s' = (submitBound p.1 ++ added)%list
                 ∧ (length added ≤ if is_insertion ev then 1 else 0)%nat
                 ∧ (postsContainer p.1 = None → added = [])).
  { intros s' [Hq1 Hq2]. split; [done|]. exists []. rewrite app_nil_r.
    split; [done|]. split; [cbn; lia | done]. }
  assert (Hpause : ∀ q, captured (pause_all q).1 = captured q.1
                        ∧ submitBound (pause_all q).1 = submitBound q.1) by done.
  assert (Hclick : ∀ t, captured (dispatch_click rt t p).1 = captured p.1
                        ∧ submitBound (dispatch_click rt t p).1 = submitBound p.1).
  { intros t. unfold dispatch_click.
    pose proof (click_path_script (event_path (heap p.2) t) p) as Hs.
    split.
    - apply (f_equal captured) in Hs. exact Hs.
    - apply (f_equal submitBound) in Hs. exact Hs. }
  destruct ev; cbn [dispatch].
  - by apply Hsame.
  - by apply Hsame.
  - apply Hsame, Hclick.
  - destruct (input p.1) as [i|] eqn:Hi; [|by apply Hsame].
    case_bool_decide; [|by apply Hsame]. unfold on_keypress.
    case_bool_decide; [|by apply Hsame].
    destruct (btn p.1) as [sb|]; [|by apply Hsame].
    destruct (is_disabled (heap p.2) sb); [by apply Hsame | apply Hsame, Hclick].
  - by apply Hsame.
  - unfold on_visibilitychange. cbn [snd with_hidden hidden].
    destruct nowHidden; by apply Hsame.
  - by apply Hsame.
  - apply Hsame. unfold on_intersections.
    apply (forEach_invariant
             (λ q : Script * Browser,
                captured q.1 = captured p.1 ∧ submitBound q.1 = submitBound p.1));
      [done|].
    intros e q _ [<- <-]. unfold on_entry. by destruct (dominant e).
  - by apply Hsame.
  - unfold insert_fragment. case_bool_decide; [|by apply Hsame]. cbn [fst snd].
    destruct (postsContainer p.1) as [c|] eqn:Hc; [|by apply Hsame].
    case_bool_decide; [|by apply Hsame].
    rewrite on_mutations_single.
    match goal with |- context [on_added_node ?h ?node ?s] =>
      destruct (on_added_node_cases h node s) as [[-> _] | (n & form & _ & _ & _ & ->)]
    end.
    + by apply Hsame.
    + split; [done|]. exists [form]. split; [done|]. split; [cbn; lia | done].
Qed.

(** X6: over any sequence of events, what the load handler captured
    stays what it was: the elements it looked up, the list of videos,
    the images that pause on click, the observed targets.  The submit
    listeners are never removed and only insertions add any, at most
    one each, and none at all on a page without a posts container. *)
Theorem listeners_only_grow (events : list Event) (p : Script * Browser) :
  let p' := run rt events p in
  captured p'.1 = captured p.1
  ∧ ∃ added, submitBound p'.1 = (submitBound p.1 ++ added)%list
       ∧ (length added ≤ length (filter (λ ev, is_insertion ev = true) events))%nat
       ∧ (postsContainer p.1 = None → added = []).
Proof.
  revert p. induction events as [|ev events IH]; intros p.
  { cbn. split; [done|]. exists []. by rewrite app_nil_r. }
  cbn zeta. unfold run. rewrite forEach_cons. fold (run rt events (dispatch rt ev p)).
  destruct (dispatch_captured ev p) as (Hcap & added1 & Hadd1 & Hlen1 & Hnone1).
  destruct (IH (dispatch rt ev p)) as (Hcap2 & added2 & Hadd2 & Hlen2 & Hnone2).
  split; [congruence|]. exists (added1 ++ added2)%list.
  split; [by rewrite Hadd2, Hadd1, app_assoc|]. split.
  - rewrite length_app. destruct (is_insertion ev) eqn:Hins.
    + rewrite filter_cons_True by done. cbn. lia.
    + rewrite filter_cons_False by congruence. lia.
  - intros Hnone. rewrite Hnone1 by done. rewrite Hnone2; [done|].
    unfold captured in Hcap. congruence.
Qed.

(** X11: what an insertion does to the listeners.  When a tree of new
    nodes is appended to a node of the page, the script changes in one
    case only: the parent lies in the observed container, the root of
    the tree carries the class [post] and has a comment form below it;
    then the first such form gets one more submit listener, and that
    is all.  In every other case the script's state is what it was. *)
Theorem insertion_binds_first_form (p : Script * Browser) (parent root : NodeId)
    (fragment : gmap nat Element) :
  dom fragment ∩ dom (heap p.2) = ∅ →
  root ∈ dom fragment →
  parent ∈ dom (heap p.2) →
  let p' := dispatch rt (Inserted parent root fragment) p in
  let h' := heap p'.2 in
  let watched := ∃ c, postsContainer p.1 = Some c ∧ parent ∈ (subtree h' c).*1 in
  (¬ watched → p'.1 = p.1)
  ∧ (classList_contains h' root "post" = false → p'.1 = p.1)
  ∧ (querySelector_in h' root [ClassSel "comment-form"] = None → p'.1 = p.1)
  ∧ (∀ form, watched → classList_contains h' root "post" = true →
             querySelector_in h' root [ClassSel "comment-form"] = Some form →
             p'.1 = add_submitBound form p.1).
Proof.
  intros Hdisj Hroot Hparent p' h' watched.
  unfold watched, h', p'. cbn [dispatch]. unfold insert_fragment.
  rewrite bool_decide_eq_true_2 by done. cbn [fst snd heap with_heap].
  set (h1 := alter _ parent (fragment ∪ heap p.2)).
  destruct (postsContainer p.1) as [c|] eqn:Hc.
  2: { repeat split; try done. intros form (c & Hc' & _). discriminate. }
  case_bool_decide as Hin.
  2: { repeat split; try done. intros form (c' & [= <-] & Hin'). done. }
  rewrite on_mutations_single.
  destruct (on_added_node_cases h1 (ChildElement root) p.1)
    as [[-> Hno] | (n & form & [= <-] & Hpost & Hform & ->)].
  - repeat split; try done. intros form _ Hpost Hform.
    destruct (Hno root form eq_refl Hpost Hform).
  - split; [intros Hnot; destruct Hnot; eauto|].
    split; [intros Hnp; congruence|].
    split; [intros Hnf; congruence|].
    intros form' _ _ Hform'. congruence.
Qed.

(** *** An incoming chat message, in full *)

(** X12: an incoming message that concerns the local user, on a page
    with a chat container: the new element holds the content as text
    (it has no element child whatever the content is, and reads back
    as the content), the container is scrolled to its end, every other
    node of the page is as it was, nothing is emitted or thrown and no
    video is touched.  A message that does not concern the user, or a
    page without container, leaves the whole state as it was. *)
Theorem new_message_in_full (s : Script) (data : NewMessage) (b : Browser) :
  (∀ c, getElementById b "messages" = Some c → concerns s data = true →
     let d := fresh (dom (heap b)) in
     let e := message_element (message_class s data) (message_content data) in
     let appended := with_child c d e (heap b) in
     ∃ b', dispatch rt (SocketNewMessage data) (s, b) = (s, b')
       ∧ heap b' !! d = Some e
       ∧ child_elements e = []
       ∧ textContent (heap b') d = message_content data
       ∧ children_of (heap b') c = (children_of (heap b) c ++ [ChildElement d])%list
       ∧ ((0 ≤ clientHeight rt appended c)%Z →
          scrollTop <$> heap b' !! c = Some (max_scroll rt appended c))
       ∧ (∀ n, n ≠ d → n ≠ c → heap b' !! n = heap b !! n)
       ∧ emitted b' = emitted b
       ∧ uncaught b' = uncaught b
       ∧ mediaCalls b' = mediaCalls b)
  ∧ (getElementById b "messages" = None ∨ concerns s data = false →
     dispatch rt (SocketNewMessage data) (s, b) = (s, b)).
Proof.
  split.
  - intros c Hget Hcon d e appended.
    destruct (getElementById_is_Some _ _ _ Hget) as [ce Hc].
    assert (Hd : d ≠ c) by (apply fresh_not_in_heap; eauto).
    cbn [dispatch fst snd]. unfold listener, on_new_message.
    unfold bind at 1, gets at 1. rewrite Hget, Hcon.
    eexists. split; [reflexivity|].
    cbn -[fresh alter insert max_scroll textContent message_class]. fold d.
    rewrite !alter_insert_eq.
    change (alter _ c (<[d:=_]> (heap b))) with appended.
    assert (Hc' : appended !! c
                  = Some (set_childNodes (childNodes ce ++ [ChildElement d]) ce)).
    { unfold appended, with_child.
      by rewrite lookup_alter_eq, lookup_insert_ne, Hc. }
    assert (Hd' : appended !! d = Some e).
    { unfold appended, with_child. by rewrite lookup_alter_ne, lookup_insert_eq. }
    repeat split.
    + by rewrite lookup_alter_ne, Hd'.
    + unfold e, message_element, text_children. by case_bool_decide.
    + unfold textContent. apply (text_of_text_children _ _ _ e).
      * by rewrite lookup_alter_ne, Hd'.
      * done.
    + unfold children_of. by rewrite lookup_alter_eq, Hc', Hc.
    + intros Hclient. rewrite lookup_alter_eq, Hc'. cbn.
      unfold max_scroll. do 2 f_equal. lia.
    + intros n Hnd Hnc. rewrite lookup_alter_ne by done.
      unfold appended, with_child. by rewrite lookup_alter_ne, lookup_insert_ne.
  - intros Hno. cbn [dispatch fst snd]. unfold listener, on_new_message.
    unfold bind at 1, gets at 1.
    destruct (getElementById b "messages") as [c|]; [|done].
    destruct Hno as [Hno | ->]; done.
Qed.

(** *** A counter that is no number *)

(** X13: when the text of a post's counter does not start with an
    integer, [parseInt] gives NaN, NaN + 1 is NaN, and the counter
    shows the text [NaN] after the comment event; that text is again
    read as NaN, so the counter stays there.  The comment itself is
    still appended to the list. *)
Theorem unreadable_counter_shows_NaN (s : Script) (data : NewComment) (b : Browser)
    (post c : NodeId) :
  querySelector b (post_selector rt (comment_post_id data)) = Some post →
  querySelector_in (heap b) post [ClassSel "comment-count"] = Some c →
  omap child_element (children_of (heap b) c) = [] →
  counter_value (textContent (heap b) c) = NaN →
  (∀ l, querySelector_in (heap b) post [ClassSel "comments-list"] = Some l → l ≠ c) →
  let b' := (dispatch rt (SocketNewComment data) (s, b)).2 in
  textContent (heap b') c = "NaN"
  ∧ counter_value (textContent (heap b') c) = NaN
  ∧ (∀ l, querySelector_in (heap b) post [ClassSel "comments-list"] = Some l →
          children_of (heap b') l
          = (children_of (heap b) l ++ [ChildElement (fresh (dom (heap b)))])%list)
  ∧ uncaught b' = uncaught b.
Proof.
  intros Hpost Hc Hkids Ht Hlc b'.
  destruct (first_match_is_Some _ _ _ _ Hc) as [ce Hce].
  set (li := fresh (dom (heap b))).
  set (b1 := with_heap (alter (set_childNodes (text_children "NaN")) c) b).
  assert (Hread : ∀ h, h !! c = Some (set_childNodes (text_children "NaN") ce) →
                       textContent h c = "NaN").
  { intros h Hh. unfold textContent.
    by apply (text_of_text_children _ _ _ (set_childNodes (text_children "NaN") ce)). }
  assert (Hb1c : heap b1 !! c = Some (set_childNodes (text_children "NaN") ce)).
  { unfold b1. cbn [with_heap heap]. by rewrite lookup_alter_eq, Hce. }
  enough (Hmain : ∃ bx, on_new_comment rt data b = (Normal tt, bx)
            ∧ textContent (heap bx) c = "NaN"
            ∧ (∀ l, querySelector_in (heap b) post [ClassSel "comments-list"] = Some l →
                    children_of (heap bx) l
                    = (children_of (heap b) l ++ [ChildElement li])%list)
            ∧ uncaught bx = uncaught b).
  { destruct Hmain as (bx & Hrun & H1 & H2 & H3).
    unfold b'. cbn [dispatch fst snd]. rewrite (listener_normal _ _ _ _ Hrun).
    rewrite H1. done. }
  destruct (querySelector_in (heap b) post [ClassSel "comments-list"]) as [l|] eqn:Hl.
  - destruct (first_match_is_Some _ _ _ _ Hl) as [le Hle].
    assert (Hne : l ≠ c) by by apply Hlc.
    pose proof (on_new_comment_found data b post c l Hpost Hc Hkids Hl) as Hfound.
    cbn zeta in Hfound. rewrite Ht in Hfound. cbn [js_succ number_to_string] in Hfound.
    fold b1 in Hfound.
    assert (Hle1 : heap b1 !! l = Some le).
    { unfold b1. cbn [with_heap heap]. by rewrite lookup_alter_ne. }
    assert (Hli1 : fresh (dom (heap b1)) = li).
    { unfold b1. cbn [with_heap heap]. by rewrite dom_alter_L. }
    destruct (append_comment_spec l data b1 le Hle1)
      as (bx & Hrun & Hl' & Hframe & _ & _ & Hun & _).
    rewrite Hli1 in Hl'.
    exists bx. split; [by rewrite Hfound|]. split; [|split; [|done]].
    + apply Hread. rewrite Hframe; [done | done | by rewrite Hb1c].
    + intros l' [= <-]. unfold children_of. by rewrite Hl', Hle.
  - assert (Hskel : same_skeleton (heap b) (heap b1)).
    { apply set_text_skeleton. intros e He. unfold children_of in Hkids.
      by rewrite He in Hkids. }
    unfold on_new_comment.
    unfold bind at 1, gets at 1. rewrite Hpost.
    unfold bind at 1, gets at 1. rewrite Hc.
    unfold bind at 1. unfold bump_count, bind at 1, gets at 1.
    rewrite Ht. cbn [js_succ number_to_string].
    unfold update, modify. fold b1.
    unfold bind at 1, gets at 1.
    rewrite <- (querySelector_in_skeleton _ _ _ _ Hskel), Hl.
    exists b1. split; [done|]. split; [by apply Hread|]. done.
Qed.

(** *** Queries on a page that has grown by a leaf *)

Lemma filter_flat_map {A B} (P : B → Prop) `{∀ x, Decision (P x)}
    (f : A → list B) (l : list A) :
  filter P (flat_map f l) = flat_map (λ x, filter P (f x)) l.
Proof.
  induction l as [|a l IH]; [done|]. cbn [flat_map]. by rewrite filter_app, IH.
Qed.

Lemma flat_map_filter_nil {A B} (Q : A → Prop) `{∀ x, Decision (Q x)}
    (f : A → list B) (l : list A) :
  (∀ x, ¬ Q x → f x = []) → flat_map f l = flat_map f (filter Q l).
Proof.
  intros Hf. induction l as [|a l IH]; [done|]. cbn [flat_map].
  destruct (decide (Q a)) as [Ha|Ha].
  - rewrite filter_cons_True by done. cbn [flat_map]. by rewrite IH.
  - rewrite filter_cons_False by done. by rewrite (Hf a Ha).
Qed.

Lemma find_filter {A} (P P' : A → bool) (Q : A → Prop) `{∀ x, Decision (Q x)}
    (l : list A) :
  (∀ x, ¬ Q x → P' x = false) → (∀ x, Q x → P' x = P x) →
  List.find P' l = List.find P (filter Q l).
Proof.
  intros Hout Hin. induction l as [|a l IH]; [done|]. cbn [List.find].
  destruct (decide (Q a)) as [Ha|Ha].
  - rewrite filter_cons_True by done. cbn [List.find]. rewrite (Hin a Ha).
    by destruct (P a).
  - rewrite filter_cons_False by done. by rewrite (Hout a Ha).
Qed.

Lemma walk_absent fuel h anc id : h !! id = None → walk fuel h anc id = [].
Proof. intros H. destruct fuel; [done|]. cbn. by rewrite H. Qed.

Lemma walk_head fuel h anc id :
  walk fuel h anc id = [] ∨ ∃ t, walk fuel h anc id = (id, anc) :: t.
Proof.
  destruct fuel; [by left|]. cbn. destruct (h !! id); [right; eauto | by left].
Qed.

Section Grown.

Variables (li : NodeId) (h h' : gmap nat Element).
Hypothesis Hgrown : grown li h h'.

Lemma grown_lookup id e :
  h !! id = Some e →
  ∃ e', h' !! id = Some e' ∧ tagName e' = tagName e ∧ className e' = className e
        ∧ attributes e' = attributes e.
Proof.
  intros He. destruct Hgrown as (Hli & _ & Hrel).
  assert (Hne : id ≠ li) by (intros ->; congruence).
  specialize (Hrel id Hne). rewrite He in Hrel.
  destruct (h' !! id) as [e'|]; [|done]. exists e'. tauto.
Qed.

Lemma grown_dom : dom h' = {[li]} ∪ dom h.
Proof.
  destruct Hgrown as (Hli & (e & He & _) & Hrel).
  apply set_eq. intros id. rewrite elem_of_union, elem_of_singleton, !elem_of_dom.
  destruct (decide (id = li)) as [->|Hne].
  - split; [by left | intros _; by rewrite He].
  - specialize (Hrel id Hne).
    destruct (h !! id) as [e0|], (h' !! id) as [e1|]; try done.
    + split; [by right | by eexists].
    + split; [by intros [? ?] | by intros [? | [? ?]]].
Qed.

Lemma grown_size : size h' = S (size h).
Proof.
  rewrite <- !size_dom, grown_dom, size_union, size_singleton; [done|].
  destruct Hgrown as (Hli & _). apply disjoint_singleton_l.
  by apply not_elem_of_dom.
Qed.

Lemma walk_grown fuel anc id :
  filter (λ n : NodeId * list NodeId, n.1 ≠ li) (walk fuel h' anc id)
  = walk fuel h anc id.
Proof.
  destruct Hgrown as (Hli & (eli & Heli & Hleaf) & Hrel).
  revert anc id. induction fuel as [|fuel IH]; intros anc id; [done|].
  cbn [walk]. destruct (decide (id = li)) as [->|Hne].
  - rewrite Hli, Heli, Hleaf. cbn [flat_map].
    by rewrite filter_cons_False by (cbn; tauto).
  - specialize (Hrel id Hne).
    destruct (h !! id) as [e|], (h' !! id) as [e'|]; try done.
    destruct Hrel as (_ & _ & _ & Hkids).
    rewrite filter_cons_True by done. f_equal.
    rewrite filter_flat_map.
    rewrite (flat_map_ext _ (walk fuel h (id :: anc))) by (intros a; apply IH).
    rewrite (flat_map_filter_nil (λ c, c ≠ li) _ (child_elements e')).
    2: { intros x Hx. apply walk_absent. by apply dec_stable in Hx as ->. }
    rewrite Hkids. symmetry. apply flat_map_filter_nil.
    intros x Hx. apply walk_absent. by apply dec_stable in Hx as ->.
Qed.

Lemma matches_grown sel id : id ≠ li → matches h' sel id = matches h sel id.
Proof.
  intros Hne. destruct Hgrown as (_ & _ & Hrel). specialize (Hrel id Hne).
  unfold matches. destruct (h !! id) as [e|], (h' !! id) as [e'|]; try done.
  destruct Hrel as (Htag & Hclass & Hattr & _).
  induction sel as [|x sel IH]; [done|]. cbn. rewrite IH. f_equal.
  destruct x; cbn; by rewrite ?Htag, ?Hclass, ?Hattr.
Qed.

Lemma first_match_grown sel (l : list (NodeId * list NodeId)) :
  matches h' sel li = false →
  first_match h' sel l = first_match h sel (filter (λ n, n.1 ≠ li) l).
Proof.
  intros Hno. unfold first_match. f_equal.
  apply (find_filter _ _ (λ n : NodeId * list NodeId, n.1 ≠ li)).
  - intros x Hx. apply dec_stable in Hx. by rewrite Hx.
  - intros x Hx. by apply matches_grown.
Qed.

Lemma subtree_grown rank root :
  ranked rank h →
  filter (λ n : NodeId * list NodeId, n.1 ≠ li) (subtree h' root) = subtree h root.
Proof.
  intros Hr. unfold subtree at 1. rewrite grown_size, walk_grown.
  rewrite <- (subtree_complete rank h root 1 Hr). f_equal. lia.
Qed.

Lemma querySelector_in_grown rank root sel :
  ranked rank h → root ≠ li → matches h' sel li = false →
  querySelector_in h' root sel = querySelector_in h root sel.
Proof.
  intros Hr Hroot Hno. unfold querySelector_in, descendants.
  rewrite first_match_grown by done. f_equal.
  rewrite <- (subtree_grown rank root Hr).
  destruct (walk_head (S (size h')) h' [] root) as [H0 | [t Ht]];
    unfold subtree; rewrite ?H0, ?Ht; [done|].
  by rewrite filter_cons_True.
Qed.

End Grown.

Lemma querySelector_grown li b b' rank sel :
  grown li (heap b) (heap b') → documentElement b' = documentElement b →
  ranked rank (heap b) → matches (heap b') sel li = false →
  querySelector b' sel = querySelector b sel.
Proof.
  intros Hg Hroot Hr Hno. unfold querySelector, document_elements.
  rewrite (first_match_grown li (heap b) (heap b') Hg) by done.
  by rewrite Hroot, (subtree_grown li _ _ Hg rank).
Qed.

Lemma ranked_skeleton rank h h' :
  same_skeleton h h' → ranked rank h → ranked rank h'.
Proof.
  intros Hs Hr id e' c He' Hc. specialize (Hs id). rewrite He' in Hs.
  destruct (h !! id) as [e|] eqn:He; [|done].
  apply (Hr id e c He). cbn in Hs. unfold skeleton in Hs. congruence.
Qed.

Lemma ranked_grown li rank h h' :
  grown li h h' → ranked rank h →
  ranked (λ x, if decide (x = li) then 0 else S (rank x))%nat h'.
Proof.
  intros (Hli & (eli & Heli & Hleaf) & Hrel) Hr id e' c He' Hc.
  destruct (decide (id = li)) as [->|Hne].
  { rewrite Heli in He'. injection He' as <-. rewrite Hleaf in Hc.
    by apply elem_of_nil in Hc. }
  destruct (decide (c = li)) as [->|Hc']; [lia|].
  specialize (Hrel id Hne). rewrite He' in Hrel.
  destruct (h !! id) as [e|] eqn:He; [|done].
  destruct Hrel as (_ & _ & _ & Hkids).
  assert (Hin : c ∈ filter (λ c, c ≠ li) (child_elements e')).
  { by apply list_elem_of_filter. }
  rewrite Hkids in Hin. apply list_elem_of_filter in Hin as [_ Hin].
  pose proof (Hr id e c He Hin). lia.
Qed.

(** *** Comments add up *)

Lemma querySelector_skeleton b b' sel :
  same_skeleton (heap b) (heap b') → documentElement b' = documentElement b →
  querySelector b' sel = querySelector b sel.
Proof.
  intros Hs Hroot. unfold querySelector, document_elements, subtree, first_match.
  rewrite Hroot, <- (same_skeleton_size _ _ Hs), <- (walk_skeleton _ _ _ _ _ Hs).
  f_equal. generalize (walk (S (size (heap b))) (heap b) [] (documentElement b)).
  intros l. induction l as [|n l IH]; [done|]. cbn.
  by rewrite IH, (matches_skeleton _ _ _ _ Hs).
Qed.

Lemma no_class_no_match h n e x rest :
  h !! n = Some e → className e = "" → matches h (ClassSel x :: rest) n = false.
Proof.
  intros Hn Hcls. unfold matches. rewrite Hn. cbn [forallb matches_simple].
  rewrite Hcls. change (class_tokens "") with (@nil string).
  rewrite bool_decide_eq_false_2; [done|]. apply not_elem_of_nil.
Qed.

(** One comment event, of plain text, on a post that counts. *)
Lemma comment_step id post c l n b data :
  counting rt id post c l n b → comment_post_id data = id → exact_succ n = true →
  all_plain (comment_username data) = true →
  all_plain (comment_content data) = true →
  let li := fresh (dom (heap b)) in
  ∃ b' st, on_new_comment rt data b = (Normal tt, b')
    ∧ counting rt id post c l (n + 1) b'
    ∧ textContent (heap b') c = pretty (n + 1)%Z
    ∧ children_of (heap b') l = (children_of (heap b) l ++ [ChildElement li])%list
    ∧ heap b' !! li
      = Some (set_childNodes
                [ChildElement st; ChildText (": " +:+ comment_content data)]
                (new_element "li"))
    ∧ heap b' !! st
      = Some (mkElement "strong" "" [] None
                (text_children (comment_username data)) 0 true)
    ∧ heap b !! li = None
    ∧ heap b !! st = None
    ∧ (∀ x, x ≠ c → x ≠ l → is_Some (heap b !! x) → heap b' !! x = heap b !! x)
    ∧ (∀ x, is_Some (heap b !! x) → is_Some (heap b' !! x))
    ∧ emitted b' = emitted b ∧ uncaught b' = uncaught b.
Proof.
  intros (Hpost & Hc & Hkids & Ht & Hl & Hlc & rank & Hrank) Hid Hn Hu Hco li.
  subst id.
  destruct (first_match_is_Some _ _ _ _ Hpost) as [pe Hpe].
  destruct (first_match_is_Some _ _ _ _ Hc) as [ce Hce].
  destruct (first_match_is_Some _ _ _ _ Hl) as [le Hle].
  assert (Hnew : heap b !! li = None) by (apply not_elem_of_dom, is_fresh).
  pose proof (on_new_comment_found data b post c l Hpost Hc Hkids Hl) as Hfound.
  cbn zeta in Hfound. rewrite Ht in Hfound. unfold js_succ in Hfound.
  rewrite Hn in Hfound. unfold number_to_string in Hfound.
  rewrite (exact_succ_exact_int n Hn) in Hfound.
  set (shown := pretty (n + 1)%Z) in *.
  set (h1 := alter (set_childNodes (text_children shown)) c (heap b)).
  assert (Hskel : same_skeleton (heap b) h1).
  { apply set_text_skeleton. intros e He. unfold children_of in Hkids.
    by rewrite He in Hkids. }
  assert (Hdom : dom h1 = dom (heap b)) by apply dom_alter_L.
  rewrite (append_comment_plain l data _ Hu Hco) in Hfound.
  cbn [with_heap heap] in Hfound. fold h1 in Hfound. rewrite Hdom in Hfound.
  fold li in Hfound.
  set (st := fresh (dom (<[li := new_element "li"]> h1))) in *.
  set (liE := set_childNodes
                [ChildElement st; ChildText (": " +:+ comment_content data)]
                (new_element "li")) in *.
  set (stE := mkElement "strong" "" [] None
                (text_children (comment_username data)) 0 true) in *.
  set (h' := alter (λ e, set_childNodes (childNodes e ++ [ChildElement li]) e) l
               (<[st := stE]> (<[li := liE]> h1))) in *.
  assert (Hst2 : (<[li := new_element "li"]> h1) !! st = None)
    by (apply not_elem_of_dom, is_fresh).
  assert (Hstli : st ≠ li).
  { intros Heq. rewrite Heq, lookup_insert_eq in Hst2. done. }
  assert (Hst1 : h1 !! st = None) by by rewrite lookup_insert_ne in Hst2.
  assert (Hst0 : heap b !! st = None).
  { unfold h1 in Hst1. apply not_elem_of_dom. rewrite <- Hdom.
    by apply not_elem_of_dom. }
  assert (Hold : ∀ x, is_Some (heap b !! x) → x ≠ li ∧ x ≠ st).
  { intros x [e He]. split; intros ->; congruence. }
  destruct (Hold post) as [Hpli Hpst]; [eauto|].
  destruct (Hold c) as [Hcli Hcst]; [eauto|].
  destruct (Hold l) as [Hlli Hlst]; [eauto|].
  assert (Hh1c : h1 !! c = Some (set_childNodes (text_children shown) ce)).
  { unfold h1. by rewrite lookup_alter_eq, Hce. }
  assert (Hh1l : h1 !! l = Some le).
  { unfold h1. by rewrite lookup_alter_ne, Hle. }
  assert (Hh1li : h1 !! li = None).
  { unfold h1. by rewrite lookup_alter_ne. }
  assert (Hli' : h' !! li = Some liE).
  { unfold h'. by rewrite lookup_alter_ne, lookup_insert_ne, lookup_insert_eq. }
  assert (Hst' : h' !! st = Some stE).
  { unfold h'. by rewrite lookup_alter_ne, lookup_insert_eq. }
  assert (Hl' : h' !! l = Some (set_childNodes (childNodes le ++ [ChildElement li]) le)).
  { unfold h'. by rewrite lookup_alter_eq, !lookup_insert_ne, Hh1l. }
  assert (Hother : ∀ x, x ≠ l → x ≠ li → x ≠ st → h' !! x = h1 !! x).
  { intros x Hxl Hxli Hxst. unfold h'.
    by rewrite lookup_alter_ne, !lookup_insert_ne. }
  assert (Hc' : h' !! c = Some (set_childNodes (text_children shown) ce)).
  { by rewrite Hother. }
  (* the page grows by the item, then by the element inside it *)
  set (hm := with_child l li (new_element "li") h1).
  assert (Hm_li : hm !! li = Some (new_element "li")).
  { unfold hm, with_child. by rewrite lookup_alter_ne, lookup_insert_eq. }
  assert (Hm_l : hm !! l = Some (set_childNodes (childNodes le ++ [ChildElement li]) le)).
  { unfold hm, with_child. by rewrite lookup_alter_eq, lookup_insert_ne, Hh1l. }
  assert (Hm_other : ∀ x, x ≠ l → x ≠ li → hm !! x = h1 !! x).
  { intros x Hxl Hxli. unfold hm, with_child.
    by rewrite lookup_alter_ne, lookup_insert_ne. }
  assert (Hgrown1 : grown li h1 hm).
  { split; [done|]. split; [by exists (new_element "li")|].
    intros x Hx. destruct (decide (x = l)) as [->|Hxl].
    - rewrite Hh1l, Hm_l. repeat split.
      unfold child_elements. cbn [childNodes set_childNodes].
      rewrite omap_app, filter_app.
      change (omap child_element [ChildElement li]) with [li].
      rewrite (filter_cons_False _ li) by (intros H; by apply H).
      by rewrite filter_nil, app_nil_r.
    - rewrite Hm_other by done. by destruct (h1 !! x). }
  assert (Hgrown2 : grown st hm h').
  { split; [by rewrite Hm_other|]. split.
    { exists stE. split; [done|]. unfold stE, child_elements, text_children.
      cbn [childNodes]. by case_bool_decide. }
    intros x Hx. destruct (decide (x = l)) as [->|Hxl].
    { rewrite Hm_l, Hl'. done. }
    destruct (decide (x = li)) as [->|Hxli].
    { rewrite Hm_li, Hli'. repeat split.
      unfold liE, child_elements. cbn [childNodes set_childNodes new_element].
      change (omap child_element [ChildElement st; ChildText ?t]) with [st].
      by rewrite filter_cons_False by (intros H; by apply H). }
    rewrite Hm_other, Hother by done. by destruct (h1 !! x). }
  assert (Hrank1 : ranked rank h1) by by apply (ranked_skeleton rank (heap b)).
  set (rank' := (λ x, if decide (x = li) then 0 else S (rank x))%nat).
  assert (Hrankm : ranked rank' hm) by by apply (ranked_grown li rank h1 hm).
  assert (Hno_li : ∀ x rest, matches hm (ClassSel x :: rest) li = false).
  { intros x rest. by apply (no_class_no_match _ _ (new_element "li")). }
  assert (Hno_st : ∀ x rest, matches h' (ClassSel x :: rest) st = false).
  { intros x rest. by apply (no_class_no_match _ _ stE). }
  assert (Htext : textContent h' c = pretty (n + 1)%Z).
  { unfold textContent.
    by apply (text_of_text_children _ _ _ (set_childNodes (text_children shown) ce)). }
  assert (Hq : ∀ x, querySelector_in h' post [ClassSel x]
                    = querySelector_in (heap b) post [ClassSel x]).
  { intros x.
    rewrite (querySelector_in_grown st hm h' Hgrown2 rank') by done.
    rewrite (querySelector_in_grown li h1 hm Hgrown1 rank) by done.
    symmetry. by apply querySelector_in_skeleton. }
  exists (with_heap (λ _, h') b), st. cbn [with_heap heap emitted uncaught].
  split; [exact Hfound|].
  split; [|split; [done|]; split; [|split; [done|]; split; [done|]; split; [done|];
           split; [done|]; split; [|split; [|done]]]].
  - unfold counting. cbn [with_heap heap]. rewrite !Hq, Htext, counter_value_pretty.
    split; [|split; [done|]; split; [|split; [done|]; split; [done|]; split; [done|]]].
    + transitivity (querySelector (with_heap (λ _, hm) b)
                                  (post_selector rt (comment_post_id data))).
      { apply (querySelector_grown st _ _ rank'); cbn [with_heap heap]; try done.
        apply Hno_st. }
      transitivity (querySelector (with_heap (λ _, h1) b)
                                  (post_selector rt (comment_post_id data))).
      { apply (querySelector_grown li _ _ rank); cbn [with_heap heap]; try done.
        apply Hno_li. }
      rewrite <- Hpost. by apply querySelector_skeleton.
    + unfold children_of. rewrite Hc'. cbn. unfold text_children.
      by case_bool_decide.
    + eexists. by apply (ranked_grown st rank' hm h').
  - unfold children_of. by rewrite Hl', Hle.
  - intros x Hxc Hxl Hx. destruct (Hold x Hx) as [Hxli Hxst].
    rewrite Hother by done. unfold h1. by rewrite lookup_alter_ne.
  - intros x Hx. destruct (decide (x = l)) as [->|Hxl]; [by rewrite Hl'|].
    destruct (Hold x Hx) as [Hxli Hxst].
    rewrite Hother by done. unfold h1. by apply lookup_alter_is_Some.
Qed.

(** X14: comments add up.  On a page that is a tree, for a post with a
    counter that reads [n], made of text alone, and a list of comments
    apart from it: after [k] comment events for that post whose
    usernames and contents are plain text, with no integer beyond 2^53
    on the way, the counter reads [n + k] (and shows it in decimal),
    the list has [k] more items, one new [li] element per event and in
    the order of the events, each reading [username: content] of its
    event; every other node of the page is as it was, and nothing is
    emitted or thrown. *)
Theorem comments_accumulate (s : Script) (b : Browser) (id : Z) (post c l : NodeId)
    (n : Z) (datas : list NewComment) :
  counting rt id post c l n b →
  Forall (λ d, comment_post_id d = id) datas →
  Forall (λ d, all_plain (comment_username d) = true
               ∧ all_plain (comment_content d) = true) datas →
  (- 2 ^ 53 ≤ n)%Z →
  (n + Z.of_nat (length datas) ≤ 2 ^ 53)%Z →
  let p' := run rt (SocketNewComment <$> datas) (s, b) in
  let total := (n + Z.of_nat (length datas))%Z in
  p'.1 = s
  ∧ counting rt id post c l total p'.2
  ∧ (datas ≠ [] → textContent (heap p'.2) c = pretty total)
  ∧ (∃ items,
       children_of (heap p'.2) l
       = (children_of (heap b) l ++ (ChildElement <$> items))%list
       ∧ Forall2 (λ i d, heap b !! i = None
                         ∧ tagName <$> heap p'.2 !! i = Some "li"
                         ∧ textContent (heap p'.2) i
                           = comment_username d +:+ ": " +:+ comment_content d)
                 items datas)
  ∧ (∀ x, x ≠ c → x ≠ l → is_Some (heap b !! x) → heap p'.2 !! x = heap b !! x)
  ∧ emitted p'.2 = emitted b
  ∧ uncaught p'.2 = uncaught b.
Proof.
  intros Hcount Hids. revert b n Hcount.
  induction Hids as [|d datas Hd Hids IH]; intros b n Hcount Hplain Hlow Hhigh.
  { cbn zeta. change (run rt (SocketNewComment <$> []) (s, b)) with (s, b).
    replace (n + Z.of_nat (length (@nil NewComment)))%Z with n by (cbn; lia).
    cbn [fst snd].
    split; [done|]. split; [done|]. split; [done|]. split; [|done].
    exists []. split; [by rewrite app_nil_r | constructor]. }
  apply Forall_cons in Hplain as [[Hu Hco] Hplain].
  cbn zeta. cbn [fmap list_fmap]. unfold run. rewrite forEach_cons.
  change (forEach ?evs (dispatch rt) ?q) with (run rt evs q).
  cbn [dispatch fst snd].
  cbn [length] in Hhigh.
  assert (Hn : exact_succ n = true).
  { unfold exact_succ. apply andb_true_iff. rewrite Z.leb_le, Z.ltb_lt. lia. }
  destruct (comment_step id post c l n b d Hcount Hd Hn Hu Hco)
    as (b1 & st & Hrun & Hcount1 & Htext1 & Hkids1 & Hli1 & Hst1 & Hnew1 & Hnewst
        & Hframe1 & Hmono1 & Hemit1 & Hunc1).
  rewrite (listener_normal _ _ _ _ Hrun).
  destruct (IH b1 (n + 1)%Z Hcount1 Hplain)
    as (Hs & Hcount2 & Htext2 & (items & Hkids2 & Hitems)
        & Hframe2 & Hemit2 & Hunc2); [lia | lia |].
  set (li := fresh (dom (heap b))) in *.
  set (p' := run rt (SocketNewComment <$> datas) (s, b1)) in *.
  replace (n + Z.of_nat (length (d :: datas)))%Z
    with (n + 1 + Z.of_nat (length datas))%Z by (cbn [length]; lia).
  destruct Hcount as (_ & Hc & _ & _ & Hl & _).
  destruct (first_match_is_Some _ _ _ _ Hc) as [ce Hce].
  destruct (first_match_is_Some _ _ _ _ Hl) as [le Hle].
  assert (Hfresh : ∀ x, heap b !! x = None → x ≠ c ∧ x ≠ l).
  { intros x Hx. split; intros ->; congruence. }
  destruct (Hfresh li Hnew1) as [Hlic Hlil].
  destruct (Hfresh st Hnewst) as [Hstc Hstl].
  split; [done|]. split; [done|]. split; [|split; [|split; [|split]]].
  - intros _. destruct datas as [|d' datas'].
    + unfold p'. change (run rt (SocketNewComment <$> []) (s, b1)) with (s, b1).
      replace (n + 1 + Z.of_nat (length (@nil NewComment)))%Z with (n + 1)%Z
        by (cbn; lia).
      exact Htext1.
    + by apply Htext2.
  - exists (li :: items). split.
    + rewrite Hkids2, Hkids1, <- app_assoc. done.
    + assert (Hli2 : heap p'.2 !! li = heap b1 !! li)
        by (apply Hframe2; [done | done | by rewrite Hli1]).
      assert (Hst2 : heap p'.2 !! st = heap b1 !! st)
        by (apply Hframe2; [done | done | by rewrite Hst1]).
      constructor.
      * split; [done|]. split; [by rewrite Hli2, Hli1|].
        apply (comment_item_text _ li st); [by rewrite Hli2 | by rewrite Hst2].
      * eapply Forall2_impl; [exact Hitems|]. intros i d' (Hi1 & Hi2 & Hi3).
        split; [|done].
        destruct (heap b !! i) eqn:Hi; [|done].
        destruct (Hmono1 i) as [? Hsome]; [by rewrite Hi | congruence].
  - intros x Hxc Hxl Hx.
    rewrite Hframe2 by auto. by apply Hframe1.
  - congruence.
  - congruence.
Qed.

(** *** When the send listener throws *)

(** The click listener of the send button, up to the point where it
    has read the text. *)
Lemma on_send_click_unfold s b :
  on_send_click rt s b
  = match input s with
    | None => (Throw (TypeError "input is null"), b)
    | Some i =>
        match value_of (heap b) i with
        | None => (Throw (TypeError "input.value is undefined"), b)
        | Some v =>
            if bool_decide (trim v = "") then (Normal tt, b)
            else
              (do _ <- emit (SendMessage (chat_user rt) (trim v));
               do div <- createElement "div";
               do _ <- update div (set_className "message from-me");
               do _ <- update div (set_childNodes (text_children (trim v)));
               do m <- deref "messagesDiv is null" (messagesDiv s);
               do _ <- appendChild m div;
               do _ <- scroll_to_end rt m;
               update i (set_value "")) b
        end
    end.
Proof.
  unfold on_send_click. destruct (input s) as [i|]; [|done]. cbn [deref].
  unfold bind at 1. cbn [ret]. unfold get_value, bind at 1. unfold bind at 1.
  unfold gets at 1. unfold value_of.
  destruct (heap b !! i ≫= value) as [v|]; [|done].
  cbn [deref ret]. by case_bool_decide.
Qed.

(** Without a chat container the listener throws half way: the
    message has left, the new element exists but hangs nowhere, and
    the input keeps its text. *)
Lemma on_send_click_no_container s b i v :
  input s = Some i → value_of (heap b) i = Some v → trim v ≠ "" →
  messagesDiv s = None →
  ∃ b1, on_send_click rt s b = (Throw (TypeError "messagesDiv is null"), b1)
    ∧ emitted b1 = (emitted b ++ [SendMessage (chat_user rt) (trim v)])%list
    ∧ value_of (heap b1) i = Some v
    ∧ (∀ n, is_Some (heap b !! n) → heap b1 !! n = heap b !! n)
    ∧ uncaught b1 = uncaught b.
Proof.
  intros Hi Hv Htext Hm. rewrite on_send_click_unfold, Hi, Hv, Hm.
  rewrite bool_decide_eq_false_2 by done.
  eexists. split; [reflexivity|].
  cbn -[fresh alter insert trim]. rewrite !alter_insert_eq.
  assert (Hold : ∀ n, is_Some (heap b !! n) →
            <[fresh (dom (heap b)) :=
                set_childNodes (text_children (trim v))
                  (set_className "message from-me" (new_element "div"))]> (heap b) !! n
            = heap b !! n).
  { intros n Hn. rewrite lookup_insert_ne; [done|]. by apply fresh_not_in_heap. }
  split; [done|]. split; [|split; [exact Hold | done]].
  unfold value_of in *. rewrite Hold; [done|].
  destruct (heap b !! i); [eauto | done].
Qed.

Lemma app_singleton_ne {A} (l : list A) (x : A) : (l ++ [x])%list ≠ l.
Proof.
  intros H. apply (f_equal length) in H. rewrite length_app in H. cbn in H. lia.
Qed.

(** X15: when a click on the send button, one that meets no bound
    image on its way up, ends in an error.  The
    listener throws exactly when there is no chat input, or the input
    has no value, or there is a text to send but no chat container; it
    throws at most once.  In the last case the throw comes after the
    message has left: [send_message] is emitted, but the text stays in
    the input and the nodes of the page are as they were. *)
Theorem send_click_throws_iff (s : Script) (b : Browser) (t : NodeId) :
  btn s = Some t → clear_of_images s (heap b) t →
  let b' := (dispatch rt (Click t) (s, b)).2 in
  (uncaught b' = uncaught b ∨ ∃ e, uncaught b' = (uncaught b ++ [e])%list)
  ∧ (uncaught b' ≠ uncaught b
     ↔ input s = None
       ∨ (∃ i, input s = Some i ∧ value_of (heap b) i = None)
       ∨ (∃ i v, input s = Some i ∧ value_of (heap b) i = Some v
                 ∧ trim v ≠ "" ∧ messagesDiv s = None))
  ∧ (∀ i v, input s = Some i → value_of (heap b) i = Some v → trim v ≠ "" →
            messagesDiv s = None →
            emitted b' = (emitted b ++ [SendMessage (chat_user rt) (trim v)])%list
            ∧ value_of (heap b') i = Some v
            ∧ ∀ n, is_Some (heap b !! n) → heap b' !! n = heap b !! n).
Proof.
  intros Hbtn Himg b'.
  assert (Hb' : b' = listener (on_send_click rt s) b).
  { unfold b'. cbn [dispatch]. by rewrite dispatch_click_button. }
  rewrite Hb'. clear Hb' b'.
  destruct (input s) as [i|] eqn:Hi.
  2: { rewrite (listener_throw _ _ (TypeError "input is null") b)
         by by rewrite on_send_click_unfold, Hi.
       cbn [uncaught with_uncaught]. split; [right; eauto|].
       split; [split; [by left | intros _; apply app_singleton_ne] | done]. }
  destruct (value_of (heap b) i) as [v|] eqn:Hv.
  2: { rewrite (listener_throw _ _ (TypeError "input.value is undefined") b)
         by by rewrite on_send_click_unfold, Hi, Hv.
       cbn [uncaught with_uncaught]. split; [right; eauto|].
       split; [split; [right; left; eauto | intros _; apply app_singleton_ne]|].
       intros i' v' [= <-] Hv'. congruence. }
  destruct (decide (trim v = "")) as [Hblank|Htext].
  { rewrite (listener_normal _ _ tt b) by by apply (on_send_click_blank s b i v).
    split; [by left|]. split.
    - split; [done|].
      intros [? | [(i' & [= <-] & ?) | (i' & v' & [= <-] & Hv' & ? & _)]];
        [done | congruence | congruence].
    - intros i' v' [= <-] Hv' Ht'. congruence. }
  destruct (messagesDiv s) as [m|] eqn:Hm.
  - assert (Hrun : ∃ b1, on_send_click rt s b = (Normal tt, b1)
                         ∧ uncaught b1 = uncaught b).
    { rewrite on_send_click_unfold, Hi, Hv, Hm.
      rewrite bool_decide_eq_false_2 by done. by eexists. }
    destruct Hrun as (b1 & Hrun & Hunc). rewrite (listener_normal _ _ _ _ Hrun).
    split; [by left|]. split.
    + split; [done|].
      intros [? | [(i' & [= <-] & ?) | (i' & v' & _ & _ & _ & ?)]];
        [done | congruence | congruence].
    + intros i' v' _ _ _ ?. congruence.
  - destruct (on_send_click_no_container s b i v Hi Hv Htext Hm)
      as (b1 & Hrun & Hemit & Hval & Hframe & Hunc).
    rewrite (listener_throw _ _ _ _ Hrun). cbn [uncaught with_uncaught heap emitted].
    rewrite Hunc. split; [right; eauto|].
    split; [split; [right; right; by exists i, v | intros _; apply app_singleton_ne]|].
    intros i' v' [= <-] Hv' _ _. rewrite Hv in Hv'. injection Hv' as <-. done.
Qed.

End Verification.

(** ** The statements on the sample pages *)

Example feed_heap_ranked : ranked (λ id, 30 - id) feed_heap.
Proof.
  intros id e c He Hc.
  assert (H : map_Forall (λ id e, Forall (λ c, 30 - c < 30 - id) (child_elements e))
                         feed_heap).
  { apply (bool_decide_unpack _). vm_compute. exact I. }
  exact (proj1 (Forall_forall _ _) (H id e He) c Hc).
Qed.

Example loaded_feed_script :
  loaded_feed.1
  = {| currentUsername := Some "alice";
       postsContainer := Some 2;
       input := Some 13;
       btn := Some 14;
       messagesDiv := Some 12;
       videos := [8; 11];
       current := None;
       submitBound := [6];
       imgBound := [9];
       observed := [8; 11] |}.
Proof. vm_compute. reflexivity. Qed.

(** C9 as it is stated fails: a post that arrives inside a wrapper,
    appended to the observed container of the sample feed, is in the
    container with its comment form, and the form has no submit
    listener. *)
Lemma wrapped_post_not_bound :
  postsContainer loaded_feed.1 = Some 2
  ∧ dom wrapped_post ∩ dom (heap loaded_feed.2) = ∅
  ∧ ¬ binds_inserted_posts 2 20 wrapped_post loaded_feed.
Proof.
  split; [vm_compute; reflexivity|]. split.
  { apply (bool_decide_unpack _). vm_compute. exact I. }
  intros H. specialize (H 21 22).
  assert (Hin : 22 ∈ [6]).
  { apply H.
    - apply (bool_decide_unpack _). vm_compute. exact I.
    - vm_compute. reflexivity.
    - vm_compute. reflexivity. }
  apply (bool_decide_pack _) in Hin. vm_compute in Hin. exact Hin.
Qed.


(** C7 as it is stated fails: a post arrives in the feed with an
    image and a video that plays, and the first video of the feed is
    started by the observer.  A click on the new image, an image under
    a post of the feed, leaves the first video playing and current; and
    when the window loses focus the new video, a video under a post of
    the feed, goes on playing. *)
Lemma late_image_and_video_ignored :
  let p := run sample_runtime pictured_events loaded_feed in
  25 ∈ querySelectorAll_under p.2 [ClassSel "post"] [TagSel "img"]
  ∧ querySelectorAll_under p.2 [ClassSel "post"] [TagSel "video"] = [8; 11; 27]
  ∧ is_paused (heap (dispatch sample_runtime (Click 25) p).2) 8 = false
  ∧ current (dispatch sample_runtime (Click 25) p).1 = Some 8
  ∧ is_paused (heap (dispatch sample_runtime Blur p).2) 27 = false.
Proof.
  cbn zeta. split.
  { apply (bool_decide_unpack _). vm_compute. exact I. }
  vm_compute. repeat split.
Qed.

(** C8 fails on the code: with the send button missing, Enter in the
    chat input throws; with the input missing, a click on the send
    button throws; with the list of messages missing, a click sends
    the message and then throws, leaving the input as it was. *)
Theorem missing_companion_throws :
  uncaught (dispatch sample_runtime (KeyPress 3 "Enter") (boot chat_without_button)).2
  = [TypeError "btn is null"]
  ∧ uncaught (dispatch sample_runtime (Click 3) (boot chat_without_input)).2
    = [TypeError "input is null"]
  ∧ uncaught (dispatch sample_runtime (Click 3) (boot chat_without_messages)).2
    = [TypeError "messagesDiv is null"]
  ∧ emitted (dispatch sample_runtime (Click 3) (boot chat_without_messages)).2
    = [SendMessage "bob" "hello"]
  ∧ value_of (heap (dispatch sample_runtime (Click 3) (boot chat_without_messages)).2) 2
    = Some "hello".
Proof. vm_compute. repeat split. Qed.

(** *** Witnesses *)


Lemma new_message_rendering_witness :
  getElementById feed_page "messages" = Some 12
  ∧ ∃ b', dispatch sample_runtime (SocketNewMessage (mkNewMessage "carol" "alice" "hi"))
            (loaded_feed.1, feed_page) = (loaded_feed.1, b')
      ∧ ((∃ cls, rendered_into 12 cls "hi" feed_page b')
         ↔ currentUsername loaded_feed.1 = Some "carol"
           ∨ currentUsername loaded_feed.1 = Some "alice")
      ∧ (∀ cls, rendered_into 12 cls "hi" feed_page b' →
           ("from-me" ∈ class_tokens cls
              ↔ currentUsername loaded_feed.1 = Some "carol")
           ∧ ("from-other" ∈ class_tokens cls
              ↔ currentUsername loaded_feed.1 ≠ Some "carol")).
Proof.
  split; [vm_compute; reflexivity|].
  apply (new_message_rendering sample_runtime
           loaded_feed.1 (mkNewMessage "carol" "alice" "hi") feed_page 12).
  vm_compute. reflexivity.
Defined.

Lemma new_comment_effect_witness :
  (querySelector feed_page (post_selector sample_runtime 7) = Some 3
   ∧ querySelector_in feed_heap 3 [ClassSel "comment-count"] = Some 4
   ∧ displays (textContent feed_heap 4) 3
   ∧ querySelector_in feed_heap 3 [ClassSel "comments-list"] = Some 5)
  ∧ (∃ b', dispatch sample_runtime (SocketNewComment (mkNewComment 7 "bob" "hi"))
             (loaded_feed.1, feed_page) = (loaded_feed.1, b')
       ∧ textContent (heap b') 4 = "4"
       ∧ children_of (heap b') 5 = [ChildElement 15]
       ∧ tagName <$> heap b' !! 15 = Some "li"
       ∧ textContent (heap b') 15 = "bob: hi")
  ∧ querySelector feed_page (post_selector sample_runtime 99) = None
  ∧ dispatch sample_runtime (SocketNewComment (mkNewComment 99 "bob" "hi"))
      (loaded_feed.1, feed_page) = (loaded_feed.1, feed_page).
Proof.
  assert (Hshown : displays (textContent feed_heap 4) 3) by (left; vm_compute; reflexivity).
  split; [split; [vm_compute; reflexivity|]; split; [vm_compute; reflexivity|];
          split; [exact Hshown | vm_compute; reflexivity]|].
  split.
  - destruct (proj1 (new_comment_effect sample_runtime loaded_feed.1
                       (mkNewComment 7 "bob" "hi") feed_page) 3 4 5 3%Z)
      as (b' & H1 & _ & H2 & H3 & _ & H5 & _ & H7 & _).
    + vm_compute. reflexivity.
    + vm_compute. reflexivity.
    + vm_compute. reflexivity.
    + exact Hshown.
    + vm_compute. reflexivity.
    + vm_compute. reflexivity.
    + discriminate.
    + destruct H7 as [H8 _]; [vm_compute; reflexivity | vm_compute; reflexivity |].
      exists b'. split; [exact H1|]. split; [exact H2|]. split; [exact H3|].
      split; [exact H5 | exact H8].
  - split; [vm_compute; reflexivity|].
    apply (proj2 (new_comment_effect sample_runtime loaded_feed.1
                    (mkNewComment 99 "bob" "hi") feed_page)).
    vm_compute. reflexivity.
Defined.


Lemma send_hello_witness :
  (btn loaded_feed.1 = Some 14
   ∧ event_path (heap loaded_feed.2) 14 = [14; 1; 0]
   ∧ imgBound loaded_feed.1 = [9]
   ∧ input loaded_feed.1 = Some 13
   ∧ messagesDiv loaded_feed.1 = Some 12
   ∧ value_of (heap loaded_feed.2) 13 = Some "  hello  ")
  ∧ ∃ b', dispatch sample_runtime (Click 14) loaded_feed = (loaded_feed.1, b')
      ∧ emitted b' = [SendMessage "bob" "hello"]
      ∧ heap b' !! 15 = Some (message_element "message from-me" "hello")
      ∧ children_of (heap b') 12 = [ChildElement 15]
      ∧ value_of (heap b') 13 = Some "".
Proof.
  split; [vm_compute; repeat split|].
  destruct (send_hello sample_runtime loaded_feed.1 loaded_feed.2 14 13 12)
    as (b' & H0 & _ & H2 & H3 & H4 & _ & H6 & _).
  - vm_compute. reflexivity.
  - apply clear_of_images_Forall, (bool_decide_unpack _). vm_compute. exact I.
  - vm_compute. reflexivity.
  - vm_compute. reflexivity.
  - vm_compute. reflexivity.
  - eexists. vm_compute. reflexivity.
  - discriminate.
  - cbn. unfold sample_clientHeight. lia.
  - exists b'. repeat split; [exact H0 | exact H2 | exact H3 | exact H4 | exact H6].
Defined.


Lemma global_pause_signal_witness :
  (pause_signal playing_feed.1 (Click 9)
   ∧ videos playing_feed.1 = [8; 11]
   ∧ is_paused (heap playing_feed.2) 8 = false
   ∧ current playing_feed.1 = Some 8)
  ∧ all_paused [8; 11] (heap (dispatch sample_runtime (Click 9) playing_feed).2)
  ∧ current (dispatch sample_runtime (Click 9) playing_feed).1 = None.
Proof.
  assert (H : pause_signal playing_feed.1 (Click 9)).
  { apply signal_image. apply (bool_decide_unpack _). vm_compute. exact I. }
  split; [split; [exact H|]; vm_compute; repeat split|].
  exact (global_pause_signal sample_runtime playing_feed.1 playing_feed.2 (Click 9) H).
Defined.

Lemma inserted_post_bound_witness :
  (postsContainer loaded_feed.1 = Some 2
   ∧ classList_contains (heap (insert_fragment 2 21 bare_post loaded_feed).2) 21 "post"
     = true)
  ∧ 22 ∈ submitBound (insert_fragment 2 21 bare_post loaded_feed).1.
Proof.
  split; [vm_compute; repeat split|].
  apply (inserted_post_bound loaded_feed 2 21 bare_post 2 22).
  - apply (bool_decide_unpack _). vm_compute. exact I.
  - apply (bool_decide_unpack _). vm_compute. exact I.
  - apply (bool_decide_unpack _). vm_compute. exact I.
  - vm_compute. reflexivity.
  - apply (bool_decide_unpack _). vm_compute. exact I.
  - vm_compute. reflexivity.
  - vm_compute. reflexivity.
Defined.

Lemma late_video_left_alone_witness :
  (24 ∉ (document_elements feed_page).*1)
  ∧ let p := run sample_runtime late_events (boot feed_page) in
    videos p.1 = [8; 11]
    ∧ (24 ∉ observed p.1)
    ∧ (∃ calls, mediaCalls p.2 = (mediaCalls feed_page ++ calls)%list
         ∧ Forall (λ c, call_target c.1 ≠ 24) calls)
    ∧ is_paused (heap p.2) 24 = false.
Proof.
  assert (H : 24 ∉ (document_elements feed_page).*1).
  { intros H. apply (bool_decide_pack _) in H. vm_compute in H. exact H. }
  split; [exact H|].
  destruct (late_video_left_alone sample_runtime feed_page late_events 24 H)
    as (_ & H2 & _ & H4 & H5 & _).
  split; [exact H2|]. split; [exact H4|]. split; [exact H5|].
  vm_compute. reflexivity.
Defined.

(** After the same events on the sample feed one video plays, the one
    that became dominant last. *)
Example one_video_on_the_feed :
  let p := run sample_runtime
             [Intersect [mkEntry 8 true (1 # 1) true; mkEntry 11 true (1 # 1) true]]
             (boot feed_page) in
  is_paused (heap p.2) 8 = true ∧ is_paused (heap p.2) 11 = false
  ∧ (mediaCalls p.2).*1
    = [CallPause 8; CallPause 11; CallPlay 8 true; CallPause 8; CallPlay 11 true].
Proof. vm_compute. repeat split. Qed.

(** *** Witnesses of the further properties *)

Lemma at_most_one_emission_witness :
  lone_form typed_feed (Submit 6)
  ∧ ∃ l, emitted (dispatch sample_runtime (Submit 6) typed_feed).2
         = (emitted typed_feed.2 ++ l)%list
      ∧ (length l ≤ 1)%nat
      ∧ Forall (sendable sample_runtime (Submit 6) typed_feed) l.
Proof.
  assert (H : lone_form typed_feed (Submit 6)).
  { intros n Hn Hb.
    assert (Hsb : submitBound typed_feed.1 = [6]) by (vm_compute; reflexivity).
    rewrite Hsb in Hb. apply elem_of_cons in Hb as [Hb | Hb]; [exact Hb|].
    by apply elem_of_nil in Hb. }
  split; [exact H|].
  exact (at_most_one_emission sample_runtime (Submit 6) typed_feed H).
Defined.

Lemma only_user_sends_emit_or_throw_witness :
  ¬ user_send loaded_feed (Click 9)
  ∧ emitted (dispatch sample_runtime (Click 9) loaded_feed).2 = emitted loaded_feed.2
  ∧ uncaught (dispatch sample_runtime (Click 9) loaded_feed).2 = uncaught loaded_feed.2.
Proof.
  assert (H : ¬ user_send loaded_feed (Click 9)).
  { intros (sb & Hb & Hin). vm_compute in Hb. injection Hb as <-.
    apply (bool_decide_pack _) in Hin. vm_compute in Hin. exact Hin. }
  split; [exact H|].
  apply (only_user_sends_emit_or_throw sample_runtime (Click 9) loaded_feed H).
Defined.


Lemma send_message_effect_witness :
  (btn (boot labelled_chat).1 = Some 4
   ∧ input (boot labelled_chat).1 = Some 3
   ∧ messagesDiv (boot labelled_chat).1 = Some 2
   ∧ send_action (boot labelled_chat).1 (heap (boot labelled_chat).2) 4 3 (Click 5)
   ∧ value_of (heap (boot labelled_chat).2) 3 = Some "hello"
   ∧ trim "hello" ≠ "")
  ∧ ∃ b', dispatch sample_runtime (Click 5) (boot labelled_chat)
          = ((boot labelled_chat).1, b')
      ∧ emitted b' = [SendMessage "bob" "hello"]
      ∧ children_of (heap b') 2 = [ChildElement 6]
      ∧ value_of (heap b') 3 = Some ""
      ∧ listener (on_send_click sample_runtime (boot labelled_chat).1) b' = b'.
Proof.
  assert (H4 : send_action (boot labelled_chat).1 (heap (boot labelled_chat).2) 4 3
                 (Click 5)).
  { apply send_by_click.
    - apply (bool_decide_unpack _). vm_compute. exact I.
    - vm_compute. reflexivity.
    - apply clear_of_images_Forall, (bool_decide_unpack _). vm_compute. exact I. }
  assert (H5 : trim "hello" ≠ "").
  { intros H. vm_compute in H. discriminate H. }
  split; [split; [vm_compute; reflexivity|]; split; [vm_compute; reflexivity|];
          split; [vm_compute; reflexivity|]; split; [exact H4|];
          split; [vm_compute; reflexivity | exact H5]|].
  destruct (send_message_effect sample_runtime (boot labelled_chat).1
              (boot labelled_chat).2 4 3 2 "hello" (Click 5))
    as (b' & H0 & H1 & _ & H3 & _ & H6 & _ & _ & _ & H10).
  - vm_compute. reflexivity.
  - vm_compute. reflexivity.
  - vm_compute. reflexivity.
  - discriminate.
  - exact H4.
  - vm_compute. reflexivity.
  - exact H5.
  - eexists. vm_compute. reflexivity.
  - exists b'. repeat split; [exact H0 | exact H1 | exact H3 | exact H6 | exact H10].
Defined.

Lemma load_handler_effect_witness :
  getElementById feed_page "posts" = Some 2
  ∧ postsContainer loaded_feed.1 = Some 2
  ∧ all_paused [8; 11] (heap loaded_feed.2)
  ∧ heap loaded_feed.2 !! 9 = feed_heap !! 9.
Proof.
  destruct (load_handler_effect feed_page)
    as (_ & H2 & _ & H4 & _ & _ & _ & _ & _ & _ & _ & H12 & _).
  assert (H : getElementById feed_page "posts" = Some 2) by (vm_compute; reflexivity).
  split; [exact H|]. split; [exact (H12 2 H)|]. split; [exact H2|].
  apply (H4 9). intros Hin. apply (bool_decide_pack _) in Hin.
  vm_compute in Hin. exact Hin.
Defined.

Lemma listeners_only_grow_witness :
  let p' := run sample_runtime late_events loaded_feed in
  captured p'.1 = captured loaded_feed.1
  ∧ ∃ added, submitBound p'.1 = ([6] ++ added)%list ∧ (length added ≤ 1)%nat.
Proof.
  destruct (listeners_only_grow sample_runtime late_events loaded_feed)
    as (H1 & added & H2 & H3 & _).
  split; [exact H1|]. exists added. split; [exact H2 | exact H3].
Defined.

Lemma last_dominant_wins_witness :
  (11 ∈ observed loaded_feed.1
   ∧ dominant scroll_batch_entry = true
   ∧ Forall (λ x, dominant x = false) scroll_batch_after)
  ∧ let p' := dispatch sample_runtime
                (Intersect (scroll_batch_before ++ scroll_batch_entry :: scroll_batch_after))
                loaded_feed in
    current p'.1 = Some 11
    ∧ others_paused [8; 11] 11 (heap p'.2)
    ∧ is_paused (heap p'.2) 11 = false.
Proof.
  assert (H1 : 11 ∈ observed loaded_feed.1).
  { apply (bool_decide_unpack _). vm_compute. exact I. }
  assert (H3 : Forall (λ x, dominant x = false) scroll_batch_after).
  { repeat constructor. }
  split; [split; [exact H1|]; split; [vm_compute; reflexivity | exact H3]|].
  destruct (last_dominant_wins sample_runtime loaded_feed.1 loaded_feed.2
              scroll_batch_before scroll_batch_after scroll_batch_entry H1)
    as (H4 & H5 & H6 & _).
  - vm_compute. reflexivity.
  - exact H3.
  - split; [exact H4|]. split; [exact H5|]. apply H6.
    + reflexivity.
    + eexists. vm_compute. reflexivity.
    + intros Hin. apply (bool_decide_pack _) in Hin. vm_compute in Hin. exact Hin.
Defined.

Lemma calm_batch_only_pauses_witness :
  Forall (λ x, dominant x = false) calm_batch
  ∧ dispatch sample_runtime (Intersect calm_batch) loaded_feed = loaded_feed.
Proof.
  assert (H : Forall (λ x, dominant x = false) calm_batch).
  { repeat constructor. }
  split; [exact H|].
  destruct (calm_batch_only_pauses sample_runtime loaded_feed.1 loaded_feed.2 calm_batch H)
    as (_ & _ & _ & _ & H5).
  apply H5. intros x Hx. unfold calm_batch in Hx.
  repeat (apply elem_of_cons in Hx as [-> | Hx]; [vm_compute; reflexivity|]).
  by apply elem_of_nil in Hx.
Defined.

Lemma other_events_leave_media_alone_witness :
  ¬ touches_media loaded_feed (Click 14)
  ∧ mediaCalls (dispatch sample_runtime (Click 14) loaded_feed).2
    = mediaCalls loaded_feed.2.
Proof.
  assert (H : ¬ touches_media loaded_feed (Click 14)).
  { intros H. apply H.
    apply clear_of_images_Forall, (bool_decide_unpack _). vm_compute. exact I. }
  split; [exact H|].
  apply (other_events_leave_media_alone sample_runtime (Click 14) loaded_feed H).
Defined.

Lemma insertion_binds_first_form_witness :
  (dom bare_post ∩ dom (heap loaded_feed.2) = ∅
   ∧ 21 ∈ dom bare_post
   ∧ 2 ∈ dom (heap loaded_feed.2))
  ∧ (dispatch sample_runtime (Inserted 2 21 bare_post) loaded_feed).1
    = add_submitBound 22 loaded_feed.1.
Proof.
  assert (H1 : dom bare_post ∩ dom (heap loaded_feed.2) = ∅).
  { apply (bool_decide_unpack _). vm_compute. exact I. }
  assert (H2 : 21 ∈ dom bare_post).
  { apply (bool_decide_unpack _). vm_compute. exact I. }
  assert (H3 : 2 ∈ dom (heap loaded_feed.2)).
  { apply (bool_decide_unpack _). vm_compute. exact I. }
  split; [by repeat split|].
  destruct (insertion_binds_first_form sample_runtime loaded_feed 2 21 bare_post H1 H2 H3)
    as (_ & _ & _ & H7).
  apply (H7 22).
  - exists 2. split; [vm_compute; reflexivity|].
    apply (bool_decide_unpack _). vm_compute. exact I.
  - vm_compute. reflexivity.
  - vm_compute. reflexivity.
Defined.

Lemma new_message_in_full_witness :
  (getElementById feed_page "messages" = Some 12
   ∧ concerns loaded_feed.1 (mkNewMessage "carol" "alice" "<b>hi</b>") = true)
  ∧ ∃ b', dispatch sample_runtime (SocketNewMessage (mkNewMessage "carol" "alice" "<b>hi</b>"))
            (loaded_feed.1, feed_page) = (loaded_feed.1, b')
      ∧ textContent (heap b') 15 = "<b>hi</b>"
      ∧ children_of (heap b') 12 = [ChildElement 15]
      ∧ emitted b' = [].
Proof.
  split; [vm_compute; repeat split|].
  destruct (new_message_in_full sample_runtime loaded_feed.1
              (mkNewMessage "carol" "alice" "<b>hi</b>") feed_page) as [H _].
  destruct (H 12) as (b' & H0 & _ & _ & H3 & H4 & _ & _ & H7 & _).
  - vm_compute. reflexivity.
  - vm_compute. reflexivity.
  - exists b'. repeat split; [exact H0 | exact H3 | exact H4 | exact H7].
Defined.

Lemma unreadable_counter_shows_NaN_witness :
  (querySelector vague_feed (post_selector sample_runtime 7) = Some 3
   ∧ querySelector_in (heap vague_feed) 3 [ClassSel "comment-count"] = Some 4
   ∧ counter_value (textContent (heap vague_feed) 4) = NaN)
  ∧ textContent
      (heap (dispatch sample_runtime (SocketNewComment (mkNewComment 7 "bob" "hi"))
               (loaded_feed.1, vague_feed)).2) 4
    = "NaN".
Proof.
  split; [vm_compute; repeat split|].
  destruct (unreadable_counter_shows_NaN sample_runtime loaded_feed.1
              (mkNewComment 7 "bob" "hi") vague_feed 3 4) as (H & _).
  - vm_compute. reflexivity.
  - vm_compute. reflexivity.
  - vm_compute. reflexivity.
  - vm_compute. reflexivity.
  - intros l Hl. vm_compute in Hl. injection Hl as <-. discriminate.
  - exact H.
Defined.

Lemma comments_accumulate_witness :
  (counting sample_runtime 7 3 4 5 3 feed_page
   ∧ Forall (λ d, all_plain (comment_username d) = true
                  ∧ all_plain (comment_content d) = true) two_comments)
  ∧ let p' := run sample_runtime (SocketNewComment <$> two_comments)
                (loaded_feed.1, feed_page) in
    textContent (heap p'.2) 4 = "5"
    ∧ counting sample_runtime 7 3 4 5 5 p'.2
    ∧ (∃ items,
         children_of (heap p'.2) 5 = ChildElement <$> items
         ∧ Forall2 (λ i d, textContent (heap p'.2) i
                           = comment_username d +:+ ": " +:+ comment_content d)
                   items two_comments)
    ∧ emitted p'.2 = [].
Proof.
  assert (H : counting sample_runtime 7 3 4 5 3 feed_page).
  { repeat split; try (vm_compute; reflexivity); [discriminate|].
    exists (λ id, 30 - id). exact feed_heap_ranked. }
  assert (Hplain : Forall (λ d, all_plain (comment_username d) = true
                                ∧ all_plain (comment_content d) = true) two_comments).
  { repeat (constructor; [split; vm_compute; reflexivity|]). constructor. }
  split; [split; [exact H | exact Hplain]|].
  destruct (comments_accumulate sample_runtime loaded_feed.1 feed_page 7 3 4 5 3
              two_comments H)
    as (_ & H2 & H3 & (items & H4 & H5) & _ & H6 & _).
  - repeat constructor.
  - exact Hplain.
  - lia.
  - cbn. lia.
  - split; [apply H3; discriminate|]. split; [exact H2|]. split; [|exact H6].
    exists items. split; [exact H4|].
    eapply Forall2_impl; [exact H5|]. intros i d (_ & _ & Ht). exact Ht.
Defined.

Lemma send_click_throws_iff_witness :
  (btn (boot chat_without_messages).1 = Some 3
   ∧ clear_of_images (boot chat_without_messages).1
       (heap (boot chat_without_messages).2) 3)
  ∧ let b' := (dispatch sample_runtime (Click 3) (boot chat_without_messages)).2 in
    uncaught b' ≠ uncaught (boot chat_without_messages).2
    ∧ emitted b' = [SendMessage "bob" "hello"]
    ∧ value_of (heap b') 2 = Some "hello".
Proof.
  assert (H2 : clear_of_images (boot chat_without_messages).1
                 (heap (boot chat_without_messages).2) 3).
  { apply clear_of_images_Forall, (bool_decide_unpack _). vm_compute. exact I. }
  split; [split; [vm_compute; reflexivity | exact H2]|].
  destruct (send_click_throws_iff sample_runtime (boot chat_without_messages).1
              (boot chat_without_messages).2 3)
    as (_ & H4 & H5).
  - vm_compute. reflexivity.
  - exact H2.
  - assert (Ht : trim "hello" ≠ "").
    { intros H. vm_compute in H. discriminate H. }
    destruct (H5 2 "hello") as (H6 & H7 & _);
      [vm_compute; reflexivity | vm_compute; reflexivity | exact Ht
       | vm_compute; reflexivity |].
    split; [|split; [exact H6 | exact H7]].
    apply H4. right. right. exists 2, "hello".
    repeat split; try (vm_compute; reflexivity). exact Ht.
Defined.
